(** * Inference notebooks of wildfire-forecasting

    A model of the two example notebooks ([4 days in / 10 days out] and
    [2 days in / 1 day out]): the tensor operations they apply to the
    prediction, the file list and hyper-parameter call they build, and the
    order in which their cells talk to the outside world (train.py, torch,
    scipy, pytorch-lightning, matplotlib, the operating system). *)

From Stdlib Require Import ZArith String Ascii List Lia SpecFloat DecimalString.
From stdpp Require Import base option list strings gmap.

Open Scope string_scope.
Open Scope nat_scope.
Open Scope list_scope.

(** ** Exceptions and results *)

(** A Python exception: its class and its message. *)
Record exn := PyExc { exc_class : string; exc_msg : string }.

(** The outcome of an operation that may raise. *)
Definition result (A : Type) : Type := exn + A.

Definition rbind {A B} (r : result A) (f : A -> result B) : result B :=
  match r with
  | inl e => inl e
  | inr a => f a
  end.

Definition IndexError (msg : string) : exn := PyExc "IndexError" msg.
Definition TypeError (msg : string) : exn := PyExc "TypeError" msg.
Definition RuntimeError (msg : string) : exn := PyExc "RuntimeError" msg.
Definition AttributeError (msg : string) : exn := PyExc "AttributeError" msg.
Definition KeyError (msg : string) : exn := PyExc "KeyError" msg.

(** ** float32 values

    The tensors of the notebooks hold IEEE-754 binary32 numbers
    ([torch.float32]): 24 bits of precision, exponent of infinity 128. *)

Definition float32 : Type := spec_float.
Definition prec32 : Z := 24.
Definition emax32 : Z := 128.

Definition nan : float32 := S754_nan.

(** [torch.isnan] on one element. *)
Definition isnan (v : float32) : bool :=
  match v with
  | S754_nan => true
  | _ => false
  end.

Definition f32_sub : float32 -> float32 -> float32 := SFsub prec32 emax32.
Definition f32_mul : float32 -> float32 -> float32 := SFmul prec32 emax32.
Definition f32_div : float32 -> float32 -> float32 := SFdiv prec32 emax32.
Definition f32_add : float32 -> float32 -> float32 := SFadd prec32 emax32.
Definition f32_abs : float32 -> float32 := SFabs.
Definition f32_lt : float32 -> float32 -> bool := SFltb.

(** Rounding of a Python float (binary64) to float32, as torch does with a
    Python scalar that meets a float32 tensor. *)
Definition f32_of_float64 (v : spec_float) : float32 :=
  match v with
  | S754_finite s m e => binary_round prec32 emax32 s m e
  | _ => v
  end.

Definition f32_of_Z (z : Z) : float32 := binary_normalize prec32 emax32 z 0 false.

(** The Python literal [9.4]: 0x1.2cccccccccccdp+3. *)
Definition lit_9_4 : spec_float := S754_finite false 5291729562160333 (-49).

(** The Python literal [0.1182]: 0x1.e425aee631f8ap-4. *)
Definition lit_0_1182 : spec_float := S754_finite false 8517207615283082 (-56).

(** The threshold of the accuracy figures, [9.4], at float32. *)
Definition threshold : float32 := f32_of_float64 lit_9_4.

(** [bool_tensor.float()] on one element. *)
Definition float_of_bool (b : bool) : float32 :=
  if b then f32_of_Z 1 else S754_zero false.

(** ** Tensors

    A tensor of any rank: a scalar (rank 0) or a sequence of tensors of the
    next lower rank.  A torch tensor is regular (all the entries of one
    dimension have the same shape); [has_shape] says so. *)

#[local] Unset Elimination Schemes.
Inductive tensor (A : Type) : Type :=
| Scalar (a : A)
| Dim (ts : list (tensor A)).
#[local] Set Elimination Schemes.

Arguments Scalar {A} a.
Arguments Dim {A} ts.

Section TensorInd.
Context {A : Type} (P : tensor A -> Prop).
Hypothesis P_Scalar : forall a, P (Scalar a).
Hypothesis P_Dim : forall ts, Forall P ts -> P (Dim ts).

(** Induction on a tensor, with the property for all entries of a
  dimension. *)
Fixpoint tensor_ind (t : tensor A) : P t :=
match t with
| Scalar a => P_Scalar a
| Dim ts =>
    P_Dim ts
      ((fix all (l : list (tensor A)) : Forall P l :=
          match l with
          | [] => List.Forall_nil P
          | x :: l' => List.Forall_cons P x l' (tensor_ind x) (all l')
          end) ts)
end.
End TensorInd.

(** [t.shape == s]. *)
Fixpoint has_shape {A} (t : tensor A) (s : list nat) {struct t} : Prop :=
  match t, s with
  | Scalar _, [] => True
  | Dim ts, n :: s' =>
      length ts = n /\
      (fix all (l : list (tensor A)) : Prop :=
         match l with
         | [] => True
         | x :: l' => has_shape x s' /\ all l'
         end) ts
  | _, _ => False
  end.

(** The rank ([t.dim()]), read along the first entries. *)
Fixpoint rank {A} (t : tensor A) : nat :=
  match t with
  | Scalar _ => 0
  | Dim [] => 1
  | Dim (x :: _) => S (rank x)
  end.

(** An elementwise operation of one argument. *)
Fixpoint tmap {A B} (f : A -> B) (t : tensor A) : tensor B :=
  match t with
  | Scalar a => Scalar (f a)
  | Dim ts => Dim (map (tmap f) ts)
  end.

(** The tensor of the same shape with [v] everywhere. *)
Definition tfill {A} (v : A) (t : tensor A) : tensor A := tmap (fun _ => v) t.

(** The entries in row-major order ([t.flatten()]). *)
Fixpoint flatten {A} (t : tensor A) : list A :=
  match t with
  | Scalar a => [a]
  | Dim ts => flat_map flatten ts
  end.

(** [t.unsqueeze(0)]. *)
Definition unsqueeze0 {A} (t : tensor A) : tensor A := Dim [t].

(** The sub-tensor at an index path, [t[i0][i1]...]; [None] outside. *)
Fixpoint tget {A} (t : tensor A) (p : list nat) : option (tensor A) :=
  match p with
  | [] => Some t
  | i :: p' =>
      match t with
      | Scalar _ => None
      | Dim ts =>
          match ts !! i with
          | Some t' => tget t' p'
          | None => None
          end
      end
  end.

(** The element at a full index path. *)
Definition cell {A} (t : tensor A) (p : list nat) : option A :=
  match tget t p with
  | Some (Scalar a) => Some a
  | _ => None
  end.

(** [t[i]] with a non-negative integer. *)
Definition getitem {A} (t : tensor A) (i : nat) : result (tensor A) :=
  match t with
  | Scalar _ => inl (IndexError "invalid index of a 0-dim tensor")
  | Dim ts =>
      match ts !! i with
      | Some t' => inr t'
      | None => inl (IndexError "index out of range")
      end
  end.

(** [t.squeeze()]: every dimension of size one is dropped. *)
Fixpoint squeeze {A} (t : tensor A) : tensor A :=
  match t with
  | Scalar a => Scalar a
  | Dim [x] => squeeze x
  | Dim ts => Dim (map squeeze ts)
  end.

(** [a[lo:hi]] on a Python sequence: out-of-range bounds are clipped. *)
Definition py_slice {A} (lo hi : nat) (l : list A) : list A :=
  take (hi - lo) (drop lo l).

Section MapM.
Context {A B : Type}.
Variable f : A -> result B.

(** [f] on every entry, left to right, up to the first one that raises. *)
Fixpoint mapM (l : list A) : result (list B) :=
match l with
| [] => inr []
| x :: l' =>
    rbind (f x) (fun y => rbind (mapM l') (fun l'' => inr (y :: l'')))
end.
End MapM.

Section ZipM.
Context {A B C : Type}.
Variable f : A -> B -> result C.
Variable mismatch : exn.

(** [f] on the entries of two sequences pairwise; sequences of different
  lengths raise [mismatch]. *)
Fixpoint zipM (l1 : list A) (l2 : list B) : result (list C) :=
match l1, l2 with
| [], [] => inr []
| x :: l1', y :: l2' =>
    rbind (f x y) (fun z => rbind (zipM l1' l2') (fun l => inr (z :: l)))
| _, _ => inl mismatch
end.
End ZipM.

(** One position of a basic index [t[k0, k1, ...]]: [:] or [lo:hi]. *)
Inductive index_item :=
| all_
| slice_ (lo hi : nat).

(** The number of dimensions as far as the entries show it.  A dimension of
    size zero is written [Dim []] whatever sizes come after it, so below it
    the number of dimensions is not known. *)
Fixpoint known_rank {A} (t : tensor A) : option nat :=
  match t with
  | Scalar _ => Some 0
  | Dim [] => None
  | Dim (x :: _) => option_map S (known_rank x)
  end.

(** More index positions than the tensor has dimensions.  torch looks at
    the number of dimensions before it looks at any entry. *)
Definition too_many_indices {A} (t : tensor A) (ks : list index_item) : bool :=
  match known_rank t with
  | Some d => d <? length ks
  | None => false
  end.

(** The entries that the index positions select, dimension by dimension. *)
Fixpoint slice_entries {A} (t : tensor A) (ks : list index_item) : result (tensor A) :=
  match ks with
  | [] => inr t
  | k :: ks' =>
      match t with
      | Scalar _ => inl (IndexError "too many indices for tensor")
      | Dim ts =>
          let sel := match k with
                     | all_ => ts
                     | slice_ lo hi => py_slice lo hi ts
                     end in
          rbind (mapM (fun x => slice_entries x ks') sel) (fun l => inr (Dim l))
      end
  end.

(** Basic indexing with slices, [t[:, lo:hi, ...]]; more index positions
    than dimensions is an IndexError, also when the slices select no
    entry.  On a tensor with a dimension of size zero the sizes after it
    are not recorded: there the index is taken to fit. *)
Definition getslice {A} (t : tensor A) (ks : list index_item) : result (tensor A) :=
  if too_many_indices t ks then inl (IndexError "too many indices for tensor")
  else slice_entries t ks.

(** [n] new leading dimensions of size one. *)
Fixpoint unsqueeze_n {A} (n : nat) (t : tensor A) : tensor A :=
  match n with
  | 0 => t
  | S n' => Dim [unsqueeze_n n' t]
  end.

Definition size_mismatch : exn :=
  RuntimeError "The size of tensor a must match the size of tensor b".

(** An elementwise operation of two tensors of one rank: sizes agree, or
    the side of size one is repeated (broadcasting). *)
Fixpoint broadcast_zip {A B C} (f : A -> B -> C) (t1 : tensor A) (t2 : tensor B)
    {struct t1} : result (tensor C) :=
  match t1, t2 with
  | Scalar a, Scalar b => inr (Scalar (f a b))
  | Dim [x], Dim ys =>
      rbind (mapM (fun y => broadcast_zip f x y) ys) (fun l => inr (Dim l))
  | Dim xs, Dim [y] =>
      rbind (mapM (fun x => broadcast_zip f x y) xs) (fun l => inr (Dim l))
  | Dim xs, Dim ys =>
      rbind (zipM (fun x y => broadcast_zip f x y) size_mismatch xs ys)
            (fun l => inr (Dim l))
  | _, _ => inl size_mismatch
  end.

(** An elementwise operation of two tensors: the one of lower rank gets
    leading dimensions of size one first. *)
Definition elementwise {A B C} (f : A -> B -> C) (t1 : tensor A) (t2 : tensor B)
    : result (tensor C) :=
  broadcast_zip f (unsqueeze_n (rank t2 - rank t1) t1)
                  (unsqueeze_n (rank t1 - rank t2) t2).

(** [a - b] on float32 tensors. *)
Definition tsub (a b : tensor float32) : result (tensor float32) :=
  elementwise f32_sub a b.

Definition mask_mismatch : exn :=
  IndexError "The shape of the mask does not match the shape of the indexed tensor".

(** [t[m] = v] with a boolean tensor [m] and a 0-dim value [v], in place:
    the shape of [m] must be the leading part of the shape of [t]; the
    entries (or whole blocks) of [t] where [m] is true become [v]. *)
Fixpoint setitem_mask {A} (t : tensor A) (m : tensor bool) (v : A)
    {struct t} : result (tensor A) :=
  match m with
  | Scalar b => inr (if b then tfill v t else t)
  | Dim ms =>
      match t with
      | Scalar _ => inl (IndexError "too many indices for tensor")
      | Dim ts =>
          rbind (zipM (fun x b => setitem_mask x b v) mask_mismatch ts ms)
                (fun l => inr (Dim l))
      end
  end.

(** The entries (or blocks) of [t] where [m] is true, in row-major order. *)
Fixpoint select_mask {A} (t : tensor A) (m : tensor bool)
    {struct t} : result (list (tensor A)) :=
  match m with
  | Scalar b => inr (if b then [t] else [])
  | Dim ms =>
      match t with
      | Scalar _ => inl (IndexError "too many indices for tensor")
      | Dim ts =>
          rbind (zipM (fun x b => select_mask x b) mask_mismatch ts ms)
                (fun ls => inr (concat ls))
      end
  end.

(** [t[m]] with a boolean tensor [m]. *)
Definition getitem_mask {A} (t : tensor A) (m : tensor bool) : result (tensor A) :=
  rbind (select_mask t m) (fun l => inr (Dim l)).

Definition expand_mismatch : exn :=
  RuntimeError "The expanded size of the tensor must match the existing size".

(** [m.expand(shape of y)] for tensors of one rank. *)
Fixpoint expand_to {A B} (m : tensor A) (y : tensor B) {struct m} : result (tensor A) :=
  match m, y with
  | Scalar a, Scalar _ => inr (Scalar a)
  | Dim [x], Dim ys =>
      rbind (mapM (fun y' => expand_to x y') ys) (fun l => inr (Dim l))
  | Dim xs, Dim ys =>
      rbind (zipM (fun x y' => expand_to x y') expand_mismatch xs ys)
            (fun l => inr (Dim l))
  | _, _ => inl expand_mismatch
  end.

(** [d] leading dimensions of [y] are new for [m]. *)
Fixpoint expand_lead {A B} (d : nat) (m : tensor A) (y : tensor B) {struct d}
    : result (tensor A) :=
  match d with
  | 0 => expand_to m y
  | S d' =>
      match y with
      | Scalar _ => inl expand_mismatch
      | Dim ys => rbind (mapM (expand_lead d' m) ys) (fun l => inr (Dim l))
      end
  end.

(** [m.expand_as(y)]. *)
Definition expand_as {A B} (m : tensor A) (y : tensor B) : result (tensor A) :=
  if rank m <=? rank y then expand_lead (rank y - rank m) m y
  else inl expand_mismatch.

(** [t.abs()], [t < 9.4], [t.float()], [t * 100]. *)
Definition tabs (t : tensor float32) : tensor float32 := tmap f32_abs t.
Definition tlt_9_4 (t : tensor float32) : tensor bool :=
  tmap (fun v => f32_lt v threshold) t.
Definition tfloat (t : tensor bool) : tensor float32 := tmap float_of_bool t.
Definition tmul_100 (t : tensor float32) : tensor float32 :=
  tmap (fun v => f32_mul v (f32_of_Z 100)) t.

(** [t.mean()]: the sum of all entries over their number, a 0-dim tensor.
    The order in which torch adds the entries is a matter of its kernels:
    the sum is the parameter [sum]. *)
Definition tmean (sum : list float32 -> float32) (t : tensor float32) : tensor float32 :=
  Scalar (f32_div (sum (flatten t)) (f32_of_Z (Z.of_nat (length (flatten t))))).

(** The entries added from left to right. *)
Definition sum_left (l : list float32) : float32 :=
  fold_left f32_add l (S754_zero false).

(** [torch.isnan(y)]. *)
Definition tisnan (y : tensor float32) : tensor bool := tmap isnan y.

(** The masking statement of the inference cells,
    [y_hat[torch.isnan(y)] = torch.tensor(float('nan'))]. *)
Definition mask_prediction (y_hat y : tensor float32) : result (tensor float32) :=
  setitem_mask y_hat (tisnan y) nan.

(** The part of the accuracy expression before the mask is read,
    [((y-y_hat).squeeze()[i].abs()<9.4)]  (4-in/10-out notebook). *)
Definition close_day (y y_hat : tensor float32) (i : nat) : result (tensor bool) :=
  rbind (tsub y y_hat) (fun d =>
  rbind (getitem (squeeze d) i) (fun g =>
  inr (tlt_9_4 (tabs g)))).

(** The same for the error figure, [(y-y_hat).squeeze()[i].abs()]. *)
Definition error_day (y y_hat : tensor float32) (i : nat) : result (tensor float32) :=
  rbind (tsub y y_hat) (fun d =>
  rbind (getitem (squeeze d) i) (fun g =>
  inr (tabs g))).

(** The part of the accuracy expression before the mask is read,
    [((y-y_hat).abs()<9.4)]  (2-in/1-out notebook). *)
Definition close_all (y y_hat : tensor float32) : result (tensor bool) :=
  rbind (tsub y y_hat) (fun d => inr (tlt_9_4 (tabs d))).

Definition error_all (y y_hat : tensor float32) : result (tensor float32) :=
  rbind (tsub y y_hat) (fun d => inr (tabs d)).

(** [(...)[mask].float().mean()*100]. *)
Definition percent_selected (sum : list float32 -> float32)
    (close : tensor bool) (mask : tensor bool) : result (tensor float32) :=
  rbind (getitem_mask close mask) (fun sel =>
  inr (tmul_100 (tmean sum (tfloat sel)))).

(** [(...)[mask].float().mean()] of the error figures ([.float()] leaves a
    float32 tensor as it is). *)
Definition mean_selected (sum : list float32 -> float32)
    (err : tensor float32) (mask : tensor bool) : result (tensor float32) :=
  rbind (getitem_mask err mask) (fun sel => inr (tmean sum sel)).

(** The accuracy figure of day [i] in the 4-in/10-out notebook. *)
Definition accuracy_day (sum : list float32 -> float32)
    (y y_hat : tensor float32) (mask : tensor bool) (i : nat) : result (tensor float32) :=
  rbind (close_day y y_hat i) (fun close => percent_selected sum close mask).

(** The accuracy figure of the 2-in/1-out notebook. *)
Definition accuracy_all (sum : list float32 -> float32)
    (y y_hat : tensor float32) (mask : tensor bool) : result (tensor float32) :=
  rbind (close_all y y_hat) (fun close =>
  rbind (expand_as mask y) (fun m => percent_selected sum close m)).

(** *** The accuracy in the words of the specification *)

(** The indicator that ground truth and prediction differ by less than the
    threshold in absolute value. *)
Definition within_threshold (truth pred : float32) : bool :=
  f32_lt (f32_abs (f32_sub truth pred)) threshold.

(** The positions (row, column) of a grid of [h] rows and [w] columns, in
    row-major order. *)
Definition positions (h w : nat) : list (nat * nat) :=
  flat_map (fun r => map (fun c => (r, c)) (seq 0 w)) (seq 0 h).

(** The positions the mask selects. *)
Definition selected (mask : tensor bool) (h w : nat) : list (nat * nat) :=
  filter (fun rc => cell mask [fst rc; snd rc] = Some true) (positions h w).

(** The indicator at one position of day [i]. *)
Definition indicator_at (y y_hat : tensor float32) (i : nat) (rc : nat * nat) : float32 :=
  match cell y [0; i; fst rc; snd rc], cell y_hat [0; i; fst rc; snd rc] with
  | Some a, Some b => float_of_bool (within_threshold a b)
  | _, _ => nan
  end.

(** 100 times the mean of the indicator over the selected positions. *)
Definition accuracy_spec (sum : list float32 -> float32)
    (y y_hat : tensor float32) (mask : tensor bool) (h w i : nat) : float32 :=
  let ind := map (indicator_at y y_hat i) (selected mask h w) in
  f32_mul (f32_div (sum ind) (f32_of_Z (Z.of_nat (length ind)))) (f32_of_Z 100).

(** ** The case-study region *)

(** [y[0][:, 355:480, 400:550]]  (4-in/10-out notebook). *)
Definition case_region_days (t : tensor float32) : result (tensor float32) :=
  rbind (getitem t 0) (fun t0 =>
  getslice t0 [all_; slice_ 355 480; slice_ 400 550]).

(** [y[0][0][355:480, 400:550]]  (2-in/1-out notebook). *)
Definition case_region_single (t : tensor float32) : result (tensor float32) :=
  rbind (getitem t 0) (fun t0 =>
  rbind (getitem t0 0) (fun t00 =>
  getslice t00 [slice_ 355 480; slice_ 400 550])).

(** [model.data.mask[355:480, 400:550]]. *)
Definition case_region_mask (m : tensor bool) : result (tensor bool) :=
  getslice m [slice_ 355 480; slice_ 400 550].

(** ** Python values, f-strings *)

Inductive pyval :=
| py_None
| py_bool (b : bool)
| py_int (z : Z)
| py_float (f : spec_float)
| py_str (s : string).

(** The newline character of ['\n']. *)
Definition nl : string := String (ascii_of_nat 10) "".

(** The format spec [:02] on a non-negative integer: decimal digits, padded
    with zeros on the left to a width of two. *)
Definition fmt_02 (x : nat) : string :=
  let s := NilZero.string_of_uint (Nat.to_uint x) in
  if String.length s <? 2 then "0" +:+ s else s.

(** [range(lo, hi)]. *)
Definition range (lo hi : nat) : list nat := seq lo (hi - lo).

(** A piece of a formatted string: literal text, or a float printed with a
    fixed number of decimals ([:.2f], [:.3f]). *)
Inductive piece :=
| lit (s : string)
| fixed (digits : nat) (v : float32).

Definition fstring : Type := list piece.

(** [format(t, '.<digits>f')]: only a 0-dim tensor can be formatted so. *)
Definition format_fixed (digits : nat) (t : tensor float32) : result piece :=
  match t with
  | Scalar v => inr (fixed digits v)
  | Dim _ => inl (TypeError "unsupported format string passed to Tensor.__format__")
  end.

(** ** Test-set files *)

(** [test_out_files] of the 4-in/10-out notebook. *)
Definition test_out_files_4_10 : list string :=
  map (fun x => "/nvme0/fwi-reanalysis/ECMWF_FWI_201904" +:+ fmt_02 x +:+ "_1200_hr_fwi_e5.nc")
      (range 1 14).

(** [test_out_files] of the 2-in/1-out notebook. *)
Definition test_out_files_2_1 : list string :=
  map (fun x => "./deepfwi-mini-sample/fwi-reanalysis/ECMWF_FWI_201912" +:+ fmt_02 x
                +:+ "_1200_hr_fwi_e5.nc")
      (range 1 3).

(** *** File names in the words of the specification *)

Record date := Date { year : nat; month : nat; day : nat }.

Definition is_leap (y : nat) : bool :=
  ((y mod 4 =? 0) && negb (y mod 100 =? 0)) || (y mod 400 =? 0).

Definition days_in_month (y m : nat) : nat :=
  match m with
  | 2 => if is_leap y then 29 else 28
  | 4 | 6 | 9 | 11 => 30
  | _ => 31
  end.

(** The calendar day after [d]. *)
Definition next_day (d : date) : date :=
  if day d <? days_in_month (year d) (month d) then Date (year d) (month d) (S (day d))
  else if month d <? 12 then Date (year d) (S (month d)) 1
  else Date (S (year d)) 1 1.

(** [n] consecutive calendar days from [d] on. *)
Fixpoint consecutive_days (n : nat) (d : date) : list date :=
  match n with
  | 0 => []
  | S n' => d :: consecutive_days n' (next_day d)
  end.

(** A year of four digits. *)
Definition fmt_04 (x : nat) : string :=
  let s := NilZero.string_of_uint (Nat.to_uint x) in
  String.concat "" (repeat "0" (4 - String.length s)) +:+ s.

(** YYYYMMDD. *)
Definition yyyymmdd (d : date) : string :=
  fmt_04 (year d) +:+ fmt_02 (month d) +:+ fmt_02 (day d).

(** The name of the FWI reanalysis file of one day. *)
Definition fwi_file_name (d : date) : string :=
  "ECMWF_FWI_" +:+ yyyymmdd d +:+ "_1200_hr_fwi_e5.nc".

(** The part of a path after its last slash. *)
Fixpoint basename (p : string) : string :=
  match p with
  | EmptyString => EmptyString
  | String c p' =>
      if existsb (Ascii.eqb "/"%char) (list_ascii_of_string p') then basename p'
      else if Ascii.eqb c "/"%char then p' else p
  end.

(** [p.endswith(s)]. *)
Definition ends_with (s p : string) : bool :=
  String.eqb (substring (String.length p - String.length s) (String.length s) p) s
  && (String.length s <=? String.length p).

(** ** The hyper-parameter call *)

(** The keyword arguments of the [get_hparams] call, 4-in/10-out notebook. *)
Definition hparams_kwargs_4_10 (test_set_path : string) : list (string * pyval) :=
  [ ("init_features", py_int 16);
    ("in_days", py_int 4);
    ("out_days", py_int 10);
    ("loss", py_str "mse");
    ("batch_size", py_int 1);
    ("gpus", py_int 1);
    ("case_study", py_bool false);
    ("clip_fwi", py_bool false);
    ("test_set", py_str test_set_path);
    ("model", py_str "unet_tapered");
    ("out", py_str "fwi_reanalysis");
    ("forcings_dir", py_str "/nvme1/fwi-forcings");
    ("reanalysis_dir", py_str "/nvme0/fwi-reanalysis");
    ("mask", py_str "dataloader/mask.npy");
    ("checkpoint_file",
       py_str "/w/deepfwi/src/model/checkpoints/pre_trained/5/4_10/epoch_75_82.ckpt") ].

(** The keyword arguments of the [get_hparams] call, 2-in/1-out notebook. *)
Definition hparams_kwargs_2_1 (test_set_path : string) : list (string * pyval) :=
  [ ("init_features", py_int 16);
    ("in_days", py_int 2);
    ("out_days", py_int 1);
    ("loss", py_str "mse");
    ("batch_size", py_int 1);
    ("gpus", py_int 1);
    ("case_study", py_bool false);
    ("clip_fwi", py_bool false);
    ("test_set", py_str test_set_path);
    ("model", py_str "unet_tapered");
    ("out", py_str "fwi_reanalysis");
    ("forcings_dir", py_str "./deepfwi-mini-sample/fwi-forcings");
    ("reanalysis_dir", py_str "./deepfwi-mini-sample/fwi-reanalysis");
    ("mask", py_bool false);
    ("checkpoint_file",
       py_str "../src/model/checkpoints/pre_trained/2_1/epoch_41_100.ckpt") ].

(** The names of the keyword arguments of a call. *)
Definition kwarg_names (kw : list (string * pyval)) : list string := map fst kw.

(** The options of the hyper-parameter builder as the specification lists
    them: feature width, input and output day counts, loss name, batch
    size, GPU count, case-study flag, mask path, checkpoint path, Box-Cox
    lambda. *)
Definition spec_options : list string :=
  [ "init_features"; "in_days"; "out_days"; "loss"; "batch_size"; "gpus";
    "case_study"; "mask"; "checkpoint_file"; "boxcox" ].

(** [hparams.<name> = v] on a Namespace. *)
Definition setattr (hp : gmap string pyval) (name : string) (v : pyval)
    : gmap string pyval :=
  <[name := v]> hp.

(** The cell that turns on the Box-Cox inference, 4-in/10-out notebook:
    [hparams.boxcox = 0.1182] and the new [hparams.checkpoint_file]. *)
Definition set_boxcox_4_10 (hparams : gmap string pyval) : gmap string pyval :=
  setattr (setattr hparams "boxcox" (py_float lit_0_1182))
          "checkpoint_file"
          (py_str "/w/deepfwi/src/model/checkpoints/pre_trained/7/4_10/epoch_99_100.ckpt").

(** The same cell of the 2-in/1-out notebook. *)
Definition set_boxcox_2_1 (hparams : gmap string pyval) : gmap string pyval :=
  setattr (setattr hparams "boxcox" (py_float lit_0_1182))
          "checkpoint_file"
          (py_str "../src/model/checkpoints/pre_trained/7/2_1/epoch_41_100.ckpt").

(** ** The outside world

    The notebooks are glue around code that is not theirs: train.py
    ([get_hparams], [get_model]), torch, scipy, pytorch-lightning,
    matplotlib, IPython and the operating system.  Every call to them is an
    event; what they answer is given by a [World]. *)

(** An object that lives outside (a model, a state dict, a trainer), known
    by its identity. *)
Definition obj : Type := nat.

(** What a call can return. *)
Inductive value :=
| val_None
| val_py (v : pyval)
| val_dict (d : gmap string pyval)
| val_obj (o : obj)
| val_checkpoint (d : gmap string obj)
| val_tensor (t : tensor float32)
| val_mask (t : tensor bool)
| val_sample (x y : tensor float32).

(** The random number generators the notebooks seed. *)
Inductive generator := g_torch | g_cuda | g_numpy | g_random.

(** Calls to Python's import system, IPython, the operating system and
    matplotlib. *)
Inductive os_call :=
| c_magic (line : string)
| c_import (module : string)
| c_chdir (path : string)
| c_logging_disable
| c_filterwarnings (action : string)
| c_print (lines : list string)
| c_NamedTemporaryFile
| c_pickle_dump (files : list string) (file : string)
| c_close (file : string)
| c_figure (width height : pyval)
| c_suptitle (title : fstring)
| c_add_subplot (rows cols : pyval) (index : nat)
| c_set_title (label : string)
| c_set_ylabel (label : string)
| c_imshow (im : tensor float32) (cmap : string)
| c_show
| c_subplots
| c_make_axes_locatable
| c_append_axes
| c_colorbar.

(** Calls to train.py, torch, scipy and pytorch-lightning. *)
Inductive ml_call :=
| c_get_hparams (kwargs : list (string * pyval))
| c_get_model (hparams : gmap string pyval)
| c_torch_load (path : pyval)
| c_load_state_dict (model state_dict : obj)
| c_eval (model : obj)
| c_data_getitem (model : obj) (index : nat)
| c_data_mask (model : obj)
| c_model_hparams (model : obj)
| c_forward (model : obj) (x : tensor float32)
| c_inv_boxcox (y : tensor float32) (lmbda : pyval)
| c_Trainer (gpus : pyval)
| c_trainer_test (trainer model : obj).

(** What happened, in order. *)
Inductive event :=
| ev_os (c : os_call) (r : result value)
| ev_shell (cmd : string) (status : Z)
| ev_ml (c : ml_call) (r : result value)
| ev_seed (g : generator) (seed : Z)
| ev_cuda_is_available (b : bool)
| ev_op (e : exn).

(** [SEED = 2334]. *)
Definition SEED : Z := 2334.

Section Notebooks.
Variables Sys Rng : Type.

(** The states of the four generators.  The CUDA generator exists only on
    a machine with CUDA. *)
Record rngs := Rngs {
  rng_torch : Rng;
  rng_cuda : option Rng;
  rng_numpy : Rng;
  rng_random : Rng }.

(** The state outside the notebook's own variables: the generators, the
    rest of the system (files, devices, figures, objects), and the events
    so far. *)
Record state := State {
  gens : rngs;
  sys : Sys;
  log : list event }.

(** The answers of the outside.  Calls to the operating system and to
    matplotlib do not see the generators; a shell escape ([!cmd]) yields
    an exit status and never raises; a freshly seeded generator has a
    state that depends on the seed only; [w_sum] is the order in which
    torch adds up the entries of a tensor. *)
Record World := {
  w_os : os_call -> Sys -> Sys * result value;
  w_shell : string -> Sys -> Sys * Z;
  w_ml : ml_call -> rngs -> Sys -> rngs * Sys * result value;
  w_seed : generator -> Z -> Rng;
  w_sum : list float32 -> float32 }.

Variable w : World.

(** A piece of notebook code: it changes the state and returns or raises.
    When it raises, the state is the one reached so far. *)
Definition M (A : Type) : Type := state -> state * result A.

Definition ret {A} (a : A) : M A := fun st => (st, inr a).

Definition bind {A B} (m : M A) (f : A -> M B) : M B :=
  fun st =>
    match m st with
    | (st', inl e) => (st', inl e)
    | (st', inr a) => f a st'
    end.

#[local] Notation "'let*' x ':=' m 'in' k" := (bind m (fun x => k))
  (at level 10, x name, m at level 100, k at level 200).
#[local] Notation "'let*' ' p ':=' m 'in' k" := (bind m (fun x => let 'p := x in k))
  (at level 10, p pattern, m at level 100, k at level 200).
#[local] Notation "'run' m 'in' k" := (bind m (fun _ => k))
  (at level 10, m at level 100, k at level 200).

Definition emit (ev : event) (st : state) : state :=
  State (gens st) (sys st) (log st ++ [ev]).

(** An operation of Python or torch on the notebook's own values raises. *)
Definition raise {A} (e : exn) : M A := fun st => (emit (ev_op e) st, inl e).

Definition lift {A} (r : result A) : M A :=
  match r with
  | inl e => raise e
  | inr a => ret a
  end.

Definition os (c : os_call) : M value :=
  fun st =>
    let '(s', r) := w_os w c (sys st) in
    (State (gens st) s' (log st ++ [ev_os c r]), r).

(** [!cmd]: the exit status is not looked at. *)
Definition shell (cmd : string) : M unit :=
  fun st =>
    let '(s', status) := w_shell w cmd (sys st) in
    (State (gens st) s' (log st ++ [ev_shell cmd status]), inr tt).

Definition ml (c : ml_call) : M value :=
  fun st =>
    let '(g', s', r) := w_ml w c (gens st) (sys st) in
    (State g' s' (log st ++ [ev_ml c r]), r).

Definition set_rng (g : generator) (r : Rng) (gs : rngs) : rngs :=
  match g with
  | g_torch => Rngs r (rng_cuda gs) (rng_numpy gs) (rng_random gs)
  | g_cuda =>
      Rngs (rng_torch gs)
           (match rng_cuda gs with Some _ => Some r | None => None end)
           (rng_numpy gs) (rng_random gs)
  | g_numpy => Rngs (rng_torch gs) (rng_cuda gs) r (rng_random gs)
  | g_random => Rngs (rng_torch gs) (rng_cuda gs) (rng_numpy gs) r
  end.

(** [torch.manual_seed], [torch.cuda.manual_seed_all], [np.random.seed],
    [random.seed]. *)
Definition manual_seed (g : generator) (seed : Z) : M unit :=
  fun st =>
    (State (set_rng g (w_seed w g seed) (gens st)) (sys st)
           (log st ++ [ev_seed g seed]),
     inr tt).

(** [torch.cuda.is_available()]. *)
Definition cuda_is_available : M bool :=
  fun st =>
    let b := match rng_cuda (gens st) with Some _ => true | None => false end in
    (emit (ev_cuda_is_available b) st, inr b).

(** [for x in l: body]. *)
Fixpoint for_ {X} (l : list X) (body : X -> M unit) : M unit :=
  match l with
  | [] => ret tt
  | x :: l' => run body x in for_ l' body
  end.

(** [with f: body], for a file [f]: the file is closed when the body
    returns and when it raises; the file's [__exit__] returns [None], so
    an exception of the body goes on, unless closing raises itself. *)
Definition with_file {A} (file : string) (body : M A) : M A :=
  fun st =>
    match body st with
    | (st1, r) =>
        match os (c_close file) st1 with
        | (st2, inl e) => (st2, inl e)
        | (st2, inr _) => (st2, r)
        end
    end.

(** *** Values at run time *)

Definition as_str (v : value) : M string :=
  match v with
  | val_py (py_str s) => ret s
  | _ => raise (TypeError "expected str")
  end.

Definition as_dict (v : value) : M (gmap string pyval) :=
  match v with
  | val_dict d => ret d
  | _ => raise (TypeError "argument after ** must be a mapping")
  end.

Definition as_obj (v : value) : M obj :=
  match v with
  | val_obj o => ret o
  | _ => raise (AttributeError "object has no such attribute")
  end.

Definition as_tensor (v : value) : M (tensor float32) :=
  match v with
  | val_tensor t => ret t
  | _ => raise (TypeError "expected a float tensor")
  end.

Definition as_mask (v : value) : M (tensor bool) :=
  match v with
  | val_mask t => ret t
  | _ => raise (TypeError "expected a bool tensor")
  end.

Definition as_sample (v : value) : M (tensor float32 * tensor float32) :=
  match v with
  | val_sample x y => ret (x, y)
  | _ => raise (TypeError "object is not subscriptable")
  end.

(** [ns.<name>] on a Namespace. *)
Definition getattr (ns : gmap string pyval) (name : string) : M pyval :=
  match ns !! name with
  | Some v => ret v
  | None => raise (AttributeError name)
  end.

(** [ckpt[key]] on what [torch.load] returned. *)
Definition getitem_checkpoint (v : value) (key : string) : M obj :=
  match v with
  | val_checkpoint d =>
      match d !! key with
      | Some o => ret o
      | None => raise (KeyError key)
      end
  | _ => raise (TypeError "object is not subscriptable")
  end.

(** [range(n)] for a value [n]: an int (a bool is one), else TypeError. *)
Definition py_range (n : pyval) : M (list nat) :=
  match n with
  | py_int z => ret (seq 0 (Z.to_nat z))
  | py_bool b => ret (seq 0 (if b then 1 else 0))
  | _ => raise (TypeError "object cannot be interpreted as an integer")
  end.

(** [n*4] for a value [n]. *)
Definition py_mul_4 (n : pyval) : M pyval :=
  match n with
  | py_int z => ret (py_int (z * 4))
  | py_bool b => ret (py_int (if b then 4 else 0))
  | py_float f => ret (py_float (SFmul 53 1024 f (binary_normalize 53 1024 4 0 false)))
  | py_str s => ret (py_str (s +:+ s +:+ s +:+ s))
  | py_None => raise (TypeError "unsupported operand type(s) for *")
  end.

(** *** Cells shared by the two notebooks *)

Definition import_ (module : string) : M unit :=
  run os (c_import module) in ret tt.

(** [import os], [os.chdir('../src')],
    [from train import str2num, get_hparams, get_model]. *)
Definition enter_src : M unit :=
  run os (c_import "os") in
  run os (c_chdir "../src") in
  run os (c_import "train") in
  ret tt.

(** The cell of imports, with [logging.disable(sys.maxsize)] and
    [warnings.filterwarnings('ignore')]. *)
Definition imports : M unit :=
  run for_ ["random"; "glob"; "argparse"; "pickle"; "tempfile"; "logging"; "sys"]
           import_ in
  run os c_logging_disable in
  run os (c_import "warnings") in
  run os (c_filterwarnings "ignore") in
  for_ ["matplotlib"; "mpl_toolkits.axes_grid1"; "numpy"; "torch"; "scipy.special";
        "pytorch_lightning"; "pytorch_lightning"]
       import_.

(** The cell "Ensuring reproducibility". *)
Definition seeding : M unit :=
  run manual_seed g_torch SEED in
  let* available := cuda_is_available in
  run (if available : bool then manual_seed g_cuda SEED else ret tt) in
  run manual_seed g_numpy SEED in
  manual_seed g_random SEED.

(** The cell that prints the first files and pickles the list into a
    temporary file; [test_set_path] is the name of that file. *)
Definition pickle_test_set (test_out_files : list string) : M string :=
  run os (c_print ("First few files..." :: take 3 test_out_files)) in
  let* v := os c_NamedTemporaryFile in
  let* tmp := as_str v in
  with_file tmp
    (run os (c_pickle_dump test_out_files tmp) in
     ret tmp).

(** [hparams_dict = get_hparams(...)], the Namespace made of that dict,
    and [hparams.eval = True]. *)
Definition knobs (kwargs : list (string * pyval)) : M (gmap string pyval) :=
  let* v := ml (c_get_hparams kwargs) in
  let* hparams_dict := as_dict v in
  ret (setattr hparams_dict "eval" (py_bool true)).

(** The cell "Preparing the model". *)
Definition prepare_model (hparams : gmap string pyval) : M obj :=
  let* v := ml (c_get_model hparams) in
  let* model := as_obj v in
  let* file := getattr hparams "checkpoint_file" in
  let* ckpt := ml (c_torch_load file) in
  let* state_dict := getitem_checkpoint ckpt "state_dict" in
  run ml (c_load_state_dict model state_dict) in
  run ml (c_eval model) in
  ret model.

(** [model.data[0]]. *)
Definition first_sample (model : obj) : M (tensor float32 * tensor float32) :=
  let* v := ml (c_data_getitem model 0) in
  as_sample v.

(** [model.data.mask]. *)
Definition data_mask (model : obj) : M (tensor bool) :=
  let* v := ml (c_data_mask model) in
  as_mask v.

(** The cell "Manual inference": input, ground truth, prediction, and the
    masking of the prediction. *)
Definition manual_inference (model : obj)
    : M (tensor float32 * tensor float32 * tensor float32) :=
  let* s := first_sample model in
  let x := unsqueeze0 (fst s) in
  let* s := first_sample model in
  let y := unsqueeze0 (snd s) in
  let* v := ml (c_forward model x) in
  let* y_hat := as_tensor v in
  let* y_hat := lift (mask_prediction y_hat y) in
  ret (x, y, y_hat).

(** The inference cell of the Box-Cox part: the forward pass,
    [inv_boxcox(y_hat.cpu().numpy(), model.hparams.boxcox)], then the
    masking. *)
Definition boxcox_inference (model : obj)
    : M (tensor float32 * tensor float32 * tensor float32) :=
  let* s := first_sample model in
  let x := unsqueeze0 (fst s) in
  let* s := first_sample model in
  let y := unsqueeze0 (snd s) in
  let* v := ml (c_forward model x) in
  let* y_hat := as_tensor v in
  let* h := ml (c_model_hparams model) in
  let* model_hparams := as_dict h in
  let* lmbda := getattr model_hparams "boxcox" in
  let* v := ml (c_inv_boxcox y_hat lmbda) in
  let* y_hat := as_tensor v in
  let* y_hat := lift (mask_prediction y_hat y) in
  ret (x, y, y_hat).

(** The cell "Input variables". *)
Definition plot_inputs (hparams : gmap string pyval) (x : tensor float32)
    (title : string) : M unit :=
  let* in_days := getattr hparams "in_days" in
  let* height := py_mul_4 in_days in
  run os (c_figure (py_int 20) height) in
  run os (c_suptitle [lit title]) in
  let* in_days := getattr hparams "in_days" in
  let* days := py_range in_days in
  run for_ days (fun i =>
    for_ (range 0 4) (fun j =>
      let* rows := getattr hparams "in_days" in
      run os (c_add_subplot rows (py_int 4) (4 * i + j + 1)) in
      run (if i =? 0 then
             run os (c_set_title
                       match j with
                       | 0 => "Relative Humidity"
                       | 1 => "Temperature"
                       | 2 => "Precipitation"
                       | _ => "Wind speed"
                       end) in
             ret tt
           else ret tt) in
      run (if j =? 0 then
             run os (c_set_ylabel ("2019-04-" +:+ fmt_02 (i + 1))) in ret tt
           else ret tt) in
      let* im := lift (getitem (squeeze x) (4 * i + j)) in
      run os (c_imshow im
                match j with
                | 1 => "gist_ncar"
                | 2 => "flag"
                | _ => "hsv"
                end) in
      ret tt)) in
  run os c_show in
  ret tt.

(** [def plot(im, title)]. *)
Definition plot (im : tensor float32) (title : fstring) : M unit :=
  run os c_subplots in
  run os (c_suptitle title) in
  run os c_make_axes_locatable in
  run os c_append_axes in
  run os (c_imshow im "jet") in
  run os c_colorbar in
  ret tt.

(** The cell "Bulk inference". *)
Definition bulk_inference (hparams : gmap string pyval) (model : obj) : M value :=
  let* gpus := getattr hparams "gpus" in
  let* v := ml (c_Trainer gpus) in
  let* trainer := as_obj v in
  ml (c_trainer_test trainer model).

(** *** Cells of the 4-in/10-out notebook *)

(** The download cell. *)
Definition download : M unit :=
  run os (c_chdir "../examples") in
  run shell "gsutil cp -r gs://deepfwi-mini-sample ." in
  run os (c_chdir "../src") in
  ret tt.

(** The loops over [range(hparams.out_days)] that show the ground truth. *)
Definition show_truth_4_10 (hparams : gmap string pyval) (text : string)
    (y : tensor float32) : M unit :=
  let* out_days := getattr hparams "out_days" in
  let* days := py_range out_days in
  for_ days (fun i =>
    let* im := lift (getitem (squeeze y) i) in
    run plot im [lit (text +:+ fmt_02 (4 + i))] in
    run os c_show in
    ret tt).

(** The loops that show the prediction with its accuracy; [mask] is how
    the cell gets its mask ([model.data.mask], or [mask_case]). *)
Definition show_prediction_4_10 (hparams : gmap string pyval) (text : string)
    (mask : M (tensor bool)) (y y_hat : tensor float32) : M unit :=
  let* out_days := getattr hparams "out_days" in
  let* days := py_range out_days in
  for_ days (fun i =>
    let* im := lift (getitem (squeeze y_hat) i) in
    let* close := lift (close_day y y_hat i) in
    let* m := mask in
    let* accuracy := lift (percent_selected (w_sum w) close m) in
    let* figure := lift (format_fixed 2 accuracy) in
    run plot im [lit (text +:+ fmt_02 (4 + i) +:+ nl +:+ "Accuracy:     ");
                 figure; lit "%*"] in
    run os c_show in
    ret tt).

(** The loops that show the prediction error with its MAE. *)
Definition show_error_4_10 (hparams : gmap string pyval) (text : string)
    (mask : M (tensor bool)) (y y_hat : tensor float32) : M unit :=
  let* out_days := getattr hparams "out_days" in
  let* days := py_range out_days in
  for_ days (fun i =>
    let* d := lift (tsub y y_hat) in
    let* im := lift (getitem (squeeze (tabs d)) i) in
    let* err := lift (error_day y y_hat i) in
    let* m := mask in
    let* mae := lift (mean_selected (w_sum w) err m) in
    let* figure := lift (format_fixed 3 mae) in
    plot im [lit (text +:+ fmt_02 (4 + i) +:+ nl +:+ "MAE:     "); figure]).

(** The cell that cuts out the case-study region. *)
Definition case_study (region : tensor float32 -> result (tensor float32))
    (model : obj) (y y_hat : tensor float32)
    : M (tensor float32 * tensor float32 * tensor bool) :=
  let* y_case := lift (region y) in
  let* y_hat_case := lift (region y_hat) in
  let* m := data_mask model in
  let* mask_case := lift (case_region_mask m) in
  ret (y_case, y_hat_case, mask_case).

(** The 4-in/10-out notebook, cell after cell. *)
Definition notebook_4_10 : M value :=
  run enter_src in
  run imports in
  run seeding in
  run download in
  let* test_set_path := pickle_test_set test_out_files_4_10 in
  let* hparams := knobs (hparams_kwargs_4_10 test_set_path) in
  let* model := prepare_model hparams in
  let* '(x, y, y_hat) := manual_inference model in
  run plot_inputs hparams x "Input FWI-variables from 2019-04-01 till 2019-04-04" in
  run show_truth_4_10 hparams "Observed FWI-reanalysis for 2019-04-" y in
  run show_prediction_4_10 hparams "Predicted FWI-reanalysis for 2019-04-"
        (data_mask model) y y_hat in
  run show_error_4_10 hparams "Error in predicted FWI-reanalysis for 2019-04-"
        (data_mask model) y y_hat in
  let* '(y_case, y_hat_case, mask_case) := case_study case_region_days model y y_hat in
  run show_truth_4_10 hparams
        "Observed FWI-reanalysis in the case-study region for 2019-04-" y_case in
  run show_prediction_4_10 hparams
        "Predicted FWI-reanalysis in the case-study region for 2019-04-"
        (ret mask_case) y_case y_hat_case in
  run show_error_4_10 hparams "Error in predicted FWI-reanalysis for 2019-04-"
        (ret mask_case) y_case y_hat_case in
  let hparams := set_boxcox_4_10 hparams in
  let* model := prepare_model hparams in
  let* '(x, y, y_hat) := boxcox_inference model in
  run show_prediction_4_10 hparams "Predicted FWI-reanalysis for 2019-04-"
        (data_mask model) y y_hat in
  run show_error_4_10 hparams "Error in predicted FWI-reanalysis for 2019-04-"
        (data_mask model) y y_hat in
  bulk_inference hparams model.

(** *** Cells of the 2-in/1-out notebook *)

(** [%load_ext autoreload], [%autoreload 2]. *)
Definition autoreload : M unit :=
  run os (c_magic "load_ext autoreload") in
  run os (c_magic "autoreload 2") in
  ret tt.

Definition show_truth_2_1 (text : string) (y : tensor float32) : M unit :=
  plot (squeeze y) [lit text].

Definition show_prediction_2_1 (text : string) (mask : M (tensor bool))
    (y y_hat : tensor float32) : M unit :=
  let* close := lift (close_all y y_hat) in
  let* m := mask in
  let* m := lift (expand_as m y) in
  let* accuracy := lift (percent_selected (w_sum w) close m) in
  let* figure := lift (format_fixed 2 accuracy) in
  plot (squeeze y_hat) [lit (text +:+ nl +:+ "Accuracy: "); figure; lit "%*"].

Definition show_error_2_1 (text : string) (mask : M (tensor bool))
    (y y_hat : tensor float32) : M unit :=
  let* d := lift (tsub y y_hat) in
  let* err := lift (error_all y y_hat) in
  let* m := mask in
  let* m := lift (expand_as m y) in
  let* mae := lift (mean_selected (w_sum w) err m) in
  let* figure := lift (format_fixed 3 mae) in
  plot (squeeze (tabs d)) [lit (text +:+ nl +:+ "MAE: "); figure].

(** The 2-in/1-out notebook, cell after cell (its download cell is a
    markdown cell and does not run). *)
Definition notebook_2_1 : M value :=
  run autoreload in
  run enter_src in
  run imports in
  run seeding in
  let* test_set_path := pickle_test_set test_out_files_2_1 in
  let* hparams := knobs (hparams_kwargs_2_1 test_set_path) in
  let* model := prepare_model hparams in
  let* '(x, y, y_hat) := manual_inference model in
  run plot_inputs hparams x "Input FWI-variables from 2019-12-01 till 2019-12-02" in
  run show_truth_2_1 "Observed FWI-reanalysis" y in
  run show_prediction_2_1 "Predicted FWI-reanalysis" (data_mask model) y y_hat in
  run show_error_2_1 "Error in predicted FWI-reanalysis" (data_mask model) y y_hat in
  let* '(y_case, y_hat_case, mask_case) := case_study case_region_single model y y_hat in
  run show_truth_2_1 "Observed FWI-reanalysis in the case-study region" y_case in
  run show_prediction_2_1 "Predicted FWI-reanalysis in the case-study region"
        (ret mask_case) y_case y_hat_case in
  run show_error_2_1 "Error in predicted FWI-reanalysis" (ret mask_case)
        y_case y_hat_case in
  let hparams := set_boxcox_2_1 hparams in
  let* model := prepare_model hparams in
  let* '(x, y, y_hat) := boxcox_inference model in
  run show_prediction_2_1 "Predicted FWI-reanalysis after Box-Cox transformation"
        (data_mask model) y y_hat in
  run show_error_2_1 "Error in predicted FWI-reanalysis after Box-Cox transformation"
        (data_mask model) y y_hat in
  bulk_inference hparams model.

End Notebooks.

Arguments Rngs {Rng}.
Arguments rng_torch {Rng}.
Arguments rng_cuda {Rng}.
Arguments rng_numpy {Rng}.
Arguments rng_random {Rng}.
Arguments State {Sys Rng}.
Arguments gens {Sys Rng}.
Arguments sys {Sys Rng}.
Arguments log {Sys Rng}.
Arguments w_os {Sys Rng}.
Arguments w_shell {Sys Rng}.
Arguments w_ml {Sys Rng}.
Arguments w_seed {Sys Rng}.
Arguments w_sum {Sys Rng}.
Arguments ret {Sys Rng A}.
Arguments bind {Sys Rng A B}.
Arguments emit {Sys Rng}.
Arguments raise {Sys Rng A}.
Arguments lift {Sys Rng A}.
Arguments os {Sys Rng}.
Arguments shell {Sys Rng}.
Arguments ml {Sys Rng}.
Arguments set_rng {Rng}.
Arguments manual_seed {Sys Rng}.
Arguments cuda_is_available {Sys Rng}.
Arguments for_ {Sys Rng X}.
Arguments with_file {Sys Rng} w {A}.
Arguments as_str {Sys Rng}.
Arguments as_dict {Sys Rng}.
Arguments as_obj {Sys Rng}.
Arguments as_tensor {Sys Rng}.
Arguments as_mask {Sys Rng}.
Arguments as_sample {Sys Rng}.
Arguments getattr {Sys Rng}.
Arguments getitem_checkpoint {Sys Rng}.
Arguments py_range {Sys Rng}.
Arguments py_mul_4 {Sys Rng}.
Arguments import_ {Sys Rng}.
Arguments enter_src {Sys Rng}.
Arguments imports {Sys Rng}.
Arguments seeding {Sys Rng}.
Arguments pickle_test_set {Sys Rng}.
Arguments knobs {Sys Rng}.
Arguments prepare_model {Sys Rng}.
Arguments first_sample {Sys Rng}.
Arguments data_mask {Sys Rng}.
Arguments manual_inference {Sys Rng}.
Arguments boxcox_inference {Sys Rng}.
Arguments plot_inputs {Sys Rng}.
Arguments plot {Sys Rng}.
Arguments bulk_inference {Sys Rng}.
Arguments download {Sys Rng}.
Arguments show_truth_4_10 {Sys Rng}.
Arguments show_prediction_4_10 {Sys Rng}.
Arguments show_error_4_10 {Sys Rng}.
Arguments case_study {Sys Rng}.
Arguments notebook_4_10 {Sys Rng}.
Arguments autoreload {Sys Rng}.
Arguments show_truth_2_1 {Sys Rng}.
Arguments show_prediction_2_1 {Sys Rng}.
Arguments show_error_2_1 {Sys Rng}.
Arguments notebook_2_1 {Sys Rng}.

(** ** What the claims speak of *)

(** [y_hat] is [pred] masked by the NaNs of [y]: under every cell of [y]
    the block of [pred] is kept, or is all NaN when the cell is NaN; for
    tensors of one shape this reads cell by cell; every entry of [pred]
    lies under a cell of [y]; and [y_hat] has the shape of [pred]. *)
Definition nan_masked (pred y y_hat : tensor float32) : Prop :=
  (forall p a, cell y p = Some a ->
     exists sub, tget pred p = Some sub /\
                 tget y_hat p = Some (if isnan a then tfill nan sub else sub)) /\
  (forall p a b, cell y p = Some a -> cell pred p = Some b ->
     cell y_hat p = Some (if isnan a then nan else b)) /\
  (forall q b, cell pred q = Some b ->
     exists p q' a, q = p ++ q' /\ cell y p = Some a) /\
  tmap (fun _ => tt) y_hat = tmap (fun _ => tt) pred.

(** A call passes exactly the options of a list: every keyword it passes is
    in the list and every option of the list is passed. *)
Definition passes_exactly (kwargs : list (string * pyval)) (options : list string) : Prop :=
  forall name, In name (kwarg_names kwargs) <-> In name options.

(** The keywords of the [get_hparams] calls of the notebooks. *)
Definition passed_options : list string :=
  [ "init_features"; "in_days"; "out_days"; "loss"; "batch_size"; "gpus";
    "case_study"; "clip_fwi"; "test_set"; "model"; "out"; "forcings_dir";
    "reanalysis_dir"; "mask"; "checkpoint_file" ].

(** The index in the sliced dimension that position [i] of the slice comes
    from. *)
Definition item_index (k : index_item) (i : nat) : option nat :=
  match k with
  | all_ => Some i
  | slice_ lo hi => if i <? hi - lo then Some (lo + i) else None
  end.

(** The path in the sliced tensor that a path of the slice comes from. *)
Fixpoint slice_path (ks : list index_item) (p : list nat) : option (list nat) :=
  match ks, p with
  | [], _ => Some p
  | k :: ks', i :: p' =>
      match item_index k i, slice_path ks' p' with
      | Some i', Some q => Some (i' :: q)
      | _, _ => None
      end
  | _ :: _, [] => None
  end.

(** [part] is the cut of rows 355 to 479 and columns 400 to 549 out of
    [whole]: row [i], column [j] of the cut is row [355 + i], column
    [400 + j] of the whole, for [i < 125] and [j < 150], and the cut has
    nothing else.  Both are given by their entries at (row, column). *)
Definition cut_from {A} (whole part : list nat -> option (tensor A)) : Prop :=
  forall i j,
    (i < 125 -> j < 150 -> part [i; j] = whole [355 + i; 400 + j]) /\
    (125 <= i \/ 150 <= j -> part [i; j] = None).

(** The entries of a sequence at the positions where a sequence of
    booleans is true. *)
Fixpoint pick {X} (l : list X) (bs : list bool) : list X :=
  match l, bs with
  | x :: l', b :: bs' => if b then x :: pick l' bs' else pick l' bs'
  | _, _ => []
  end.

(** ** Monitors of the event log

    A monitor reads the events in order; [None] means it has seen what it
    forbids. *)

Section Monitor.
Context {S : Type}.
Variable step : S -> event -> option S.

Fixpoint accepts (s : S) (l : list event) : option S :=
  match l with
  | [] => Some s
  | ev :: l' =>
      match step s ev with
      | Some s' => accepts s' l'
      | None => None
      end
  end.

Context {Sys Rng : Type}.

(** Started with the monitor in state [s], the code [m] logs events the
    monitor accepts; when [m] returns [a] the monitor is in a state with
    [Q a], when [m] raises [e] in a state with [E e]. *)
Definition triple {A} (E : exn -> S -> Prop) (s : S) (m : M Sys Rng A)
    (Q : A -> S -> Prop) : Prop :=
  forall st, exists new s',
    log (fst (m st)) = log st ++ new /\
    accepts s new = Some s' /\
    match snd (m st) with
    | inr a => Q a s'
    | inl e => E e s'
    end.

(** [m] leaves the monitor where it is. *)
Definition stable {A} (E : exn -> S -> Prop) (s : S) (m : M Sys Rng A) : Prop :=
  triple E s m (fun _ s' => s' = s).

(** In state [s] the monitor does not care about calls to the operating
    system and matplotlib, shell escapes, and errors of operations. *)
Definition quiet (E : exn -> S -> Prop) (s : S) : Prop :=
  (forall c a, step s (ev_os c (inr a)) = Some s) /\
  (forall c e, exists s', step s (ev_os c (inl e)) = Some s' /\ E e s') /\
  (forall e, exists s', step s (ev_op e) = Some s' /\ E e s') /\
  (forall cmd z, step s (ev_shell cmd z) = Some s) /\
  (forall e s1, E e s1 -> forall f r, exists s2,
      step s1 (ev_os (c_close f) r) = Some s2 /\
      match r with
      | inl e2 => E e2 s2
      | inr _ => E e s2
      end).

(** In state [s] the monitor does not care about the call [c]. *)
Definition ml_quiet (E : exn -> S -> Prop) (s : S) (c : ml_call) : Prop :=
  (forall a, step s (ev_ml c (inr a)) = Some s) /\
  (forall e, exists s', step s (ev_ml c (inl e)) = Some s' /\ E e s').
End Monitor.

(** *** Error propagation *)

(** The exception an event raised, if it raised. *)
Definition raised (ev : event) : option exn :=
  match ev with
  | ev_os _ (inl e) => Some e
  | ev_ml _ (inl e) => Some e
  | ev_op e => Some e
  | _ => None
  end.

(** The closing of a file by a [with] statement. *)
Definition is_close (ev : event) : bool :=
  match ev with
  | ev_os (c_close _) _ => true
  | _ => false
  end.

(** The monitor keeps the exception in flight.  Once something has raised,
    the only event allowed is the closing of a file by the [with] statement
    around it, and an exception raised by that closing takes the place of
    the one in flight. *)
Definition propagate_step (s : option exn) (ev : event) : option (option exn) :=
  match s with
  | None => Some (raised ev)
  | Some e =>
      if is_close ev then
        Some (match raised ev with
              | Some e' => Some e'
              | None => Some e
              end)
      else None
  end.

Definition in_flight (e : exn) (s : option exn) : Prop := s = Some e.

(** *** Preparation of the model before a forward pass *)

#[global] Instance spec_float_eq_dec : EqDecision spec_float.
Proof. solve_decision. Defined.

#[global] Instance pyval_eq_dec : EqDecision pyval.
Proof. solve_decision. Defined.

(** How far the model bound last has been prepared. *)
Inductive stage :=
| no_model
| fresh (model : obj) (file : option pyval)
| opened (model : obj) (ckpt : gmap string obj)
| loaded (model : obj)
| ready (model : obj).

(** The model of a forward pass: [model(x)] or [trainer.test(model)]. *)
Definition forward_pass (ev : event) : option obj :=
  match ev with
  | ev_ml (c_forward model _) _ => Some model
  | ev_ml (c_trainer_test _ model) _ => Some model
  | _ => None
  end.

(** The monitor follows [get_model], [torch.load] of the checkpoint file of
    the hyper-parameters, [load_state_dict] of its ["state_dict"] entry and
    [eval] on the model, and forbids a forward pass on anything but a model
    that went through all of them. *)
Definition prepare_step (s : stage) (ev : event) : option stage :=
  match ev with
  | ev_ml (c_get_model hp) (inr (val_obj m)) => Some (fresh m (hp !! "checkpoint_file"))
  | ev_ml (c_get_model _) _ => Some no_model
  | ev_ml (c_torch_load file) (inr (val_checkpoint d)) =>
      match s with
      | fresh m (Some f) => if decide (f = file) then Some (opened m d) else Some s
      | _ => Some s
      end
  | ev_ml (c_load_state_dict m' sd) (inr _) =>
      match s with
      | opened m d =>
          if decide (m' = m /\ d !! "state_dict" = Some sd) then Some (loaded m)
          else Some s
      | _ => Some s
      end
  | ev_ml (c_eval m') (inr _) =>
      match s with
      | loaded m => if decide (m' = m) then Some (ready m) else Some s
      | _ => Some s
      end
  | ev_ml (c_forward m' _) _ | ev_ml (c_trainer_test _ m') _ =>
      match s with
      | ready m => if decide (m' = m) then Some s else None
      | _ => None
      end
  | _ => Some s
  end.

Definition any_state {S} (e : exn) (s : S) : Prop := True.

(** No [get_model] call among the events. *)
Definition no_get_model (l : list event) : Prop :=
  forall hp r, ~ In (ev_ml (c_get_model hp) r) l.

(** The events [pre] prepare [model]: they contain, in this order, the
    [get_model] call that returned it, a successful [torch.load] of the
    checkpoint file named by the hyper-parameters it was built from, a
    successful [model.load_state_dict] of the ["state_dict"] entry of what
    was loaded, and a successful [model.eval()], with no other [get_model]
    call after the first of them. *)
Definition prepared (model : obj) (pre : list event) : Prop :=
  exists l0 hp file ckpt sd v1 v2 l1 l2 l3 l4,
    pre = l0 ++ ev_ml (c_get_model hp) (inr (val_obj model))
             :: l1 ++ ev_ml (c_torch_load file) (inr (val_checkpoint ckpt))
             :: l2 ++ ev_ml (c_load_state_dict model sd) (inr v1)
             :: l3 ++ ev_ml (c_eval model) (inr v2)
             :: l4 /\
    hp !! "checkpoint_file" = Some file /\
    ckpt !! "state_dict" = Some sd /\
    no_get_model (l1 ++ l2 ++ l3 ++ l4).

(** In every run, from a fresh kernel and whatever the outside answers,
    the events before a forward pass prepare its model. *)
Definition prepared_before_forward {Sys Rng A} (m : M Sys Rng A) : Prop :=
  forall g sy pre ev model post,
    log (fst (m (State g sy []))) = pre ++ ev :: post ->
    forward_pass ev = Some model ->
    prepared model pre.

(** What the events so far have done for the model bound last, stage by
    stage. *)
Definition history (s : stage) (pre : list event) : Prop :=
  match s with
  | no_model => True
  | fresh model f =>
      exists l0 hp l1,
        pre = l0 ++ ev_ml (c_get_model hp) (inr (val_obj model)) :: l1 /\
        hp !! "checkpoint_file" = f /\
        no_get_model l1
  | opened model ckpt =>
      exists l0 hp file l1 l2,
        pre = l0 ++ ev_ml (c_get_model hp) (inr (val_obj model))
                 :: l1 ++ ev_ml (c_torch_load file) (inr (val_checkpoint ckpt))
                 :: l2 /\
        hp !! "checkpoint_file" = Some file /\
        no_get_model (l1 ++ l2)
  | loaded model =>
      exists l0 hp file ckpt sd v1 l1 l2 l3,
        pre = l0 ++ ev_ml (c_get_model hp) (inr (val_obj model))
                 :: l1 ++ ev_ml (c_torch_load file) (inr (val_checkpoint ckpt))
                 :: l2 ++ ev_ml (c_load_state_dict model sd) (inr v1)
                 :: l3 /\
        hp !! "checkpoint_file" = Some file /\
        ckpt !! "state_dict" = Some sd /\
        no_get_model (l1 ++ l2 ++ l3)
  | ready model => prepared model pre
  end.

Definition not_get_model (ev : event) : Prop :=
  forall hp r, ev <> ev_ml (c_get_model hp) r.

(** *** Seeding before use *)

(** A call to train.py, torch, scipy or pytorch-lightning. *)
Definition is_ml (ev : event) : bool :=
  match ev with
  | ev_ml _ _ => true
  | _ => false
  end.

(** Which generators have been seeded with [SEED], and what
    [torch.cuda.is_available()] answered. *)
Record seeds := Seeds {
  seeded_torch : bool;
  seeded_cuda : bool;
  seeded_numpy : bool;
  seeded_random : bool;
  cuda_answer : option bool }.

Definition no_seeds : seeds := Seeds false false false false None.

Definition mark (g : generator) (s : seeds) : seeds :=
  match g with
  | g_torch => Seeds true (seeded_cuda s) (seeded_numpy s) (seeded_random s) (cuda_answer s)
  | g_cuda => Seeds (seeded_torch s) true (seeded_numpy s) (seeded_random s) (cuda_answer s)
  | g_numpy => Seeds (seeded_torch s) (seeded_cuda s) true (seeded_random s) (cuda_answer s)
  | g_random => Seeds (seeded_torch s) (seeded_cuda s) (seeded_numpy s) true (cuda_answer s)
  end.

Definition all_seeded (s : seeds) : bool :=
  seeded_torch s && seeded_numpy s && seeded_random s &&
  match cuda_answer s with
  | Some true => seeded_cuda s
  | Some false => true
  | None => false
  end.

(** The monitor forbids a seed other than [SEED], and any call to train.py,
    torch, scipy or pytorch-lightning before all generators in use are
    seeded. *)
Definition seed_step (s : seeds) (ev : event) : option seeds :=
  match ev with
  | ev_seed g z => if Z.eqb z SEED then Some (mark g s) else None
  | ev_cuda_is_available b =>
      Some (Seeds (seeded_torch s) (seeded_cuda s) (seeded_numpy s) (seeded_random s)
                  (Some b))
  | ev_ml _ _ => if all_seeded s then Some s else None
  | _ => Some s
  end.

(** The events [pre] seed every generator in use with [SEED], and with
    nothing else: torch, numpy and Python's random, and the CUDA generators
    when [torch.cuda.is_available()] answered yes. *)
Definition seeded (pre : list event) : Prop :=
  In (ev_seed g_torch SEED) pre /\
  In (ev_seed g_numpy SEED) pre /\
  In (ev_seed g_random SEED) pre /\
  (exists b, In (ev_cuda_is_available b) pre /\
             (b = true -> In (ev_seed g_cuda SEED) pre)) /\
  (forall g z, In (ev_seed g z) pre -> z = SEED).

(** In every run the generators are seeded before the first call to
    train.py, torch, scipy or pytorch-lightning (model construction and
    inference are such calls). *)
Definition seeded_before_use {Sys Rng A} (m : M Sys Rng A) : Prop :=
  forall g sy pre ev post,
    log (fst (m (State g sy []))) = pre ++ ev :: post ->
    is_ml ev = true ->
    seeded pre.

(** What a run shows: the events (with every prediction and every
    displayed figure), the system it leaves, and how it ends. *)
Definition same_outcome {Sys Rng A} (x y : state Sys Rng * result A) : Prop :=
  log (fst x) = log (fst y) /\ sys (fst x) = sys (fst y) /\ snd x = snd y.

(** The generators of a kernel at start: in states of their own, with a
    CUDA generator when the machine has CUDA. *)
Definition fresh_rngs {Rng} (cuda : bool) (t c n r : Rng) : rngs Rng :=
  Rngs t (if cuda then Some c else None) n r.

(** Two runs on the same machine and system show the same, whatever states
    the generators start in. *)
Definition reproducible {Sys Rng A} (m : M Sys Rng A) : Prop :=
  forall sy cuda t c n r t' c' n' r',
    same_outcome (m (State (fresh_rngs cuda t c n r) sy []))
                 (m (State (fresh_rngs cuda t' c' n' r') sy [])).

(** Two states that differ in the states of the generators only. *)
Definition sim {Sys Rng} (st1 st2 : state Sys Rng) : Prop :=
  sys st1 = sys st2 /\ log st1 = log st2 /\
  (is_Some (rng_cuda (gens st1)) <-> is_Some (rng_cuda (gens st2))).

(** Code that does not look at the generators. *)
Definition blind {Sys Rng A} (m : M Sys Rng A) : Prop :=
  forall st1 st2, sim st1 st2 ->
    sim (fst (m st1)) (fst (m st2)) /\ snd (m st1) = snd (m st2).

(** Code whose outcome does not depend on the generators at start. *)
Definition same_from_sim {Sys Rng A} (m : M Sys Rng A) : Prop :=
  forall st1 st2, sim st1 st2 -> same_outcome (m st1) (m st2).

(** What the seed monitor has seen. *)
Definition seen (s : seeds) (pre : list event) : Prop :=
  (seeded_torch s = true -> In (ev_seed g_torch SEED) pre) /\
  (seeded_cuda s = true -> In (ev_seed g_cuda SEED) pre) /\
  (seeded_numpy s = true -> In (ev_seed g_numpy SEED) pre) /\
  (seeded_random s = true -> In (ev_seed g_random SEED) pre) /\
  (forall b, cuda_answer s = Some b -> In (ev_cuda_is_available b) pre) /\
  (forall g z, In (ev_seed g z) pre -> z = SEED).

(** *** The inference cells *)

(** What the cell "Manual inference" has done when it returns [x], [y] and
    [y_hat]: it read the first sample twice, ran the forward pass on [x],
    called nothing else, and [y_hat] is the raw output of the forward
    pass with the masking statement applied. *)
Definition plain_prediction {Sys Rng} (model : obj) (st st' : state Sys Rng)
    (x y y_hat raw : tensor float32) : Prop :=
  exists x0 y0 other1 other2,
    log st' = log st ++
      [ ev_ml (c_data_getitem model 0) (inr (val_sample x0 other1));
        ev_ml (c_data_getitem model 0) (inr (val_sample other2 y0));
        ev_ml (c_forward model x) (inr (val_tensor raw)) ] /\
    x = unsqueeze0 x0 /\ y = unsqueeze0 y0 /\
    mask_prediction raw y = inr y_hat.

(** What the inference cell of the Box-Cox part has done when it returns:
    after the forward pass it read [model.hparams], called [inv_boxcox] on
    the raw output with the [boxcox] attribute found there, and [y_hat] is
    the transformed tensor with the masking statement applied. *)
Definition boxcox_prediction {Sys Rng} (model : obj) (st st' : state Sys Rng)
    (x y y_hat raw transformed : tensor float32) (lmbda : pyval) : Prop :=
  exists x0 y0 other1 other2 model_hparams,
    log st' = log st ++
      [ ev_ml (c_data_getitem model 0) (inr (val_sample x0 other1));
        ev_ml (c_data_getitem model 0) (inr (val_sample other2 y0));
        ev_ml (c_forward model x) (inr (val_tensor raw));
        ev_ml (c_model_hparams model) (inr (val_dict model_hparams));
        ev_ml (c_inv_boxcox raw lmbda) (inr (val_tensor transformed)) ] /\
    model_hparams !! "boxcox" = Some lmbda /\
    x = unsqueeze0 x0 /\ y = unsqueeze0 y0 /\
    mask_prediction transformed y = inr y_hat.

(** *** The inverse transform and the place in the notebook *)

(** Where a run is: before the first model, under the first model (built
    from the hyper-parameters as [get_hparams] made them), under the second
    model (built after the notebook set [hparams.boxcox]), and, under the
    second model, after a forward pass of the inference cell and after the
    reading of [model.hparams]. *)
Inductive phase :=
| ph_none
| ph_plain
| ph_boxcox
| ph_forwarded
| ph_hparams (lmbda : option pyval).

Record transform_state := TS {
  base : option (gmap string pyval);
  ph : phase }.

(** The monitor of the place in the notebook.  [get_hparams] is called
    before the first model only.  [get_model] is called twice: first on the
    namespace made of what [get_hparams] returned, with [eval] set and
    nothing else, then on that namespace after the cell that sets
    [boxcox = 0.1182] and the new checkpoint file.  Under the first model
    [inv_boxcox] is forbidden.  Under the second model, after a forward
    pass [model(x)] that returned a tensor, the next call must read
    [model.hparams], and the one after that must be [inv_boxcox] with the
    [boxcox] attribute just read; [inv_boxcox] is forbidden anywhere
    else. *)
Definition transform_step (s : transform_state) (ev : event) : option transform_state :=
  match ev with
  | ev_ml (c_get_hparams _) r =>
      match ph s with
      | ph_none =>
          match r with
          | inr (val_dict d) => Some (TS (Some (setattr d "eval" (py_bool true))) ph_none)
          | _ => Some s
          end
      | _ => None
      end
  | ev_ml (c_get_model hp) _ =>
      match ph s, base s with
      | ph_none, Some b =>
          if decide (hp = b) then Some (TS (base s) ph_plain) else None
      | ph_plain, Some b =>
          if decide (hp = set_boxcox_4_10 b \/ hp = set_boxcox_2_1 b)
          then Some (TS (base s) ph_boxcox) else None
      | _, _ => None
      end
  | ev_ml (c_forward _ _) r =>
      match ph s with
      | ph_plain => Some s
      | ph_boxcox =>
          match r with
          | inr (val_tensor _) => Some (TS (base s) ph_forwarded)
          | _ => Some s
          end
      | _ => None
      end
  | ev_ml (c_model_hparams _) r =>
      match ph s with
      | ph_forwarded =>
          match r with
          | inr (val_dict mh) => Some (TS (base s) (ph_hparams (mh !! "boxcox")))
          | _ => Some s
          end
      | _ => None
      end
  | ev_ml (c_inv_boxcox _ lmbda) _ =>
      match ph s with
      | ph_hparams (Some l) =>
          if decide (lmbda = l) then Some (TS (base s) ph_boxcox) else None
      | _ => None
      end
  | ev_ml _ _ =>
      match ph s with
      | ph_forwarded | ph_hparams _ => None
      | _ => Some s
      end
  | _ => Some s
  end.

(** The monitor is not in the middle of a transform. *)
Definition settled (s : transform_state) : Prop :=
  ph s = ph_none \/ ph s = ph_plain \/ ph s = ph_boxcox.

(** The result of [zipM], position by position. *)
Inductive zipped {A B C} (f : A -> B -> result C)
    : list A -> list B -> list C -> Prop :=
| zipped_nil : zipped f [] [] []
| zipped_cons x y z l1 l2 l :
    f x y = inr z -> zipped f l1 l2 l -> zipped f (x :: l1) (y :: l2) (z :: l).

(** ** A small world to run the notebooks in

    Grids of two rows and two columns; the model's answer is a constant
    tensor; no call raises. *)

Definition demo_one : float32 := f32_of_Z 1.
Definition demo_twenty : float32 := f32_of_Z 20.

(** The ground truth of one day: one cell is masked out (NaN). *)
Definition demo_truth_day : tensor float32 :=
  Dim [Dim [Scalar demo_one; Scalar nan]; Dim [Scalar demo_twenty; Scalar demo_one]].

(** The prediction of one day. *)
Definition demo_pred_day : tensor float32 :=
  Dim [Dim [Scalar demo_one; Scalar demo_one]; Dim [Scalar demo_one; Scalar demo_twenty]].

Definition demo_mask : tensor bool :=
  Dim [Dim [Scalar true; Scalar false]; Dim [Scalar true; Scalar true]].

Definition demo_days (hp : option (gmap string pyval)) (key : string) : nat :=
  match hp with
  | Some d => match d !! key with
              | Some (py_int z) => Z.to_nat z
              | _ => 0
              end
  | None => 0
  end.

(** The system keeps the hyper-parameters of the model built last. *)
Definition demo_ml (c : ml_call) (g : rngs Z) (s : option (gmap string pyval))
    : rngs Z * option (gmap string pyval) * result value :=
  match c with
  | c_get_hparams kw => (g, s, inr (val_dict (list_to_map kw)))
  | c_get_model hp => (g, Some hp, inr (val_obj 1))
  | c_torch_load _ => (g, s, inr (val_checkpoint {["state_dict" := 7]}))
  | c_load_state_dict _ _ => (g, s, inr val_None)
  | c_eval m => (g, s, inr (val_obj m))
  | c_data_getitem _ _ =>
      (g, s, inr (val_sample (Dim (repeat demo_pred_day (4 * demo_days s "in_days")))
                             (Dim (repeat demo_truth_day (demo_days s "out_days")))))
  | c_data_mask _ => (g, s, inr (val_mask demo_mask))
  | c_model_hparams _ =>
      (g, s, inr (val_dict (match s with Some d => d | None => ∅ end)))
  | c_forward _ _ =>
      (g, s, inr (val_tensor (Dim [Dim (repeat demo_pred_day (demo_days s "out_days"))])))
  | c_inv_boxcox t _ => (g, s, inr (val_tensor (tmap (fun v => f32_add v v) t)))
  | c_Trainer _ => (g, s, inr (val_obj 2))
  | c_trainer_test _ _ => (g, s, inr val_None)
  end.

Definition demo_os (c : os_call) (s : option (gmap string pyval))
    : option (gmap string pyval) * result value :=
  match c with
  | c_NamedTemporaryFile => (s, inr (val_py (py_str "/tmp/tmpq0x1")))
  | _ => (s, inr val_None)
  end.

Definition demo_world : World (option (gmap string pyval)) Z :=
  {| w_os := demo_os;
     w_shell := fun _ s => (s, 0%Z);
     w_ml := demo_ml;
     w_seed := fun _ seed => seed;
     w_sum := sum_left |}.

(** The generators and the system a kernel of the small world starts
    with. *)
Definition demo_rngs : rngs Z := Rngs 11%Z None 12%Z 13%Z.

Definition demo_sys : option (gmap string pyval) := None.

(** A grid of 480 rows and 550 columns, zero everywhere but at row 358,
    column 407. *)
Definition demo_zero : float32 := S754_zero false.

Definition demo_wide_grid : tensor float32 :=
  Dim (repeat (Dim (repeat (Scalar demo_zero) 550)) 358
       ++ [Dim (repeat (Scalar demo_zero) 407 ++ [Scalar demo_twenty]
                ++ repeat (Scalar demo_zero) 142)]
       ++ repeat (Dim (repeat (Scalar demo_zero) 550)) 121).

Definition demo_wide_mask : tensor bool :=
  Dim (repeat (Dim (repeat (Scalar true) 550)) 480).

Definition or_empty {A} (r : result (tensor A)) : tensor A :=
  match r with
  | inr t => t
  | inl _ => Dim []
  end.

(** The small world, but the checkpoint file is missing. *)
Definition FileNotFoundError : exn := PyExc "FileNotFoundError" "No such file or directory".

Definition demo_world_no_checkpoint : World (option (gmap string pyval)) Z :=
  {| w_os := demo_os;
     w_shell := fun _ s => (s, 0%Z);
     w_ml := fun c g s =>
               match c with
               | c_torch_load _ => (g, s, inl FileNotFoundError)
               | _ => demo_ml c g s
               end;
     w_seed := fun _ seed => seed;
     w_sum := sum_left |}.

(** Two days of ground truth and prediction on the small grid. *)
Definition demo_y_two_days : tensor float32 :=
  Dim [Dim [demo_truth_day; demo_truth_day]].

Definition demo_y_hat_two_days : tensor float32 :=
  Dim [Dim [demo_truth_day; demo_pred_day]].

(** One day. *)
Definition demo_y_one_day : tensor float32 := Dim [Dim [demo_truth_day]].
Definition demo_y_hat_one_day : tensor float32 := Dim [Dim [demo_pred_day]].

(** Ground truth and prediction of two days on the wide grid. *)
Definition demo_wide_y : tensor float32 := Dim [Dim [demo_wide_grid; demo_wide_grid]].

Definition demo_wide_y_hat : tensor float32 :=
  Dim [Dim [demo_wide_grid; tfill demo_zero demo_wide_grid]].

(** The hyper-parameters of the small world, and a kernel in which a model
    has been built from them. *)
Definition demo_hparams : gmap string pyval :=
  list_to_map (hparams_kwargs_2_1 "/tmp/tmpq0x1").

Definition demo_plain : state (option (gmap string pyval)) Z :=
  State (Rngs 2334 None 2334 2334)%Z (Some demo_hparams) [].

Definition demo_boxcox : state (option (gmap string pyval)) Z :=
  State (Rngs 2334 None 2334 2334)%Z (Some (set_boxcox_2_1 demo_hparams)) [].

(** What a run returned, or the given value when it raised. *)
Definition returned {Sys Rng A} (default : A) (r : state Sys Rng * result A) : A :=
  match snd r with
  | inr a => a
  | inl _ => default
  end.

Definition demo_manual_run :=
  manual_inference demo_world 1 demo_plain.

Definition demo_boxcox_run :=
  boxcox_inference demo_world 1 demo_boxcox.

Definition no_tensors : tensor float32 * tensor float32 * tensor float32 :=
  (Dim [], Dim [], Dim []).

(** The events of a run of the 2-in/1-out notebook in the small world, cut
    at the first event that satisfies [p]. *)
Abbreviation demo_log :=
  (log (fst (notebook_2_1 demo_world (State demo_rngs demo_sys [])))).

Fixpoint cut_at (p : event -> bool) (l : list event) : list event * list event :=
  match l with
  | [] => ([], [])
  | ev :: l' =>
      if p ev then ([], l) else let '(pre, post) := cut_at p l' in (ev :: pre, post)
  end.

Definition is_forward (ev : event) : bool :=
  match ev with
  | ev_ml (c_forward _ _) _ => true
  | _ => false
  end.

(** The events of the run in which the checkpoint file is missing. *)
Abbreviation demo_failed_log :=
  (log (fst (notebook_2_1 demo_world_no_checkpoint (State demo_rngs demo_sys [])))).

(** ** Further cells and figures *)

(** *** The error figure *)

(** The MAE figure of day [i] in the 4-in/10-out notebook,
    [((y-y_hat).squeeze()[i].abs())[model.data.mask].float().mean()]. *)
Definition mae_day (sum : list float32 -> float32)
    (y y_hat : tensor float32) (mask : tensor bool) (i : nat) : result (tensor float32) :=
  rbind (error_day y y_hat i) (fun err => mean_selected sum err mask).

(** The MAE figure of the 2-in/1-out notebook,
    [((y-y_hat).abs())[model.data.mask.expand_as(y)].float().mean()]. *)
Definition mae_all (sum : list float32 -> float32)
    (y y_hat : tensor float32) (mask : tensor bool) : result (tensor float32) :=
  rbind (error_all y y_hat) (fun err =>
  rbind (expand_as mask y) (fun m => mean_selected sum err m)).

(** The absolute error at one position of day [i]. *)
Definition abs_error_at (y y_hat : tensor float32) (i : nat) (rc : nat * nat) : float32 :=
  match cell y [0; i; fst rc; snd rc], cell y_hat [0; i; fst rc; snd rc] with
  | Some a, Some b => f32_abs (f32_sub a b)
  | _, _ => nan
  end.

(** The mean of the absolute error over the selected positions. *)
Definition mean_abs_error (sum : list float32 -> float32)
    (y y_hat : tensor float32) (mask : tensor bool) (h w i : nat) : float32 :=
  let errs := map (abs_error_at y y_hat i) (selected mask h w) in
  f32_div (sum errs) (f32_of_Z (Z.of_nat (length errs))).

(** *** More of the small world *)

(** A mask that selects no cell. *)
Definition demo_mask_none : tensor bool :=
  Dim [Dim [Scalar false; Scalar false]; Dim [Scalar false; Scalar false]].

(** A prediction that differs from [demo_y_hat_one_day] at the cell the
    mask [demo_mask] leaves out. *)
Definition demo_y_hat_other : tensor float32 :=
  Dim [Dim [Dim [Dim [Scalar demo_one; Scalar demo_twenty];
                 Dim [Scalar demo_one; Scalar demo_twenty]]]].

(** *** Shapes of slices *)

(** The size of a dimension of size [n] after [:] or [lo:hi]: the bounds
    are clipped to the size. *)
Definition sliced_size (k : index_item) (n : nat) : nat :=
  match k with
  | all_ => n
  | slice_ lo hi => Nat.min hi n - lo
  end.

(** The shape of [t[k0, k1, ...]] for a tensor of shape [s]. *)
Fixpoint slice_shape (ks : list index_item) (s : list nat) : list nat :=
  match ks, s with
  | k :: ks', n :: s' => sliced_size k n :: slice_shape ks' s'
  | _, _ => s
  end.

(** *** The figures of the case study, on the full grid *)

(** The positions (row, column) of the case-study region, counted from its
    corner, at which the full mask selects the cell. *)
Definition selected_in_region (mask : tensor bool) (rows cols : nat) : list (nat * nat) :=
  filter (fun rc => cell mask [355 + fst rc; 400 + snd rc] = Some true)
         (positions rows cols).

(** The position of the full grid under a position of the region. *)
Definition in_full_grid (rc : nat * nat) : nat * nat := (355 + fst rc, 400 + snd rc).

(** 100 times the mean of the indicator over the selected cells of the
    region, read on the full grids. *)
Definition accuracy_region (sum : list float32 -> float32)
    (y y_hat : tensor float32) (mask : tensor bool) (rows cols i : nat) : float32 :=
  let ind := map (fun rc => indicator_at y y_hat i (in_full_grid rc))
                 (selected_in_region mask rows cols) in
  f32_mul (f32_div (sum ind) (f32_of_Z (Z.of_nat (length ind)))) (f32_of_Z 100).

(** The mean of the absolute error over the selected cells of the region,
    read on the full grids. *)
Definition mean_abs_error_region (sum : list float32 -> float32)
    (y y_hat : tensor float32) (mask : tensor bool) (rows cols i : nat) : float32 :=
  let errs := map (fun rc => abs_error_at y y_hat i (in_full_grid rc))
                  (selected_in_region mask rows cols) in
  f32_div (sum errs) (f32_of_Z (Z.of_nat (length errs))).

(** [t.shape == s], as a test. *)
Fixpoint shape_ok {A} (t : tensor A) (s : list nat) {struct t} : bool :=
  match t, s with
  | Scalar _, [] => true
  | Dim ts, n :: s' => (length ts =? n) && forallb (fun x => shape_ok x s') ts
  | _, _ => false
  end.

(** *** Monitors that read calls to the operating system *)

(** The calls to the outside that are not calls to train.py, torch, scipy
    or pytorch-lightning, by what they touch: the Python session (imports,
    magics, logging, warnings, printing), the working directory, files,
    and matplotlib figures. *)
Inductive os_kind := k_session | k_dir | k_file | k_figure.

Definition kind_of (c : os_call) : os_kind :=
  match c with
  | c_magic _ | c_import _ | c_logging_disable | c_filterwarnings _ | c_print _ => k_session
  | c_chdir _ => k_dir
  | c_NamedTemporaryFile | c_pickle_dump _ _ | c_close _ => k_file
  | c_figure _ _ | c_suptitle _ | c_add_subplot _ _ _ | c_set_title _ | c_set_ylabel _
  | c_imshow _ _ | c_show | c_subplots | c_make_axes_locatable | c_append_axes
  | c_colorbar => k_figure
  end.

(** In state [s] the monitor passes over errors of operations, shell
    escapes, seeding, and the calls to the operating system of the kinds it
    does not read. *)
Definition heedless {S} (step : S -> event -> option S) (cares : os_kind -> bool)
    (s : S) : Prop :=
  (forall c r, cares (kind_of c) = false -> step s (ev_os c r) = Some s) /\
  (forall e, step s (ev_op e) = Some s) /\
  (forall cmd z, step s (ev_shell cmd z) = Some s) /\
  (forall g z, step s (ev_seed g z) = Some s) /\
  (forall b, step s (ev_cuda_is_available b) = Some s).

(** **** The working directory *)

(** The monitor keeps the argument of the last [os.chdir] that returned,
    and forbids a call to train.py, torch, scipy or pytorch-lightning
    unless it is ['../src']. *)
Definition cwd_step (s : option string) (ev : event) : option (option string) :=
  match ev with
  | ev_os (c_chdir p) (inr _) => Some (Some p)
  | ev_ml _ _ => if decide (s = Some "../src") then Some s else None
  | _ => Some s
  end.

Definition cares_dir (k : os_kind) : bool :=
  match k with
  | k_dir => true
  | _ => false
  end.

(** No [os.chdir] returned among the events. *)
Definition no_chdir (l : list event) : Prop :=
  forall p v, ~ In (ev_os (c_chdir p) (inr v)) l.

(** The last [os.chdir] that returned among the events [pre] went to
    ['../src']. *)
Definition in_src (pre : list event) : Prop :=
  exists l0 v l1, pre = l0 ++ ev_os (c_chdir "../src") (inr v) :: l1 /\ no_chdir l1.

(** In every run, every call to train.py, torch, scipy or
    pytorch-lightning is made after a change to ['../src'] and no change
    of directory since. *)
Definition ml_calls_in_src {Sys Rng A} (m : M Sys Rng A) : Prop :=
  forall g sy pre ev post,
    log (fst (m (State g sy []))) = pre ++ ev :: post ->
    is_ml ev = true ->
    in_src pre.

(** What the directory monitor has seen. *)
Definition cwd_seen (s : option string) (pre : list event) : Prop :=
  match s with
  | None => no_chdir pre
  | Some p => exists l0 v l1, pre = l0 ++ ev_os (c_chdir p) (inr v) :: l1 /\ no_chdir l1
  end.

(** **** The pickled list of test-set files *)

(** The value of a keyword argument of a call. *)
Fixpoint kwarg (name : string) (kw : list (string * pyval)) : option pyval :=
  match kw with
  | [] => None
  | (k, v) :: kw' => if String.eqb k name then Some v else kwarg name kw'
  end.

(** How far the temporary file has come: not there, open under a name,
    holding the pickled list, and closed with the list in it. *)
Inductive pickled :=
| p_none
| p_open (tmp : string)
| p_dumped (tmp : string) (files : list string)
| p_closed (tmp : string) (files : list string).

(** The monitor follows the temporary file, and forbids a [get_hparams]
    call unless its [test_set] option is the name of a temporary file that
    was opened, got the list [files] pickled into it, and was closed. *)
Definition pickle_step (files : list string) (s : pickled) (ev : event) : option pickled :=
  match ev with
  | ev_os c_NamedTemporaryFile (inr (val_py (py_str tmp))) => Some (p_open tmp)
  | ev_os (c_pickle_dump fs tmp) (inr _) =>
      match s with
      | p_open t => if decide (t = tmp /\ fs = files) then Some (p_dumped tmp fs) else Some s
      | _ => Some s
      end
  | ev_os (c_close tmp) (inr _) =>
      match s with
      | p_dumped t fs => if decide (t = tmp) then Some (p_closed t fs) else Some s
      | _ => Some s
      end
  | ev_ml (c_get_hparams kwargs) _ =>
      match s with
      | p_closed tmp _ =>
          if decide (kwarg "test_set" kwargs = Some (py_str tmp)) then Some s else None
      | _ => None
      end
  | _ => Some s
  end.

Definition cares_file (k : os_kind) : bool :=
  match k with
  | k_file => true
  | _ => false
  end.

(** The events [pre] made the file [tmp]: [tempfile.NamedTemporaryFile]
    returned it, then [pickle.dump] wrote [files] into it, then it was
    closed. *)
Definition pickled_into (files : list string) (tmp : string) (pre : list event) : Prop :=
  exists l0 l1 v1 l2 v2 l3,
    pre = l0 ++ ev_os c_NamedTemporaryFile (inr (val_py (py_str tmp)))
             :: l1 ++ ev_os (c_pickle_dump files tmp) (inr v1)
             :: l2 ++ ev_os (c_close tmp) (inr v2)
             :: l3.

(** In every run, the [test_set] option of a [get_hparams] call names a
    temporary file into which [files] was pickled, closed before the
    call. *)
Definition test_set_is_pickled (files : list string) {Sys Rng A} (m : M Sys Rng A) : Prop :=
  forall g sy pre kwargs r post,
    log (fst (m (State g sy []))) = pre ++ ev_ml (c_get_hparams kwargs) r :: post ->
    exists tmp,
      kwarg "test_set" kwargs = Some (py_str tmp) /\ pickled_into files tmp pre.

(** What the file monitor has seen. *)
Definition pickle_seen (files : list string) (s : pickled) (pre : list event) : Prop :=
  match s with
  | p_none => True
  | p_open tmp =>
      exists l0 l1, pre = l0 ++ ev_os c_NamedTemporaryFile (inr (val_py (py_str tmp))) :: l1
  | p_dumped tmp fs =>
      fs = files /\
      exists l0 l1 v1 l2,
        pre = l0 ++ ev_os c_NamedTemporaryFile (inr (val_py (py_str tmp)))
                 :: l1 ++ ev_os (c_pickle_dump files tmp) (inr v1) :: l2
  | p_closed tmp fs => fs = files /\ pickled_into files tmp pre
  end.

(** **** The hyper-parameters of the models *)

(** In every run, a model is built from what [get_hparams] returned, with
    the [eval] flag set, and changed in nothing but [boxcox] and
    [checkpoint_file]. *)
Definition built_from_get_hparams {Sys Rng A} (m : M Sys Rng A) : Prop :=
  forall g sy pre hp r post,
    log (fst (m (State g sy []))) = pre ++ ev_ml (c_get_model hp) r :: post ->
    exists kwargs d,
      In (ev_ml (c_get_hparams kwargs) (inr (val_dict d))) pre /\
      hp !! "eval" = Some (py_bool true) /\
      (forall name, name <> "eval" -> name <> "boxcox" -> name <> "checkpoint_file" ->
         hp !! name = d !! name).

(** What the transform monitor knows of the hyper-parameters. *)
Definition base_seen (s : transform_state) (pre : list event) : Prop :=
  forall b, base s = Some b ->
    exists kwargs d,
      In (ev_ml (c_get_hparams kwargs) (inr (val_dict d))) pre /\
      b = setattr d "eval" (py_bool true).

(** The small world, but [get_hparams] returns an empty dict: a run stops
    in the cell that prepares the model, for want of a checkpoint file. *)
Definition demo_world_bare : World (option (gmap string pyval)) Z :=
  {| w_os := demo_os;
     w_shell := fun _ s => (s, 0%Z);
     w_ml := fun c g s =>
               match c with
               | c_get_hparams _ => (g, s, inr (val_dict ∅))
               | _ => demo_ml c g s
               end;
     w_seed := fun _ seed => seed;
     w_sum := sum_left |}.

Abbreviation demo_bare_log :=
  (log (fst (notebook_2_1 demo_world_bare (State demo_rngs demo_sys [])))).

Definition is_get_hparams (ev : event) : bool :=
  match ev with
  | ev_ml (c_get_hparams _) _ => true
  | _ => false
  end.

Definition is_get_model (ev : event) : bool :=
  match ev with
  | ev_ml (c_get_model _) _ => true
  | _ => false
  end.

(** *** What a cell adds to the log *)

(** The events logged from state [st] to state [st']. *)
Definition new_events {Sys Rng} (st st' : state Sys Rng) : list event :=
  drop (length (log st)) (log st').

(** The events of one call of [plot(im, title)] in which every call
    returned. *)
Definition plot_events (im : tensor float32) (title : fstring) (evs : list event) : Prop :=
  exists v1 v2 v3 v4 v5 v6,
    evs = [ ev_os c_subplots (inr v1);
            ev_os (c_suptitle title) (inr v2);
            ev_os c_make_axes_locatable (inr v3);
            ev_os c_append_axes (inr v4);
            ev_os (c_imshow im "jet") (inr v5);
            ev_os c_colorbar (inr v6) ].

(** The title of the prediction of day [i] in the 4-in/10-out notebook:
    the text, the day of April, and on a second line the accuracy with two
    decimals. *)
Definition accuracy_title (text : string) (i : nat) (acc : float32) : fstring :=
  [ lit (text +:+ fmt_02 (4 + i) +:+ nl +:+ "Accuracy:     "); fixed 2 acc; lit "%*" ].

(** The title of the prediction error of day [i]: the MAE with three
    decimals. *)
Definition mae_title (text : string) (i : nat) (mae : float32) : fstring :=
  [ lit (text +:+ fmt_02 (4 + i) +:+ nl +:+ "MAE:     "); fixed 3 mae ].

(** The events of one round of the prediction loop, for day [i]: the mask
    is read from the data accessor, the figure of day [i] of the
    prediction is drawn under the title with the accuracy of day [i] for
    this mask, and shown. *)
Definition prediction_day_shown (sum : list float32 -> float32) (model : obj)
    (text : string) (y y_hat : tensor float32) (i : nat) (evs : list event) : Prop :=
  exists m im acc drawn v,
    evs = ev_ml (c_data_mask model) (inr (val_mask m)) :: drawn ++ [ev_os c_show (inr v)] /\
    getitem (squeeze y_hat) i = inr im /\
    accuracy_day sum y y_hat m i = inr (Scalar acc) /\
    plot_events im (accuracy_title text i acc) drawn.

(** The events of one round of the error loop, for day [i]: the figure of
    day [i] of the absolute error is drawn under the title with the MAE of
    day [i]; the loop does not call [plt.show()]. *)
Definition error_day_shown (sum : list float32 -> float32) (model : obj)
    (text : string) (y y_hat : tensor float32) (i : nat) (evs : list event) : Prop :=
  exists m d im mae drawn,
    evs = ev_ml (c_data_mask model) (inr (val_mask m)) :: drawn /\
    tsub y y_hat = inr d /\
    getitem (squeeze (tabs d)) i = inr im /\
    mae_day sum y y_hat m i = inr (Scalar mae) /\
    plot_events im (mae_title text i mae) drawn.

(** No call that loads weights or sets the inference mode among the
    events. *)
Definition no_weights_loaded (l : list event) : Prop :=
  forall ev, In ev l ->
    (forall m sd r, ev <> ev_ml (c_load_state_dict m sd) r) /\
    (forall m r, ev <> ev_ml (c_eval m) r).


(** The events of the prediction cell of the 2-in/1-out notebook: the mask
    is read, and the prediction is drawn under the title with the accuracy
    for this mask. *)
Definition prediction_shown_2_1 (sum : list float32 -> float32) (model : obj)
    (text : string) (y y_hat : tensor float32) (evs : list event) : Prop :=
  exists m acc drawn,
    evs = ev_ml (c_data_mask model) (inr (val_mask m)) :: drawn /\
    accuracy_all sum y y_hat m = inr (Scalar acc) /\
    plot_events (squeeze y_hat)
                [lit (text +:+ nl +:+ "Accuracy: "); fixed 2 acc; lit "%*"] drawn.

(** The events of the error cell of the 2-in/1-out notebook. *)
Definition error_shown_2_1 (sum : list float32 -> float32) (model : obj)
    (text : string) (y y_hat : tensor float32) (evs : list event) : Prop :=
  exists m d mae drawn,
    evs = ev_ml (c_data_mask model) (inr (val_mask m)) :: drawn /\
    tsub y y_hat = inr d /\
    mae_all sum y y_hat m = inr (Scalar mae) /\
    plot_events (squeeze (tabs d)) [lit (text +:+ nl +:+ "MAE: "); fixed 3 mae] drawn.

(** Hyper-parameters that say two output days, and nothing else. *)
Definition demo_two_days : gmap string pyval := {["out_days" := py_int 2]}.

(** *** The figure of the input variables *)

(** The four input variables of a day, in the order of the channels. *)
Definition variable_name (j : nat) : string :=
  match j with
  | 0 => "Relative Humidity"
  | 1 => "Temperature"
  | 2 => "Precipitation"
  | _ => "Wind speed"
  end.

(** The colour map of an input variable. *)
Definition variable_cmap (j : nat) : string :=
  match j with
  | 1 => "gist_ncar"
  | 2 => "flag"
  | _ => "hsv"
  end.

(** The events for input variable [j] of day [i]: subplot [4*i+j+1] of a
    grid of [rows] by 4 is added, titled with the name of the variable in
    the first row and labelled with the day in the first column, and
    channel [4*i+j] of [x.squeeze()] is drawn in it. *)
Definition input_shown (rows : pyval) (x : tensor float32) (i j : nat)
    (evs : list event) : Prop :=
  exists v1 vt vl im v2,
    getitem (squeeze x) (4 * i + j) = inr im /\
    evs = ev_os (c_add_subplot rows (py_int 4) (4 * i + j + 1)) (inr v1)
          :: (if i =? 0 then [ev_os (c_set_title (variable_name j)) (inr vt)] else [])
          ++ (if j =? 0
              then [ev_os (c_set_ylabel ("2019-04-" +:+ fmt_02 (i + 1))) (inr vl)]
              else [])
          ++ [ev_os (c_imshow im (variable_cmap j)) (inr v2)].

(** Hyper-parameters that say two input days, and nothing else, and an
    input of eight channels on the small grid. *)
Definition demo_two_in_days : gmap string pyval := {["in_days" := py_int 2]}.

Definition demo_x_two_days : tensor float32 := Dim [Dim (repeat demo_pred_day 8)].

(** ** The case-study cell, error propagation and the transform *)

(** The small world, with the mask of the wide grid on the data
    accessor. *)
Definition demo_world_wide : World (option (gmap string pyval)) Z :=
  {| w_os := demo_os;
     w_shell := fun _ s => (s, 0%Z);
     w_ml := fun c g s =>
               match c with
               | c_data_mask _ => (g, s, inr (val_mask demo_wide_mask))
               | _ => demo_ml c g s
               end;
     w_seed := fun _ seed => seed;
     w_sum := sum_left |}.

(** The case-study cell, in a kernel where model 1 has been built. *)
Definition demo_case_days :=
  case_study demo_world_wide case_region_days 1 demo_wide_y demo_wide_y_hat demo_plain.

Definition demo_case_single :=
  case_study demo_world_wide case_region_single 1 demo_wide_y demo_wide_y_hat demo_plain.

Definition no_case : tensor float32 * tensor float32 * tensor bool :=
  (Dim [], Dim [], Dim []).


(** *** Errors reach the caller *)

(** The exception a call to the outside raised. *)
Definition call_raised (ev : event) : option exn :=
  match ev with
  | ev_os _ (inl e) => Some e
  | ev_ml _ (inl e) => Some e
  | _ => None
  end.

(** C7 as the specification words it: what a call to the outside raised is
    what the run ends with. *)
Definition propagates_unchanged {Sys Rng A} (m : M Sys Rng A) : Prop :=
  forall g sy pre ev e post,
    log (fst (m (State g sy []))) = pre ++ ev :: post ->
    call_raised ev = Some e ->
    snd (m (State g sy [])) = inl e.

(** The exception a run ends with when [e] is in flight and the events
    [post] follow: an exception raised later takes its place. *)
Fixpoint last_raised (e : exn) (post : list event) : exn :=
  match post with
  | [] => e
  | ev :: post' =>
      last_raised (match raised ev with Some e' => e' | None => e end) post'
  end.

(** No error is caught: a run that logged no raising event returns, and a
    run that returns logged none; in a run that logged one, nothing ran
    after the first raising event but the closing of a file by the [with]
    statement around it, and the run ends raising the exception of that
    event, or the exception of the closing when the closing raised too. *)
Definition propagates_through_close {Sys Rng A} (m : M Sys Rng A) : Prop :=
  forall g sy,
    let st' := fst (m (State g sy [])) in
    let r := snd (m (State g sy [])) in
    ((forall ev, In ev (log st') -> raised ev = None) -> exists a, r = inr a) /\
    (forall a, r = inr a -> forall ev, In ev (log st') -> raised ev = None) /\
    (forall pre ev e post,
        log st' = pre ++ ev :: post ->
        (forall ev', In ev' pre -> raised ev' = None) ->
        raised ev = Some e ->
        Forall (fun ev' => is_close ev' = true) post /\
        r = inl (last_raised e post)).

(** The calls that configure how errors and warnings are reported. *)
Definition configuration_call (c : os_call) : bool :=
  match c with
  | c_logging_disable | c_filterwarnings _ => true
  | _ => false
  end.

Definition configuration_calls (l : list event) : list os_call :=
  flat_map (fun ev => match ev with
                      | ev_os c _ => if configuration_call c then [c] else []
                      | _ => []
                      end) l.

(** [logging.disable(sys.maxsize)], then [warnings.filterwarnings('ignore')]. *)
Definition logging_and_warnings : list os_call :=
  [c_logging_disable; c_filterwarnings "ignore"].

(** In every run the calls that configure the reporting of errors are
    [logging.disable(sys.maxsize)] and [warnings.filterwarnings('ignore')],
    once each and in this order, as far as the run gets; both have been
    made before any call to train.py, torch, scipy or pytorch-lightning. *)
Definition only_logging_and_warnings {Sys Rng A} (m : M Sys Rng A) : Prop :=
  forall g sy,
    let l := log (fst (m (State g sy []))) in
    (exists n, configuration_calls l = take n logging_and_warnings) /\
    (forall pre ev post,
        l = pre ++ ev :: post -> is_ml ev = true ->
        configuration_calls pre = logging_and_warnings).

(** The monitor counts the configuration calls: it allows
    [logging.disable] first, [warnings.filterwarnings('ignore')] second and
    no third, and it forbids a call to train.py, torch, scipy or
    pytorch-lightning before the two. *)
Definition config_step (n : nat) (ev : event) : option nat :=
  match ev with
  | ev_os c_logging_disable _ => if n =? 0 then Some 1 else None
  | ev_os (c_filterwarnings action) _ =>
      if (n =? 1) && String.eqb action "ignore" then Some 2 else None
  | ev_ml _ _ => if n =? 2 then Some 2 else None
  | _ => Some n
  end.

Definition cares_session (k : os_kind) : bool :=
  match k with
  | k_session => true
  | _ => false
  end.

Definition OSError (msg : string) : exn := PyExc "OSError" msg.
Definition disk_full : exn := OSError "[Errno 28] No space left on device".
Definition io_error : exn := OSError "[Errno 5] Input/output error".

(** The small world, but the disk is full: the pickling of the file list
    fails, and so does the closing of the temporary file. *)
Definition demo_world_close_fails : World (option (gmap string pyval)) Z :=
  {| w_os := fun c s =>
               match c with
               | c_pickle_dump _ _ => (s, inl disk_full)
               | c_close _ => (s, inl io_error)
               | _ => demo_os c s
               end;
     w_shell := fun _ s => (s, 0%Z);
     w_ml := demo_ml;
     w_seed := fun _ seed => seed;
     w_sum := sum_left |}.

(** A fresh kernel of the small world. *)
Definition demo_start : state (option (gmap string pyval)) Z :=
  State demo_rngs demo_sys [].

Definition is_pickle_dump (ev : event) : bool :=
  match ev with
  | ev_os (c_pickle_dump _ _) _ => true
  | _ => false
  end.

(** *** The transform, the configuration, and the place in the notebook *)

(** The Box-Cox lambda configured on hyper-parameters: the value of the
    [boxcox] attribute, when there is one and it is neither None nor
    False. *)
Definition configured_lambda (hp : gmap string pyval) : option pyval :=
  match hp !! "boxcox" with
  | None | Some py_None | Some (py_bool false) => None
  | Some v => Some v
  end.

(** What the reading of C3 by configuration keeps track of: the lambda
    configured on the hyper-parameters of the model built last, and the
    lambda with which the output of the last forward pass has yet to be
    transformed. *)
Record configured_state := CS {
  in_force : option (option pyval);
  due : option pyval }.

(** C3 as the specification words it, as a monitor.  Under a model built
    from hyper-parameters with a lambda configured, the output of a forward
    pass [model(x)] has to go through [inv_boxcox] with that lambda before
    any other call to train.py, torch, scipy or pytorch-lightning than a
    reading of [model.hparams]; where no transform is due, that is under
    hyper-parameters with no lambda configured and away from the output of
    a forward pass, [inv_boxcox] is forbidden. *)
Definition configured_step (s : configured_state) (ev : event) : option configured_state :=
  match ev with
  | ev_ml (c_get_model hp) _ =>
      match due s with
      | None => Some (CS (Some (configured_lambda hp)) None)
      | Some _ => None
      end
  | ev_ml (c_forward _ _) (inr (val_tensor _)) =>
      match due s, in_force s with
      | None, Some (Some l) => Some (CS (in_force s) (Some l))
      | None, _ => Some s
      | Some _, _ => None
      end
  | ev_ml (c_model_hparams _) _ => Some s
  | ev_ml (c_inv_boxcox _ lmbda) _ =>
      match due s with
      | Some l => if decide (lmbda = l) then Some (CS (in_force s) None) else None
      | None => None
      end
  | ev_ml _ _ =>
      match due s with
      | None => Some s
      | Some _ => None
      end
  | _ => Some s
  end.

(** C3 as the specification words it holds of [m]: the monitor accepts
    every run, from a fresh kernel and whatever the outside answers. *)
Definition transform_as_configured {Sys Rng A} (m : M Sys Rng A) : Prop :=
  forall g sy,
    is_Some (accepts configured_step (CS None None) (log (fst (m (State g sy []))))).

(** The outside as C3 takes it to be: [get_hparams] returns
    hyper-parameters with no lambda configured, and [model.hparams] has
    the [boxcox] attribute of the hyper-parameters from which the model was
    built.  The monitor keeps the [boxcox] attribute of the
    hyper-parameters of the model built last. *)
Definition faithful_step (s : option (option pyval)) (ev : event)
    : option (option (option pyval)) :=
  match ev with
  | ev_ml (c_get_hparams _) (inr (val_dict d)) =>
      if decide (configured_lambda d = None) then Some s else None
  | ev_ml (c_get_model hp) _ => Some (Some (hp !! "boxcox"))
  | ev_ml (c_model_hparams _) (inr (val_dict mh)) =>
      match s with
      | Some b => if decide (mh !! "boxcox" = b) then Some s else None
      | None => Some s
      end
  | _ => Some s
  end.

(** In every run in which the outside is as C3 takes it to be, the
    transform is applied as configured. *)
Definition as_configured_where_faithful {Sys Rng A} (m : M Sys Rng A) : Prop :=
  forall g sy,
    is_Some (accepts faithful_step None (log (fst (m (State g sy []))))) ->
    is_Some (accepts configured_step (CS None None) (log (fst (m (State g sy []))))).

(** No call to train.py, torch, scipy or pytorch-lightning among the
    events. *)
Definition no_ml (l : list event) : Prop := forall c r, ~ In (ev_ml c r) l.

(** The events [pre] have built two models and no more, the second from
    the hyper-parameters of the first after the cell that sets
    [boxcox = 0.1182] and the new checkpoint file; [l2] are the events
    since the second model was built. *)
Definition second_model (hp0 hp : gmap string pyval) (l2 pre : list event) : Prop :=
  exists l0 r0 l1 r1,
    pre = l0 ++ ev_ml (c_get_model hp0) r0 :: l1 ++ ev_ml (c_get_model hp) r1 :: l2 /\
    no_get_model l0 /\ no_get_model l1 /\ no_get_model l2 /\
    (hp = set_boxcox_4_10 hp0 \/ hp = set_boxcox_2_1 hp0).

(** The transform goes by the place in the notebook.  In every run, a call
    of [inv_boxcox] is made under the second of two models, the one built
    from hyper-parameters with [boxcox = 0.1182], and never under the
    first; its lambda is the [boxcox] attribute of [model.hparams] as read
    by the last call to train.py, torch, scipy or pytorch-lightning before
    it. *)
Definition transform_by_position {Sys Rng A} (m : M Sys Rng A) : Prop :=
  forall g sy pre t lmbda r post,
    log (fst (m (State g sy []))) = pre ++ ev_ml (c_inv_boxcox t lmbda) r :: post ->
    exists hp0 hp l2 model mh l3,
      second_model hp0 hp (l2 ++ ev_ml (c_model_hparams model) (inr (val_dict mh)) :: l3)
                   pre /\
      no_ml l3 /\
      hp !! "boxcox" = Some (py_float lit_0_1182) /\
      mh !! "boxcox" = Some lmbda.

(** What the monitor of the place has seen. *)
Definition transform_seen (s : transform_state) (pre : list event) : Prop :=
  match ph s with
  | ph_none => no_get_model pre
  | ph_plain =>
      exists hp0 l0 r0 l1,
        base s = Some hp0 /\
        pre = l0 ++ ev_ml (c_get_model hp0) r0 :: l1 /\
        no_get_model l0 /\ no_get_model l1
  | ph_boxcox | ph_forwarded =>
      exists hp0 hp l2, base s = Some hp0 /\ second_model hp0 hp l2 pre
  | ph_hparams lm =>
      exists hp0 hp l2 model mh l3,
        base s = Some hp0 /\
        second_model hp0 hp (l2 ++ ev_ml (c_model_hparams model) (inr (val_dict mh)) :: l3)
                     pre /\
        no_ml l3 /\ lm = mh !! "boxcox"
  end.

(** The three monitors side by side, in a run in which the outside is as
    C3 takes it to be. *)
Definition paired (ts : transform_state) (fs : option (option pyval))
    (cs : configured_state) : Prop :=
  (forall b, base ts = Some b -> configured_lambda b = None) /\
  match ph ts with
  | ph_none => cs = CS None None
  | ph_plain => cs = CS (Some None) None
  | ph_boxcox =>
      fs = Some (Some (py_float lit_0_1182)) /\
      cs = CS (Some (Some (py_float lit_0_1182))) None
  | ph_forwarded =>
      fs = Some (Some (py_float lit_0_1182)) /\
      cs = CS (Some (Some (py_float lit_0_1182))) (Some (py_float lit_0_1182))
  | ph_hparams lm =>
      fs = Some (Some (py_float lit_0_1182)) /\
      cs = CS (Some (Some (py_float lit_0_1182))) (Some (py_float lit_0_1182)) /\
      lm = Some (py_float lit_0_1182)
  end.

(** The small world, but [get_hparams] returns hyper-parameters with a
    Box-Cox lambda among them. *)
Definition demo_world_lambda : World (option (gmap string pyval)) Z :=
  {| w_os := demo_os;
     w_shell := fun _ s => (s, 0%Z);
     w_ml := fun c g s =>
               match c with
               | c_get_hparams kw =>
                   (g, s, inr (val_dict (<["boxcox" := py_float lit_0_1182]>
                                           (list_to_map kw))))
               | _ => demo_ml c g s
               end;
     w_seed := fun _ seed => seed;
     w_sum := sum_left |}.

(** The Python literal [5.0]. *)
Definition lit_5_0 : spec_float := S754_finite false 5 0.

(** The small world, but the model keeps hyper-parameters of its own, with
    another lambda. *)
Definition demo_world_other_lambda : World (option (gmap string pyval)) Z :=
  {| w_os := demo_os;
     w_shell := fun _ s => (s, 0%Z);
     w_ml := fun c g s =>
               match c with
               | c_model_hparams _ => (g, s, inr (val_dict {["boxcox" := py_float lit_5_0]}))
               | _ => demo_ml c g s
               end;
     w_seed := fun _ seed => seed;
     w_sum := sum_left |}.

Definition is_inv_boxcox (ev : event) : bool :=
  match ev with
  | ev_ml (c_inv_boxcox _ _) _ => true
  | _ => false
  end.

(** The hyper-parameters of a [get_model] call. *)
Definition hparams_of (ev : event) : gmap string pyval :=
  match ev with
  | ev_ml (c_get_model hp) _ => hp
  | _ => ∅
  end.

(** The lambda of an [inv_boxcox] call. *)
Definition lambda_of (ev : event) : option pyval :=
  match ev with
  | ev_ml (c_inv_boxcox _ lmbda) _ => Some lmbda
  | _ => None
  end.

(** The events under the first model of a run: from the first [get_model]
    call to the next one. *)
Definition first_model_call (l : list event) : event :=
  hd (ev_op FileNotFoundError) (snd (cut_at is_get_model l)).

Definition under_first_model (l : list event) : list event :=
  fst (cut_at is_get_model (tl (snd (cut_at is_get_model l)))).

(** A [get_model] call on hyper-parameters with a [boxcox] attribute. *)
Definition is_boxcox_model (ev : event) : bool :=
  match ev with
  | ev_ml (c_get_model hp) _ => bool_decide (is_Some (hp !! "boxcox"))
  | _ => false
  end.

(** * Properties *)

(** ** Results *)

Lemma rbind_inr {A B} (r : result A) (f : A -> result B) (b : B) :
  rbind r f = inr b -> exists a, r = inr a /\ f a = inr b.
Proof. destruct r as [e|a]; simpl; [discriminate | eauto]. Qed.

Ltac rbind_inv H :=
  let a := fresh "a" in
  let Ha := fresh "Ha" in
  apply rbind_inr in H; destruct H as (a & Ha & H).

Lemma mapM_inr {A B} (f : A -> result B) (l : list A) (l' : list B) :
  mapM f l = inr l' -> Forall2 (fun x y => f x = inr y) l l'.
Proof.
  revert l'; induction l as [|x l IH]; intros l' H; simpl in H.
  - inversion H; constructor.
  - rbind_inv H. rbind_inv H. inversion H; subst. constructor; auto.
Qed.

Lemma mapM_total {A B} (f : A -> result B) (g : A -> B) (l : list A) :
  Forall (fun x => f x = inr (g x)) l -> mapM f l = inr (map g l).
Proof.
  induction 1 as [|x l Hx _ IH]; simpl; [reflexivity|].
  rewrite Hx; simpl. rewrite IH; reflexivity.
Qed.

Lemma zipM_inr {A B C} (f : A -> B -> result C) err l1 l2 l :
  zipM f err l1 l2 = inr l -> zipped f l1 l2 l.
Proof.
  revert l2 l; induction l1 as [|x l1 IH]; intros [|y l2] l H; simpl in H;
    try discriminate.
  - inversion H; constructor.
  - rbind_inv H. rbind_inv H. inversion H; subst. constructor; auto.
Qed.

Lemma zipped_zipM {A B C} (f : A -> B -> result C) err l1 l2 l :
  zipped f l1 l2 l -> zipM f err l1 l2 = inr l.
Proof.
  induction 1 as [|x y z l1 l2 l Hz _ IH]; simpl; [reflexivity|].
  rewrite Hz; simpl. rewrite IH; reflexivity.
Qed.

Lemma zipped_lookup {A B C} (f : A -> B -> result C) l1 l2 l i :
  zipped f l1 l2 l ->
  match l1 !! i, l2 !! i, l !! i with
  | Some x, Some y, Some z => f x y = inr z
  | None, None, None => True
  | _, _, _ => False
  end.
Proof.
  intros H; revert i; induction H as [|x y z l1 l2 l Hz _ IH]; intros [|i]; simpl; auto.
  apply IH.
Qed.

Lemma zipped_length {A B C} (f : A -> B -> result C) l1 l2 l :
  zipped f l1 l2 l -> length l1 = length l /\ length l2 = length l.
Proof. induction 1; simpl; intuition congruence. Qed.

(** ** Tensors *)

Lemma has_shape_Dim {A} (ts : list (tensor A)) n s :
  has_shape (Dim ts) (n :: s) <-> length ts = n /\ Forall (fun x => has_shape x s) ts.
Proof.
  simpl. apply and_iff_compat_l.
  induction ts as [|x ts IH]; simpl.
  - split; auto.
  - rewrite IH. split.
    + intros [? ?]; constructor; auto.
    + inversion 1; auto.
Qed.

Lemma tget_tmap {A B} (f : A -> B) (t : tensor A) p :
  tget (tmap f t) p = option_map (tmap f) (tget t p).
Proof.
  revert t; induction p as [|i p IH]; intros t; simpl; [reflexivity|].
  destruct t as [a|ts]; simpl; [reflexivity|].
  rewrite list_lookup_fmap. destruct (ts !! i); simpl; auto.
Qed.

Lemma cell_tmap {A B} (f : A -> B) (t : tensor A) p :
  cell (tmap f t) p = option_map f (cell t p).
Proof.
  unfold cell. rewrite tget_tmap. destruct (tget t p) as [[a|ts]|]; reflexivity.
Qed.

Lemma tget_app {A} (t : tensor A) p q :
  tget t (p ++ q) = match tget t p with Some t' => tget t' q | None => None end.
Proof.
  revert t; induction p as [|i p IH]; intros t; simpl; [reflexivity|].
  destruct t as [a|ts]; [reflexivity|]. destruct (ts !! i); auto.
Qed.

Lemma cell_Some {A} (t : tensor A) p a :
  cell t p = Some a <-> tget t p = Some (Scalar a).
Proof.
  unfold cell. destruct (tget t p) as [[b|ts]|]; split; intros H; try discriminate;
    congruence.
Qed.

(** ** The masking statement *)

Lemma setitem_mask_Scalar {A} (t : tensor A) b v :
  setitem_mask t (Scalar b) v = inr (if b then tfill v t else t).
Proof. destruct t; reflexivity. Qed.

Lemma setitem_mask_Dim {A} (t : tensor A) ms v r :
  setitem_mask t (Dim ms) v = inr r ->
  exists ts l, t = Dim ts /\ r = Dim l /\
               zipped (fun x b => setitem_mask x b v) ts ms l.
Proof.
  destruct t as [c|ts]; simpl; [discriminate|]. intros H.
  apply rbind_inr in H. destruct H as (l & Hl & H). inversion H; subst.
  exists ts, l. repeat split. eapply zipM_inr; eauto.
Qed.

(** Where the mask has an entry, the result is the old block, filled with
    [v] when the entry is true. *)
Lemma setitem_mask_at {A} (t : tensor A) m v r p b :
  setitem_mask t m v = inr r ->
  tget m p = Some (Scalar b) ->
  exists sub, tget t p = Some sub /\
              tget r p = Some (if b then tfill v sub else sub).
Proof.
  revert t m r; induction p as [|i p IH]; intros t m r H Hm; simpl in Hm.
  - inversion Hm; subst. rewrite setitem_mask_Scalar in H. inversion H; subst.
    exists t; split; reflexivity.
  - destruct m as [c|ms]; [discriminate|].
    apply setitem_mask_Dim in H. destruct H as (ts & l & -> & -> & Hz).
    pose proof (zipped_lookup _ _ _ _ i Hz) as Hi. simpl.
    destruct (ms !! i) as [m'|]; [|discriminate].
    destruct (ts !! i) as [x|]; [|contradiction].
    destruct (l !! i) as [z|]; [|contradiction].
    eapply IH; eauto.
Qed.

(** Every entry of the indexed tensor lies under an entry of the mask. *)
Lemma setitem_mask_cover {A} (t : tensor A) m v r q a :
  setitem_mask t m v = inr r ->
  tget t q = Some (Scalar a) ->
  exists p q' b, q = p ++ q' /\ tget m p = Some (Scalar b).
Proof.
  revert t m r; induction q as [|i q IH]; intros t m r H Ht.
  - simpl in Ht. inversion Ht; subst. destruct m as [b|ms]; [|discriminate].
    exists [], [], b; auto.
  - destruct m as [b|ms].
    + exists [], (i :: q), b; auto.
    + apply setitem_mask_Dim in H. destruct H as (ts & l & -> & -> & Hz).
      pose proof (zipped_lookup _ _ _ _ i Hz) as Hi. simpl in Ht.
      destruct (ts !! i) as [x|] eqn:Hx; [|discriminate].
      destruct (ms !! i) as [m'|] eqn:Hm'; [|contradiction].
      destruct (l !! i) as [z|]; [|contradiction].
      destruct (IH _ _ _ Hi Ht) as (p & q' & b & -> & Hp).
      exists (i :: p), q', b. split; [reflexivity|]. simpl. rewrite Hm'. exact Hp.
Qed.

Lemma tmap_tmap {A B C} (f : A -> B) (g : B -> C) (t : tensor A) :
  tmap g (tmap f t) = tmap (fun a => g (f a)) t.
Proof.
  induction t as [a|ts IH] using tensor_ind; simpl; [reflexivity|].
  f_equal. rewrite map_map. apply map_ext_Forall. exact IH.
Qed.

(** The shape does not change. *)
Lemma setitem_mask_shape {A} (t : tensor A) m v r :
  setitem_mask t m v = inr r ->
  tmap (fun _ => tt) r = tmap (fun _ => tt) t.
Proof.
  revert m r; induction t as [a|ts IH] using tensor_ind; intros m r H.
  - destruct m as [b|ms]; [|discriminate]. simpl in H. inversion H; subst.
    destruct b; reflexivity.
  - destruct m as [b|ms].
    + simpl in H. inversion H; subst. destruct b; [|reflexivity].
      unfold tfill. apply tmap_tmap.
    + apply setitem_mask_Dim in H. destruct H as (ts' & l & Heq & -> & Hz).
      inversion Heq; subst ts'. simpl. f_equal.
      clear Heq. induction Hz as [|x y z l1 l2 l Hxy Hz IHz]; [reflexivity|].
      inversion IH; subst. simpl. f_equal; eauto.
Qed.

(** Masking a second time with the same mask changes nothing. *)
Lemma setitem_mask_idem {A} (t : tensor A) m v r :
  setitem_mask t m v = inr r -> setitem_mask r m v = inr r.
Proof.
  revert m r; induction t as [a|ts IH] using tensor_ind; intros m r H.
  - destruct m as [b|ms]; [|discriminate]. simpl in H. inversion H; subst.
    destruct b; reflexivity.
  - destruct m as [b|ms].
    + simpl in H. inversion H; subst. rewrite setitem_mask_Scalar.
      destruct b; [|reflexivity]. unfold tfill. rewrite tmap_tmap. reflexivity.
    + apply setitem_mask_Dim in H. destruct H as (ts' & l & Heq & -> & Hz).
      inversion Heq; subst ts'. simpl.
      erewrite zipped_zipM; [reflexivity|].
      clear Heq. induction Hz as [|x y z l1 l2 l Hxy Hz IHz]; [constructor|].
      inversion IH; subst. constructor; eauto.
Qed.

Lemma mask_prediction_nan_masked (pred y y_hat : tensor float32) :
  mask_prediction pred y = inr y_hat -> nan_masked pred y y_hat.
Proof.
  unfold mask_prediction, tisnan. intros H.
  assert (Hat : forall p a, cell y p = Some a ->
            exists sub, tget pred p = Some sub /\
                        tget y_hat p = Some (if isnan a then tfill nan sub else sub)).
  { intros p a Hy. apply cell_Some in Hy.
    eapply setitem_mask_at; eauto. rewrite tget_tmap, Hy. reflexivity. }
  repeat split.
  - exact Hat.
  - intros p a b Hy Hb. destruct (Hat p a Hy) as (sub & Hsub & Hr).
    apply cell_Some in Hb. rewrite Hb in Hsub. inversion Hsub; subst sub.
    unfold cell. rewrite Hr. destruct (isnan a); reflexivity.
  - intros q b Hb. apply cell_Some in Hb.
    destruct (setitem_mask_cover _ _ _ _ _ _ H Hb) as (p & q' & c & -> & Hp).
    rewrite tget_tmap in Hp. destruct (tget y p) as [[a|ts]|] eqn:Hy; try discriminate.
    exists p, q', a. split; [reflexivity|]. apply cell_Some; exact Hy.
  - eapply setitem_mask_shape; eauto.
Qed.

(** C10. The NaN-masking statement is idempotent: masking the prediction
    with the NaNs of [y] and then masking the result with them again gives
    what masking once gives (the same tensor, or the same error when the
    shapes do not fit). *)
Theorem mask_prediction_idempotent (y_hat y : tensor float32) :
  rbind (mask_prediction y_hat y) (fun once => mask_prediction once y)
  = mask_prediction y_hat y.
Proof.
  destruct (mask_prediction y_hat y) as [e|r] eqn:H; simpl; [reflexivity|].
  unfold mask_prediction in *. eapply setitem_mask_idem; eauto.
Qed.

Example mask_prediction_demo :
  mask_prediction (Dim [Dim [demo_pred_day]]) (Dim [Dim [demo_truth_day]])
  = inr (Dim [Dim [Dim [Dim [Scalar demo_one; Scalar nan];
                        Dim [Scalar demo_one; Scalar demo_twenty]]]]).
Proof. reflexivity. Qed.

(** ** The test-set files *)

(** C5. Every path of [test_out_files] names a [.nc] file called
    ECMWF_FWI_<YYYYMMDD>_1200_hr_fwi_e5.nc, and the lists run through
    consecutive calendar days in increasing order: the thirteen days from
    2019-04-01 to 2019-04-13 in the 4-in/10-out notebook, the two days
    2019-12-01 and 2019-12-02 in the 2-in/1-out notebook. *)
Theorem test_out_files_days :
  test_out_files_4_10
  = map (fun d => "/nvme0/fwi-reanalysis/" +:+ fwi_file_name d)
        (consecutive_days 13 (Date 2019 4 1))
  /\ last (consecutive_days 13 (Date 2019 4 1)) = Some (Date 2019 4 13)
  /\ test_out_files_2_1
     = map (fun d => "./deepfwi-mini-sample/fwi-reanalysis/" +:+ fwi_file_name d)
           (consecutive_days 2 (Date 2019 12 1))
  /\ consecutive_days 2 (Date 2019 12 1) = [Date 2019 12 1; Date 2019 12 2]
  /\ map basename test_out_files_4_10
     = map fwi_file_name (consecutive_days 13 (Date 2019 4 1))
  /\ map basename test_out_files_2_1
     = map fwi_file_name (consecutive_days 2 (Date 2019 12 1))
  /\ Forall (fun p => ends_with ".nc" p = true)
            (test_out_files_4_10 ++ test_out_files_2_1).
Proof.
  repeat split; try (vm_compute; reflexivity).
  vm_compute. repeat constructor.
Qed.

(** ** The hyper-parameter call *)

Lemma passed_names_4_10 path : kwarg_names (hparams_kwargs_4_10 path) = passed_options.
Proof. reflexivity. Qed.

Lemma passed_names_2_1 path : kwarg_names (hparams_kwargs_2_1 path) = passed_options.
Proof. reflexivity. Qed.

(** C2, as stated, fails: the call of the 4-in/10-out notebook (and the one
    of the 2-in/1-out notebook) does not pass exactly the options of the
    specification's list; [clip_fwi] is passed and is not in the list, and
    [boxcox] is in the list and is not passed. *)
Lemma get_hparams_call_not_spec_options :
  ~ passes_exactly (hparams_kwargs_4_10 "/tmp/tmpq0x1") spec_options
  /\ ~ passes_exactly (hparams_kwargs_2_1 "/tmp/tmpq0x1") spec_options
  /\ ~ In "boxcox" (kwarg_names (hparams_kwargs_4_10 "/tmp/tmpq0x1"))
  /\ ~ In "boxcox" (kwarg_names (hparams_kwargs_2_1 "/tmp/tmpq0x1")).
Proof.
  assert (Hno : ~ In "boxcox" passed_options).
  { simpl. intros H. repeat (destruct H as [H|H]; [discriminate|]). exact H. }
  repeat split.
  - intros H. apply Hno. rewrite <- (passed_names_4_10 "/tmp/tmpq0x1").
    apply H. simpl. tauto.
  - intros H. apply Hno. rewrite <- (passed_names_2_1 "/tmp/tmpq0x1").
    apply H. simpl. tauto.
  - rewrite passed_names_4_10. exact Hno.
  - rewrite passed_names_2_1. exact Hno.
Qed.

(** C2, amended. Both [get_hparams] calls pass exactly fifteen named
    options: the nine options of the specification's list other than the
    Box-Cox lambda, and [clip_fwi], [test_set], [model], [out],
    [forcings_dir], [reanalysis_dir].  The Box-Cox lambda is not passed to
    [get_hparams]: a later cell assigns [hparams.boxcox = 0.1182] on the
    namespace. *)
Theorem get_hparams_call_options (path : string) (hparams : gmap string pyval) :
  passes_exactly (hparams_kwargs_4_10 path) passed_options
  /\ passes_exactly (hparams_kwargs_2_1 path) passed_options
  /\ NoDup (kwarg_names (hparams_kwargs_4_10 path))
  /\ NoDup (kwarg_names (hparams_kwargs_2_1 path))
  /\ (forall name, In name spec_options -> name <> "boxcox" -> In name passed_options)
  /\ ~ In "boxcox" passed_options
  /\ set_boxcox_4_10 hparams !! "boxcox" = Some (py_float lit_0_1182)
  /\ set_boxcox_2_1 hparams !! "boxcox" = Some (py_float lit_0_1182).
Proof.
  assert (Hnd : NoDup passed_options).
  { apply (bool_decide_unpack (NoDup passed_options)). vm_compute. exact I. }
  split; [intros name; rewrite passed_names_4_10; tauto|].
  split; [intros name; rewrite passed_names_2_1; tauto|].
  split; [rewrite passed_names_4_10; exact Hnd|].
  split; [rewrite passed_names_2_1; exact Hnd|].
  split.
  { intros name H Hne. simpl in H.
    repeat (destruct H as [H|H]; [subst name; simpl; tauto|]). contradiction. }
  split.
  { simpl. intros H. repeat (destruct H as [H|H]; [discriminate|]). exact H. }
  unfold set_boxcox_4_10, set_boxcox_2_1, setattr.
  split; (rewrite lookup_insert_ne by discriminate; apply lookup_insert_eq).
Qed.

(** ** The case-study region *)

Lemma py_slice_lookup {A} (l : list A) lo hi i :
  py_slice lo hi l !! i = if i <? hi - lo then l !! (lo + i) else None.
Proof.
  unfold py_slice. destruct (Nat.ltb_spec i (hi - lo)) as [H|H].
  - rewrite lookup_take_lt by exact H. apply lookup_drop.
  - apply lookup_take_ge. exact H.
Qed.

Lemma getslice_entries {A} (t : tensor A) ks r :
  getslice t ks = inr r -> slice_entries t ks = inr r.
Proof. unfold getslice. destruct (too_many_indices t ks); [discriminate | auto]. Qed.

Lemma slice_entries_cons {A} (t : tensor A) k ks r :
  slice_entries t (k :: ks) = inr r ->
  exists ts l, t = Dim ts /\ r = Dim l /\
    forall i, match item_index k i with
              | Some i' =>
                  match ts !! i', l !! i with
                  | Some x, Some x' => slice_entries x ks = inr x'
                  | None, None => True
                  | _, _ => False
                  end
              | None => l !! i = None
              end.
Proof.
  destruct t as [a|ts]; simpl; [discriminate|]. intros H.
  apply rbind_inr in H. destruct H as (l & Hl & H). inversion H; subst r.
  exists ts, l. repeat split. intros i. apply mapM_inr in Hl.
  destruct k as [|lo hi]; simpl.
  - destruct (ts !! i) as [x|] eqn:Hx.
    + destruct (Forall2_lookup_l _ _ _ i x Hl Hx) as (x' & -> & Hxx). exact Hxx.
    + apply Forall2_length in Hl. apply lookup_ge_None in Hx.
      rewrite (proj2 (lookup_ge_None l i)); [exact I | lia].
  - pose proof (py_slice_lookup ts lo hi i) as Hs.
    destruct (i <? hi - lo).
    + destruct (ts !! (lo + i)) as [x|] eqn:Hx.
      * destruct (Forall2_lookup_l _ _ _ i x Hl Hs) as (x' & -> & Hxx). exact Hxx.
      * apply Forall2_length in Hl. apply lookup_ge_None in Hs.
        rewrite (proj2 (lookup_ge_None l i)); [exact I | lia].
    + apply Forall2_length in Hl. apply lookup_ge_None in Hs.
      apply lookup_ge_None. lia.
Qed.

(** An entry of a slice is the entry of the sliced tensor at the shifted
    path. *)
Lemma slice_entries_tget {A} (t : tensor A) ks r p :
  slice_entries t ks = inr r ->
  length ks <= length p ->
  tget r p = match slice_path ks p with
             | Some q => tget t q
             | None => None
             end.
Proof.
  revert t r p; induction ks as [|k ks IH]; intros t r p H Hlen.
  - simpl in H. inversion H; subst. reflexivity.
  - destruct p as [|i p]; [simpl in Hlen; lia|].
    apply slice_entries_cons in H. destruct H as (ts & l & -> & -> & Hi).
    specialize (Hi i). simpl.
    destruct (item_index k i) as [i'|].
    + destruct (ts !! i') as [x|] eqn:Hx, (l !! i) as [x'|] eqn:Hx';
        try contradiction.
      * rewrite (IH _ _ p Hi) by (simpl in Hlen; lia).
        destruct (slice_path ks p) as [q|]; simpl; [rewrite Hx|]; reflexivity.
      * destruct (slice_path ks p) as [q|]; simpl; [rewrite Hx|]; reflexivity.
    + rewrite Hi. reflexivity.
Qed.

Lemma getslice_tget {A} (t : tensor A) ks r p :
  getslice t ks = inr r ->
  length ks <= length p ->
  tget r p = match slice_path ks p with
             | Some q => tget t q
             | None => None
             end.
Proof. intros H. apply slice_entries_tget, getslice_entries, H. Qed.

Lemma getitem_tget {A} (t t0 : tensor A) k p :
  getitem t k = inr t0 -> tget t (k :: p) = tget t0 p.
Proof.
  destruct t as [a|ts]; simpl; [discriminate|].
  destruct (ts !! k); [|discriminate]. intros H; inversion H; reflexivity.
Qed.

Lemma slice_path_rows_cols i j :
  slice_path [slice_ 355 480; slice_ 400 550] [i; j]
  = if (i <? 125) && (j <? 150) then Some [355 + i; 400 + j] else None.
Proof.
  simpl. change (480 - 355) with 125. change (550 - 400) with 150.
  destruct (i <? 125), (j <? 150); reflexivity.
Qed.

Lemma cut_from_getslice {A} (t r : tensor A) :
  getslice t [slice_ 355 480; slice_ 400 550] = inr r ->
  cut_from (tget t) (tget r).
Proof.
  intros H i j.
  rewrite (getslice_tget _ _ _ [i; j] H) by (simpl; lia).
  rewrite slice_path_rows_cols. split.
  - intros Hi Hj. apply Nat.ltb_lt in Hi, Hj. rewrite Hi, Hj. reflexivity.
  - intros [Hi|Hj].
    + apply Nat.ltb_ge in Hi. rewrite Hi. reflexivity.
    + apply Nat.ltb_ge in Hj. rewrite Hj, andb_false_r. reflexivity.
Qed.

Lemma cut_from_days {A} (t r : tensor A) c :
  getslice t [all_; slice_ 355 480; slice_ 400 550] = inr r ->
  cut_from (fun p => tget t (c :: p)) (fun p => tget r (c :: p)).
Proof.
  intros H i j.
  rewrite (getslice_tget _ _ _ [c; i; j] H) by (simpl; lia).
  change (slice_path [all_; slice_ 355 480; slice_ 400 550] [c; i; j])
    with (match slice_path [slice_ 355 480; slice_ 400 550] [i; j] with
          | Some q => Some (c :: q)
          | None => None
          end).
  rewrite slice_path_rows_cols. split.
  - intros Hi Hj. apply Nat.ltb_lt in Hi, Hj. rewrite Hi, Hj. reflexivity.
  - intros [Hi|Hj].
    + apply Nat.ltb_ge in Hi. rewrite Hi. reflexivity.
    + apply Nat.ltb_ge in Hj. rewrite Hj, andb_false_r. reflexivity.
Qed.

Lemma case_region_days_cut (t t_case : tensor float32) c :
  case_region_days t = inr t_case ->
  cut_from (fun p => tget t (0 :: c :: p)) (fun p => tget t_case (c :: p)).
Proof.
  unfold case_region_days. intros H.
  apply rbind_inr in H. destruct H as (t0 & H0 & H).
  intros i j. rewrite !(getitem_tget _ _ _ _ H0).
  exact (cut_from_days _ _ c H i j).
Qed.

Lemma case_region_single_cut (t t_case : tensor float32) :
  case_region_single t = inr t_case ->
  cut_from (fun p => tget t (0 :: 0 :: p)) (tget t_case).
Proof.
  unfold case_region_single. intros H.
  apply rbind_inr in H. destruct H as (t0 & H0 & H).
  apply rbind_inr in H. destruct H as (t00 & H00 & H).
  intros i j. rewrite !(getitem_tget _ _ _ _ H0), !(getitem_tget _ _ _ _ H00).
  exact (cut_from_getslice _ _ H i j).
Qed.


(** ** Tensors of one shape *)

Lemma has_shape_Scalar {A} (t : tensor A) : has_shape t [] -> exists a, t = Scalar a.
Proof. destruct t as [a|ts]; simpl; [eauto | contradiction]. Qed.

Lemma has_shape_cons {A} (t : tensor A) n s :
  has_shape t (n :: s) ->
  exists ts, t = Dim ts /\ length ts = n /\ Forall (fun x => has_shape x s) ts.
Proof.
  destruct t as [a|ts]; [simpl; contradiction|].
  intros H. apply has_shape_Dim in H. exists ts. tauto.
Qed.

(** The rank of a tensor of a given shape. *)
Lemma rank_same_shape {A B} (t1 : tensor A) (t2 : tensor B) s :
  has_shape t1 s -> has_shape t2 s -> rank t1 = rank t2.
Proof.
  revert t1 t2; induction s as [|n s IH]; intros t1 t2 H1 H2.
  - apply has_shape_Scalar in H1, H2. destruct H1 as [a ->], H2 as [b ->]. reflexivity.
  - apply has_shape_cons in H1, H2.
    destruct H1 as (xs & -> & Hn1 & Hx), H2 as (ys & -> & Hn2 & Hy).
    destruct xs as [|x xs], ys as [|y ys]; simpl in *; try lia.
    f_equal. inversion Hx; inversion Hy; subst. apply IH; assumption.
Qed.

(** Two tensors of one shape are combined entry by entry. *)
Lemma broadcast_zip_same_shape {A B C} (f : A -> B -> C) (t1 : tensor A) (t2 : tensor B) s :
  has_shape t1 s -> has_shape t2 s ->
  exists d, broadcast_zip f t1 t2 = inr d /\ has_shape d s /\
    forall p, cell d p = match cell t1 p, cell t2 p with
                         | Some a, Some b => Some (f a b)
                         | _, _ => None
                         end.
Proof.
  revert t2 s; induction t1 as [a|xs IH] using tensor_ind; intros t2 s H1 H2.
  - destruct s; [|simpl in H1; contradiction].
    apply has_shape_Scalar in H2. destruct H2 as [b ->].
    exists (Scalar (f a b)). repeat split. intros [|i p]; reflexivity.
  - destruct s as [|n s]; [simpl in H1; contradiction|].
    apply has_shape_Dim in H1. destruct H1 as [Hn1 Hx].
    apply has_shape_cons in H2. destruct H2 as (ys & -> & Hn2 & Hy).
    assert (Hz : exists l, zipped (fun x y => broadcast_zip f x y) xs ys l /\
                   Forall (fun x => has_shape x s) l /\
                   forall i p, cell (Dim l) (i :: p)
                     = match cell (Dim xs) (i :: p), cell (Dim ys) (i :: p) with
                       | Some a, Some b => Some (f a b)
                       | _, _ => None
                       end).
    { subst n. clear - IH Hx Hy Hn2. revert ys Hy Hn2.
      induction xs as [|x xs IHxs]; intros [|y ys] Hy Hn2; simpl in Hn2; try lia.
      - exists []. repeat split; constructor.
      - inversion IH as [|? ? IHx IHrest]; subst.
        inversion Hx as [|? ? Hx1 Hx2]; subst. inversion Hy as [|? ? Hy1 Hy2]; subst.
        destruct (IHx y s Hx1 Hy1) as (d & Hd & Hds & Hdc).
        destruct (IHxs IHrest Hx2 ys Hy2 ltac:(lia)) as (l & Hl & Hls & Hlc).
        exists (d :: l). repeat split.
        + constructor; assumption.
        + constructor; assumption.
        + intros [|i] p.
          * specialize (Hdc p). unfold cell in *. simpl. exact Hdc.
          * specialize (Hlc i p). unfold cell in *. simpl in *. exact Hlc. }
    destruct Hz as (l & Hl & Hls & Hlc).
    exists (Dim l). split; [|split].
    + assert (Hgen : rbind (zipM (fun x y => broadcast_zip f x y) size_mismatch xs ys)
                           (fun l => inr (Dim l)) = inr (Dim l)).
      { rewrite (zipped_zipM _ _ _ _ _ Hl). reflexivity. }
      destruct xs as [|x [|x' xs]].
      * destruct ys; [exact Hgen | simpl in *; lia].
      * destruct ys as [|y [|y' ys]]; simpl in Hn2, Hn1; try lia.
        simpl in Hgen |- *. exact Hgen.
      * destruct ys as [|y [|y' ys]]; simpl in Hn2, Hn1; try lia.
        exact Hgen.
    + apply has_shape_Dim. split; [|exact Hls].
      apply zipped_length in Hl. lia.
    + intros [|i p]; [reflexivity|]. apply Hlc.
Qed.

Lemma elementwise_same_shape {A B C} (f : A -> B -> C) (t1 : tensor A) (t2 : tensor B) s :
  has_shape t1 s -> has_shape t2 s ->
  exists d, elementwise f t1 t2 = inr d /\ has_shape d s /\
    forall p, cell d p = match cell t1 p, cell t2 p with
                         | Some a, Some b => Some (f a b)
                         | _, _ => None
                         end.
Proof.
  intros H1 H2. unfold elementwise.
  rewrite (rank_same_shape _ _ _ H1 H2), Nat.sub_diag. simpl.
  eapply broadcast_zip_same_shape; eauto.
Qed.

Lemma has_shape_tmap {A B} (f : A -> B) (t : tensor A) s :
  has_shape t s -> has_shape (tmap f t) s.
Proof.
  revert s; induction t as [a|ts IH] using tensor_ind; intros s H.
  - destruct s; [exact I | contradiction].
  - destruct s as [|n s]; [contradiction|].
    apply has_shape_Dim in H. destruct H as [Hn Hts].
    simpl tmap. apply has_shape_Dim. split; [rewrite length_map; exact Hn|].
    apply Forall_fmap. clear Hn.
    induction Hts as [|x l Hx _ IHl]; inversion IH; subst; constructor; auto.
Qed.

(** Without dimensions of size one, [squeeze] changes nothing. *)
Lemma squeeze_no_singleton {A} (t : tensor A) s :
  has_shape t s -> Forall (fun n => n <> 1) s -> squeeze t = t.
Proof.
  revert s; induction t as [a|ts IH] using tensor_ind; intros s H Hs; [reflexivity|].
  destruct s as [|n s]; [contradiction|].
  apply has_shape_Dim in H. destruct H as [Hn Hts].
  inversion Hs as [|? ? Hn1 Hs']; subst.
  assert (Hmap : map squeeze ts = ts).
  { clear Hn1 Hs. induction Hts as [|x l Hx _ IHl]; [reflexivity|].
    inversion IH; subst. simpl. f_equal; eauto. }
  destruct ts as [|x [|x' ts]]; simpl in Hn1; try congruence.
  - simpl squeeze. simpl in Hmap. congruence.
  - change (squeeze (Dim (x :: x' :: ts))) with (Dim (map squeeze (x :: x' :: ts))).
    rewrite Hmap. reflexivity.
Qed.

(** A mask of the shape of [y] expands to itself. *)
Lemma expand_to_same_shape {A B} (m : tensor A) (y : tensor B) s :
  has_shape m s -> has_shape y s -> expand_to m y = inr m.
Proof.
  revert y s; induction m as [a|xs IH] using tensor_ind; intros y s H1 H2.
  - destruct s; [|contradiction]. apply has_shape_Scalar in H2.
    destruct H2 as [b ->]. reflexivity.
  - destruct s as [|n s]; [contradiction|].
    apply has_shape_Dim in H1. destruct H1 as [Hn1 Hx].
    apply has_shape_cons in H2. destruct H2 as (ys & -> & Hn2 & Hy).
    assert (Hz : zipped (fun x y' => expand_to x y') xs ys xs).
    { subst n. clear - IH Hx Hy Hn2. revert ys Hy Hn2.
      induction xs as [|x xs IHxs]; intros [|y ys] Hy Hn2; simpl in Hn2; try lia.
      - constructor.
      - inversion IH; inversion Hx; inversion Hy; subst.
        constructor; [eauto | apply IHxs; auto; lia]. }
    assert (Hgen : rbind (zipM (fun x y' => expand_to x y') expand_mismatch xs ys)
                         (fun l => inr (Dim l)) = inr (Dim xs)).
    { rewrite (zipped_zipM _ _ _ _ _ Hz). reflexivity. }
    destruct xs as [|x [|x' xs]].
    + exact Hgen.
    + destruct ys as [|y [|y' ys]]; simpl in Hn2, Hn1; try lia.
      simpl in Hgen |- *. exact Hgen.
    + exact Hgen.
Qed.

Lemma pick_app {X} (l1 l2 : list X) (b1 b2 : list bool) :
  length l1 = length b1 -> pick (l1 ++ l2) (b1 ++ b2) = pick l1 b1 ++ pick l2 b2.
Proof.
  revert b1; induction l1 as [|x l1 IH]; intros [|b b1] H; simpl in H; try lia.
  - reflexivity.
  - simpl. rewrite IH by lia. destruct b; reflexivity.
Qed.

Lemma flatten_length_same_shape {A B} (t1 : tensor A) (t2 : tensor B) s :
  has_shape t1 s -> has_shape t2 s -> length (flatten t1) = length (flatten t2).
Proof.
  revert t2 s; induction t1 as [a|xs IH] using tensor_ind; intros t2 s H1 H2.
  - destruct s; [|contradiction]. apply has_shape_Scalar in H2.
    destruct H2 as [b ->]. reflexivity.
  - destruct s as [|n s]; [contradiction|].
    apply has_shape_Dim in H1. destruct H1 as [Hn1 Hx].
    apply has_shape_cons in H2. destruct H2 as (ys & -> & Hn2 & Hy).
    subst n. simpl. revert ys Hy Hn2.
    induction xs as [|x xs IHxs]; intros [|y ys] Hy Hn2; simpl in Hn2; try lia.
    + reflexivity.
    + inversion IH; inversion Hx; inversion Hy; subst. simpl.
      rewrite !length_app. f_equal; [eauto | apply IHxs; auto; lia].
Qed.

(** With a mask of the shape of the tensor, [t[m]] is the entries of [t]
    where [m] is true, in row-major order. *)
Lemma select_mask_same_shape {A} (t : tensor A) (m : tensor bool) s :
  has_shape t s -> has_shape m s ->
  select_mask t m = inr (map Scalar (pick (flatten t) (flatten m))).
Proof.
  revert m s; induction t as [a|xs IH] using tensor_ind; intros m s H1 H2.
  - destruct s; [|contradiction]. apply has_shape_Scalar in H2.
    destruct H2 as [b ->]. destruct b; reflexivity.
  - destruct s as [|n s]; [contradiction|].
    apply has_shape_Dim in H1. destruct H1 as [Hn1 Hx].
    apply has_shape_cons in H2. destruct H2 as (ys & -> & Hn2 & Hy).
    subst n. simpl.
    assert (Hz : exists ls, zipM (fun x b => select_mask x b) mask_mismatch xs ys = inr ls /\
                   concat ls = map Scalar (pick (flat_map flatten xs) (flat_map flatten ys))).
    { revert ys Hy Hn2.
      induction xs as [|x xs IHxs]; intros [|y ys] Hy Hn2; simpl in Hn2; try lia.
      - exists []. split; reflexivity.
      - inversion IH as [|? ? IHx IHrest]; subst.
        inversion Hx as [|? ? Hx1 Hx2]; subst. inversion Hy as [|? ? Hy1 Hy2]; subst.
        destruct (IHxs IHrest Hx2 ys Hy2 ltac:(lia)) as (ls & Hls & Hc).
        exists (map Scalar (pick (flatten x) (flatten y)) :: ls). split.
        + simpl. rewrite (IHx y s Hx1 Hy1). simpl. rewrite Hls. reflexivity.
        + simpl. rewrite Hc, pick_app, map_app; [reflexivity|].
          eapply flatten_length_same_shape; eauto. }
    destruct Hz as (ls & -> & Hc). simpl. rewrite Hc. reflexivity.
Qed.

Lemma Forall2_seq_lookup {X} (l : list X) :
  Forall2 (fun i x => l !! i = Some x) (seq 0 (length l)) l.
Proof.
  apply Forall2_same_length_lookup_2; [apply length_seq|].
  intros i k x Hk Hx. apply lookup_seq in Hk. destruct Hk as [-> _]. exact Hx.
Qed.

Lemma Forall2_flat_map {X Y X' Y'} (R : X -> Y -> Prop) (R' : X' -> Y' -> Prop)
    (f : X -> list X') (g : Y -> list Y') l k :
  Forall2 R l k ->
  (forall x y, R x y -> Forall2 R' (f x) (g y)) ->
  Forall2 R' (flat_map f l) (flat_map g k).
Proof.
  intros H Hfg. induction H as [|x y l k Hxy _ IH]; simpl; [constructor|].
  apply Forall2_app; auto.
Qed.

(** The entries of a grid, in row-major order, are its cells at the
    positions in row-major order. *)
Lemma flatten_positions {A} (g : tensor A) h w :
  has_shape g [h; w] ->
  Forall2 (fun rc a => cell g [fst rc; snd rc] = Some a) (positions h w) (flatten g).
Proof.
  intros H. apply has_shape_cons in H. destruct H as (rows & -> & Hh & Hrows).
  subst h. unfold positions. simpl flatten.
  eapply Forall2_flat_map; [apply Forall2_seq_lookup|].
  intros r row Hr. cbv beta in Hr.
  assert (Hrow : has_shape row [w]) by (eapply Forall_lookup_1 in Hrows; eauto).
  apply has_shape_cons in Hrow. destruct Hrow as (cells & -> & Hw & Hcells).
  subst w. simpl flatten.
  assert (Hc : Forall2 (fun c x => cells !! c = Some x) (seq 0 (length cells)) cells)
    by apply Forall2_seq_lookup.
  revert Hc Hcells. generalize (seq 0 (length cells)) as cs. intros cs Hc.
  assert (Hgen : forall cs' cells',
            Forall2 (fun c x => cells !! c = Some x) cs' cells' ->
            Forall (fun x : tensor A => has_shape x []) cells' ->
            Forall2 (fun rc a => cell (Dim rows) [fst rc; snd rc] = Some a)
                    (map (fun c => (r, c)) cs') (flat_map flatten cells')).
  { induction 1 as [|c x cs' cells' Hcx _ IHc]; intros Hs; simpl; [constructor|].
    inversion Hs as [|? ? Hx Hs']; subst.
    apply has_shape_Scalar in Hx. destruct Hx as [a ->]. simpl.
    constructor; [|auto].
    unfold cell. simpl. rewrite Hr. simpl. rewrite Hcx. reflexivity. }
  intros Hcells. apply Hgen; assumption.
Qed.

Lemma pick_filter {X Y} (R : X -> Y -> Prop) (Q : X -> Prop) `{forall x, Decision (Q x)}
    (ps : list X) (l : list Y) (bs : list bool) :
  Forall2 R ps l ->
  Forall2 (fun p b => Q p <-> b = true) ps bs ->
  Forall2 R (filter Q ps) (pick l bs).
Proof.
  intros HR; revert bs; induction HR as [|p a ps l Hpa _ IH]; intros bs Hb.
  - inversion Hb; subst. constructor.
  - inversion Hb as [|? b ? bs' Hq Hb']; subst. simpl.
    destruct b.
    + rewrite filter_cons_True by (apply Hq; reflexivity). constructor; auto.
    + rewrite filter_cons_False by (intros HQ; apply Hq in HQ; discriminate). auto.
Qed.

(** The selected entries of a grid are its cells at the selected
    positions. *)
Lemma pick_selected {A} (g : tensor A) (mask : tensor bool) h w :
  has_shape g [h; w] -> has_shape mask [h; w] ->
  Forall2 (fun rc a => cell g [fst rc; snd rc] = Some a)
          (selected mask h w) (pick (flatten g) (flatten mask)).
Proof.
  intros Hg Hm. unfold selected. apply pick_filter.
  - apply flatten_positions; exact Hg.
  - eapply Forall2_impl; [apply flatten_positions; exact Hm|].
    intros rc b Hb. cbv beta in Hb. rewrite Hb. split; congruence.
Qed.

(** ** The accuracy figure *)

Lemma flatten_map_Scalar {A} (l : list A) : flat_map flatten (map Scalar l) = l.
Proof. induction l as [|a l IH]; simpl; congruence. Qed.

Lemma percent_selected_same_shape sum (close mask : tensor bool) s :
  has_shape close s -> has_shape mask s ->
  percent_selected sum close mask
  = inr (Scalar
           (let ind := map float_of_bool (pick (flatten close) (flatten mask)) in
            f32_mul (f32_div (sum ind) (f32_of_Z (Z.of_nat (length ind)))) (f32_of_Z 100))).
Proof.
  intros Hc Hm. unfold percent_selected, getitem_mask.
  rewrite (select_mask_same_shape _ _ _ Hc Hm). simpl.
  unfold tmean, tfloat. simpl flatten.
  rewrite map_map. simpl tmap.
  rewrite <- (map_map float_of_bool Scalar), flatten_map_Scalar. reflexivity.
Qed.

Lemma Forall2_map_eq {X Y Z} (f : X -> Z) (g : Y -> Z) l k :
  Forall2 (fun x y => f x = g y) l k -> map f l = map g k.
Proof. induction 1; simpl; congruence. Qed.

(** The entries of the difference tensor that the mask selects give the
    indicator of the specification at the selected positions. *)
Lemma indicators_selected (y y_hat d g : tensor float32) (mask : tensor bool) h w i :
  (forall p, cell d p = match cell y p, cell y_hat p with
                        | Some a, Some b => Some (f32_sub a b)
                        | _, _ => None
                        end) ->
  (forall p, tget g p = tget d (0 :: i :: p)) ->
  has_shape g [h; w] -> has_shape mask [h; w] ->
  map float_of_bool (pick (flatten (tlt_9_4 (tabs g))) (flatten mask))
  = map (indicator_at y y_hat i) (selected mask h w).
Proof.
  intros Hd Hg Hs Hm. symmetry. apply Forall2_map_eq.
  eapply Forall2_impl.
  - apply pick_selected; [|exact Hm].
    unfold tlt_9_4, tabs. apply has_shape_tmap, has_shape_tmap. exact Hs.
  - intros [r c] b Hb. simpl in Hb. unfold tlt_9_4, tabs in Hb.
    rewrite !cell_tmap in Hb.
    destruct (cell g [r; c]) as [v|] eqn:Hv; [|discriminate].
    simpl in Hb. inversion Hb; subst b.
    assert (Hv' : cell d [0; i; r; c] = Some v).
    { unfold cell in *. rewrite <- Hg. exact Hv. }
    rewrite Hd in Hv'. unfold indicator_at. simpl fst; simpl snd.
    destruct (cell y [0; i; r; c]) as [a|]; [|discriminate].
    destruct (cell y_hat [0; i; r; c]) as [b|]; [|discriminate].
    inversion Hv'; subst v. reflexivity.
Qed.

Lemma accuracy_day_spec sum (y y_hat : tensor float32) (mask : tensor bool) n h w i :
  has_shape y [1; n; h; w] -> has_shape y_hat [1; n; h; w] -> has_shape mask [h; w] ->
  n <> 1 -> h <> 1 -> w <> 1 -> i < n ->
  accuracy_day sum y y_hat mask i
  = inr (Scalar (accuracy_spec sum y y_hat mask h w i)).
Proof.
  intros Hy Hh Hm Hn1 Hh1 Hw1 Hi.
  destruct (elementwise_same_shape f32_sub _ _ _ Hy Hh) as (d & Hd & Hds & Hdc).
  unfold accuracy_day, close_day, tsub. rewrite Hd. simpl rbind.
  apply has_shape_cons in Hds. destruct Hds as (l0 & -> & Hl0 & Hd0).
  destruct l0 as [|d0 [|? ?]]; simpl in Hl0; try lia.
  inversion Hd0 as [|? ? Hd0s _]; subst.
  change (squeeze (Dim [d0])) with (squeeze d0).
  rewrite (squeeze_no_singleton d0 [n; h; w] Hd0s) by (repeat constructor; assumption).
  apply has_shape_cons in Hd0s. destruct Hd0s as (days & -> & Hdays & Hg).
  destruct (lookup_lt_is_Some_2 days i ltac:(lia)) as [g Hgi].
  simpl getitem. rewrite Hgi. simpl rbind.
  assert (Hgs : has_shape g [h; w]) by (eapply Forall_lookup_1 in Hg; eauto).
  rewrite (percent_selected_same_shape sum _ mask [h; w]); [|
    unfold tlt_9_4, tabs; apply has_shape_tmap, has_shape_tmap; exact Hgs | exact Hm].
  cbv zeta. unfold accuracy_spec. cbv zeta.
  rewrite (indicators_selected y y_hat (Dim [Dim days]) g mask h w i); auto.
  intros p. simpl. rewrite Hgi. reflexivity.
Qed.

Lemma expand_as_batch (mask : tensor bool) (y : tensor float32) h w :
  has_shape y [1; 1; h; w] -> has_shape mask [h; w] ->
  expand_as mask y = inr (Dim [Dim [mask]]).
Proof.
  intros Hy Hm.
  apply has_shape_cons in Hy. destruct Hy as (l0 & -> & Hl0 & Hy0).
  destruct l0 as [|y0 [|? ?]]; simpl in Hl0; try lia.
  inversion Hy0 as [|? ? Hy0s _]; subst.
  apply has_shape_cons in Hy0s. destruct Hy0s as (l1 & -> & Hl1 & Hy1).
  destruct l1 as [|y00 [|? ?]]; simpl in Hl1; try lia.
  inversion Hy1 as [|? ? Hy00 _]; subst.
  unfold expand_as. simpl rank.
  rewrite <- (rank_same_shape _ _ _ Hm Hy00).
  replace (rank mask <=? S (S (rank mask))) with true
    by (symmetry; apply Nat.leb_le; lia).
  replace (S (S (rank mask)) - rank mask) with 2 by lia.
  simpl. rewrite (expand_to_same_shape _ _ _ Hm Hy00). reflexivity.
Qed.

Lemma accuracy_all_spec sum (y y_hat : tensor float32) (mask : tensor bool) h w :
  has_shape y [1; 1; h; w] -> has_shape y_hat [1; 1; h; w] -> has_shape mask [h; w] ->
  accuracy_all sum y y_hat mask
  = inr (Scalar (accuracy_spec sum y y_hat mask h w 0)).
Proof.
  intros Hy Hh Hm.
  destruct (elementwise_same_shape f32_sub _ _ _ Hy Hh) as (d & Hd & Hds & Hdc).
  unfold accuracy_all, close_all, tsub. rewrite Hd. simpl rbind.
  rewrite (expand_as_batch _ _ _ _ Hy Hm). simpl rbind.
  assert (Hms : has_shape (Dim [Dim [mask]]) [1; 1; h; w]).
  { apply has_shape_Dim; split; [reflexivity|]. constructor; [|constructor].
    apply has_shape_Dim; split; [reflexivity|]. constructor; [exact Hm|constructor]. }
  rewrite (percent_selected_same_shape sum _ _ [1; 1; h; w]); [|
    unfold tlt_9_4, tabs; apply has_shape_tmap, has_shape_tmap; exact Hds | exact Hms].
  apply has_shape_cons in Hds. destruct Hds as (l0 & -> & Hl0 & Hd0).
  destruct l0 as [|d0 [|? ?]]; simpl in Hl0; try lia.
  inversion Hd0 as [|? ? Hd0s _]; subst.
  apply has_shape_cons in Hd0s. destruct Hd0s as (l1 & -> & Hl1 & Hd1).
  destruct l1 as [|g [|? ?]]; simpl in Hl1; try lia.
  inversion Hd1 as [|? ? Hgs _]; subst.
  cbv zeta. unfold accuracy_spec. cbv zeta.
  rewrite <- (indicators_selected y y_hat (Dim [Dim [g]]) g mask h w 0); auto.
  simpl. rewrite !app_nil_r. reflexivity.
Qed.


(** ** Reasoning about notebook code against a monitor *)

Section Triples.
Context {S Sys Rng : Type}.
Variable step : S -> event -> option S.
Variable E : exn -> S -> Prop.
Variable w : World Sys Rng.

Lemma accepts_app s l1 l2 :
  accepts step s (l1 ++ l2)
  = match accepts step s l1 with
    | Some s' => accepts step s' l2
    | None => None
    end.
Proof.
  revert s; induction l1 as [|ev l1 IH]; intros s; simpl; [reflexivity|].
  destruct (step s ev); auto.
Qed.

Lemma triple_ret {A} s (a : A) (Q : A -> S -> Prop) :
  Q a s -> triple step E s (@ret Sys Rng A a) Q.
Proof.
  intros HQ st. exists [], s. simpl. rewrite app_nil_r. auto.
Qed.

Lemma triple_bind {A B} s (m : M Sys Rng A) (f : A -> M Sys Rng B) Q R :
  triple step E s m Q ->
  (forall a s', Q a s' -> triple step E s' (f a) R) ->
  triple step E s (bind m f) R.
Proof.
  intros Hm Hf st. destruct (Hm st) as (new & s' & Hlog & Hacc & Hres).
  unfold bind. destruct (m st) as [st1 [e|a]]; simpl in *.
  - exists new, s'. auto.
  - destruct (Hf a s' Hres st1) as (new2 & s2 & Hlog2 & Hacc2 & Hres2).
    exists (new ++ new2), s2. rewrite Hlog2, Hlog, app_assoc, accepts_app, Hacc. auto.
Qed.

Lemma triple_conseq {A} s (m : M Sys Rng A) (Q Q' : A -> S -> Prop) :
  triple step E s m Q -> (forall a s', Q a s' -> Q' a s') -> triple step E s m Q'.
Proof.
  intros Hm HQ st. destruct (Hm st) as (new & s' & Hlog & Hacc & Hres).
  exists new, s'. repeat split; auto. destruct (snd (m st)); auto.
Qed.

Lemma triple_of_stable {A} s (m : M Sys Rng A) (Q : A -> S -> Prop) :
  stable step E s m -> (forall a, Q a s) -> triple step E s m Q.
Proof. intros Hm HQ. eapply triple_conseq; [exact Hm|]. intros a s' ->. apply HQ. Qed.

(** A call whose answer the monitor reads. *)
Lemma triple_os s c (Q : value -> S -> Prop) :
  (forall r, exists s', step s (ev_os c r) = Some s' /\
                        match r with inr a => Q a s' | inl e => E e s' end) ->
  triple step E s (os w c) Q.
Proof.
  intros H st. unfold os. destruct (w_os w c (sys st)) as [s1 r].
  destruct (H r) as (s' & Hs & Hr). exists [ev_os c r], s'.
  simpl. rewrite Hs. auto.
Qed.

Lemma triple_ml s c (Q : value -> S -> Prop) :
  (forall r, exists s', step s (ev_ml c r) = Some s' /\
                        match r with inr a => Q a s' | inl e => E e s' end) ->
  triple step E s (ml w c) Q.
Proof.
  intros H st. unfold ml. destruct (w_ml w c (gens st) (sys st)) as [[g1 s1] r].
  destruct (H r) as (s' & Hs & Hr). exists [ev_ml c r], s'.
  simpl. rewrite Hs. auto.
Qed.

Lemma triple_manual_seed s g z (Q : unit -> S -> Prop) :
  (exists s', step s (ev_seed g z) = Some s' /\ Q tt s') ->
  triple step E s (manual_seed w g z) Q.
Proof.
  intros (s' & Hs & HQ) st. exists [ev_seed g z], s'. simpl. rewrite Hs. auto.
Qed.

Lemma triple_cuda_is_available s (Q : bool -> S -> Prop) :
  (forall b, exists s', step s (ev_cuda_is_available b) = Some s' /\ Q b s') ->
  triple step E s (@cuda_is_available Sys Rng) Q.
Proof.
  intros H st. unfold cuda_is_available.
  set (b := match rng_cuda (gens st) with Some _ => true | None => false end).
  destruct (H b) as (s' & Hs & HQ).
  exists [ev_cuda_is_available b], s'. simpl. rewrite Hs. auto.
Qed.

(** *** Code that leaves the monitor where it is *)

Lemma stable_ret {A} s (a : A) : stable step E s (@ret Sys Rng A a).
Proof. apply triple_ret. reflexivity. Qed.

Lemma stable_bind {A B} s (m : M Sys Rng A) (f : A -> M Sys Rng B) :
  stable step E s m -> (forall a, stable step E s (f a)) ->
  stable step E s (bind m f).
Proof.
  intros Hm Hf. eapply triple_bind; [exact Hm|]. intros a s' ->. apply Hf.
Qed.

Lemma stable_raise {A} s e : quiet step E s -> stable step E s (@raise Sys Rng A e).
Proof.
  intros (_ & _ & Hop & _) st. destruct (Hop e) as (s' & Hs & He).
  exists [ev_op e], s'. simpl. rewrite Hs. auto.
Qed.

Lemma stable_lift {A} s (r : result A) : quiet step E s -> stable step E s (@lift Sys Rng A r).
Proof. intros Hq. destruct r; [apply stable_raise; exact Hq | apply stable_ret]. Qed.

Lemma stable_os s c : quiet step E s -> stable step E s (os w c).
Proof.
  intros (Hok & Herr & _). apply triple_os. intros [e|a].
  - apply Herr.
  - exists s. auto.
Qed.

Lemma stable_shell s cmd : quiet step E s -> stable step E s (shell w cmd).
Proof.
  intros (_ & _ & _ & Hsh & _) st. unfold shell.
  destruct (w_shell w cmd (sys st)) as [s1 z].
  exists [ev_shell cmd z], s. simpl. rewrite Hsh. auto.
Qed.

Lemma stable_ml s c : ml_quiet step E s c -> stable step E s (ml w c).
Proof.
  intros (Hok & Herr). apply triple_ml. intros [e|a].
  - apply Herr.
  - exists s. auto.
Qed.

Lemma stable_for {X} s (l : list X) (body : X -> M Sys Rng unit) :
  (forall x, stable step E s (body x)) -> stable step E s (for_ l body).
Proof.
  intros Hb. induction l as [|x l IH]; simpl.
  - apply stable_ret.
  - apply stable_bind; auto.
Qed.

Lemma triple_with_file {A} s file (body : M Sys Rng A) (Q : A -> S -> Prop) :
  quiet step E s ->
  stable step E s body ->
  (forall a, Q a s) ->
  triple step E s (with_file w file body) Q.
Proof.
  intros Hq Hb HQ st. destruct (Hb st) as (new & s1 & Hlog & Hacc & Hres).
  unfold with_file, os.
  destruct (body st) as [st1 r]; simpl in *.
  destruct (w_os w (c_close file) (sys st1)) as [sy2 r2].
  destruct Hq as (Hok & Herr & _ & _ & Hclose).
  destruct r as [e|a].
  - destruct (Hclose e s1 Hres file r2) as (s2 & Hs2 & Hr2).
    exists (new ++ [ev_os (c_close file) r2]), s2.
    destruct r2 as [e2|v2]; simpl; rewrite Hlog, app_assoc, accepts_app, Hacc;
      simpl; rewrite Hs2; auto.
  - subst s1. destruct r2 as [e2|v2].
    + destruct (Herr (c_close file) e2) as (s2 & Hs2 & He2).
      exists (new ++ [ev_os (c_close file) (inl e2)]), s2.
      simpl. rewrite Hlog, app_assoc, accepts_app, Hacc. simpl. rewrite Hs2. auto.
    + exists (new ++ [ev_os (c_close file) (inr v2)]), s.
      simpl. rewrite Hlog, app_assoc, accepts_app, Hacc. simpl. rewrite Hok. auto.
Qed.

Lemma stable_as_str s v : quiet step E s -> stable step E s (@as_str Sys Rng v).
Proof.
  intros Hq. destruct v as [|[]| | | | | |]; simpl;
    first [apply stable_ret | apply stable_raise; exact Hq].
Qed.

Lemma stable_as_dict s v : quiet step E s -> stable step E s (@as_dict Sys Rng v).
Proof.
  intros Hq. destruct v; simpl; first [apply stable_ret | apply stable_raise; exact Hq].
Qed.

Lemma stable_as_obj s v : quiet step E s -> stable step E s (@as_obj Sys Rng v).
Proof.
  intros Hq. destruct v; simpl; first [apply stable_ret | apply stable_raise; exact Hq].
Qed.

Lemma stable_as_tensor s v : quiet step E s -> stable step E s (@as_tensor Sys Rng v).
Proof.
  intros Hq. destruct v; simpl; first [apply stable_ret | apply stable_raise; exact Hq].
Qed.

Lemma stable_as_mask s v : quiet step E s -> stable step E s (@as_mask Sys Rng v).
Proof.
  intros Hq. destruct v; simpl; first [apply stable_ret | apply stable_raise; exact Hq].
Qed.

Lemma stable_as_sample s v : quiet step E s -> stable step E s (@as_sample Sys Rng v).
Proof.
  intros Hq. destruct v; simpl; first [apply stable_ret | apply stable_raise; exact Hq].
Qed.

Lemma stable_getattr s ns name : quiet step E s -> stable step E s (@getattr Sys Rng ns name).
Proof.
  intros Hq. unfold getattr. destruct (ns !! name);
    first [apply stable_ret | apply stable_raise; exact Hq].
Qed.

Lemma stable_getitem_checkpoint s v key :
  quiet step E s -> stable step E s (@getitem_checkpoint Sys Rng v key).
Proof.
  intros Hq. unfold getitem_checkpoint. destruct v; try (apply stable_raise; exact Hq).
  destruct (d !! key); first [apply stable_ret | apply stable_raise; exact Hq].
Qed.

Lemma stable_py_range s n : quiet step E s -> stable step E s (@py_range Sys Rng n).
Proof.
  intros Hq. destruct n; simpl; first [apply stable_ret | apply stable_raise; exact Hq].
Qed.

Lemma stable_py_mul_4 s n : quiet step E s -> stable step E s (@py_mul_4 Sys Rng n).
Proof.
  intros Hq. destruct n; simpl; first [apply stable_ret | apply stable_raise; exact Hq].
Qed.
End Triples.

(** *** The cells against a monitor *)

Ltac stable_step Hq :=
  first
    [ apply stable_ret
    | apply stable_bind; [|intros]
    | apply stable_for; intros
    | apply stable_os; exact Hq
    | apply stable_shell; exact Hq
    | apply stable_lift; exact Hq
    | apply stable_raise; exact Hq
    | apply stable_as_str; exact Hq
    | apply stable_as_dict; exact Hq
    | apply stable_as_obj; exact Hq
    | apply stable_as_tensor; exact Hq
    | apply stable_as_mask; exact Hq
    | apply stable_as_sample; exact Hq
    | apply stable_getattr; exact Hq
    | apply stable_getitem_checkpoint; exact Hq
    | apply stable_py_range; exact Hq
    | apply stable_py_mul_4; exact Hq
    | apply stable_ml; solve [auto]
    | solve [auto]
    | match goal with
      | |- stable _ _ _ (if ?b then _ else _) => destruct b
      | |- stable _ _ _ (let '(_, _) := ?p in _) => destruct p
      | |- stable _ _ _ (match ?x with _ => _ end) => destruct x
      end ].

Ltac stable_tac Hq := repeat stable_step Hq.

Section Cells.
Context {S Sys Rng : Type}.
Variable step : S -> event -> option S.
Variable E : exn -> S -> Prop.
Variable w : World Sys Rng.
Variable s : S.
Hypothesis Hq : quiet step E s.

Lemma stable_import_ module : stable step E s (import_ w module).
Proof. unfold import_. stable_tac Hq. Qed.

Lemma stable_enter_src : stable step E s (enter_src w).
Proof. unfold enter_src. stable_tac Hq. Qed.

Lemma stable_imports : stable step E s (imports w).
Proof. unfold imports. pose proof stable_import_. stable_tac Hq. Qed.

Lemma stable_autoreload : stable step E s (autoreload w).
Proof. unfold autoreload. stable_tac Hq. Qed.

Lemma stable_download : stable step E s (download w).
Proof. unfold download. stable_tac Hq. Qed.

Lemma stable_pickle_test_set files : stable step E s (pickle_test_set w files).
Proof.
  unfold pickle_test_set. stable_tac Hq.
  apply triple_with_file; [exact Hq | | reflexivity]. stable_tac Hq.
Qed.

Lemma stable_plot im title : stable step E s (plot w im title).
Proof. unfold plot. stable_tac Hq. Qed.

Lemma stable_plot_inputs hparams x title : stable step E s (plot_inputs w hparams x title).
Proof. unfold plot_inputs. stable_tac Hq. Qed.

Lemma stable_show_truth_4_10 hparams text y :
  stable step E s (show_truth_4_10 w hparams text y).
Proof. unfold show_truth_4_10. pose proof stable_plot. stable_tac Hq. Qed.

Lemma stable_show_prediction_4_10 hparams text mask y y_hat :
  stable step E s mask ->
  stable step E s (show_prediction_4_10 w hparams text mask y y_hat).
Proof. intros Hm. unfold show_prediction_4_10. pose proof stable_plot. stable_tac Hq. Qed.

Lemma stable_show_error_4_10 hparams text mask y y_hat :
  stable step E s mask ->
  stable step E s (show_error_4_10 w hparams text mask y y_hat).
Proof. intros Hm. unfold show_error_4_10. pose proof stable_plot. stable_tac Hq. Qed.

Lemma stable_show_truth_2_1 text y : stable step E s (show_truth_2_1 w text y).
Proof. unfold show_truth_2_1. apply stable_plot. Qed.

Lemma stable_show_prediction_2_1 text mask y y_hat :
  stable step E s mask ->
  stable step E s (show_prediction_2_1 w text mask y y_hat).
Proof. intros Hm. unfold show_prediction_2_1. pose proof stable_plot. stable_tac Hq. Qed.

Lemma stable_show_error_2_1 text mask y y_hat :
  stable step E s mask ->
  stable step E s (show_error_2_1 w text mask y y_hat).
Proof. intros Hm. unfold show_error_2_1. pose proof stable_plot. stable_tac Hq. Qed.

Lemma stable_data_mask model :
  ml_quiet step E s (c_data_mask model) -> stable step E s (data_mask w model).
Proof. intros Hm. unfold data_mask. stable_tac Hq. Qed.

Lemma stable_first_sample model :
  ml_quiet step E s (c_data_getitem model 0) -> stable step E s (first_sample w model).
Proof. intros Hm. unfold first_sample. stable_tac Hq. Qed.

Lemma stable_case_study region model y y_hat :
  ml_quiet step E s (c_data_mask model) ->
  stable step E s (case_study w region model y y_hat).
Proof. intros Hm. unfold case_study. pose proof stable_data_mask. stable_tac Hq. Qed.

Lemma stable_manual_inference model :
  ml_quiet step E s (c_data_getitem model 0) ->
  (forall x, ml_quiet step E s (c_forward model x)) ->
  stable step E s (manual_inference w model).
Proof.
  intros Hd Hf. unfold manual_inference. pose proof stable_first_sample.
  stable_tac Hq.
Qed.

Lemma stable_boxcox_inference model :
  ml_quiet step E s (c_data_getitem model 0) ->
  (forall x, ml_quiet step E s (c_forward model x)) ->
  ml_quiet step E s (c_model_hparams model) ->
  (forall t lmbda, ml_quiet step E s (c_inv_boxcox t lmbda)) ->
  stable step E s (boxcox_inference w model).
Proof.
  intros Hd Hf Hh Hb. unfold boxcox_inference. pose proof stable_first_sample.
  stable_tac Hq.
Qed.

Lemma stable_bulk_inference hparams model :
  (forall gpus, ml_quiet step E s (c_Trainer gpus)) ->
  (forall trainer, ml_quiet step E s (c_trainer_test trainer model)) ->
  stable step E s (bulk_inference w hparams model).
Proof.
  intros Ht Hr. unfold bulk_inference. eapply triple_conseq.
  - stable_tac Hq.
  - auto.
Qed.

Lemma stable_knobs kwargs :
  ml_quiet step E s (c_get_hparams kwargs) -> stable step E s (knobs w kwargs).
Proof. intros Hk. unfold knobs. stable_tac Hq. Qed.

Lemma stable_prepare_model hparams :
  ml_quiet step E s (c_get_model hparams) ->
  (forall file, ml_quiet step E s (c_torch_load file)) ->
  (forall model sd, ml_quiet step E s (c_load_state_dict model sd)) ->
  (forall model, ml_quiet step E s (c_eval model)) ->
  stable step E s (prepare_model w hparams).
Proof. intros Hg Hl Hs He. unfold prepare_model. stable_tac Hq. Qed.

Lemma stable_seeding :
  (forall g z, step s (ev_seed g z) = Some s) ->
  (forall b, step s (ev_cuda_is_available b) = Some s) ->
  stable step E s (seeding w).
Proof.
  intros Hs Hc. unfold seeding.
  assert (Hseed : forall g z, stable step E s (manual_seed w g z)).
  { intros g z. apply triple_manual_seed. exists s. auto. }
  assert (Hcuda : stable step E s (@cuda_is_available Sys Rng)).
  { apply triple_cuda_is_available. intros b. exists s. auto. }
  stable_tac Hq.
Qed.
End Cells.

(** ** Errors propagate *)

Lemma quiet_propagate : quiet propagate_step in_flight None.
Proof.
  unfold quiet, in_flight. repeat split.
  - intros c e. exists (Some e). split; reflexivity.
  - intros e. exists (Some e). split; reflexivity.
  - intros e s1 -> f r. simpl. destruct r as [e2|v]; eexists; split; reflexivity.
Qed.

Lemma ml_quiet_propagate c : ml_quiet propagate_step in_flight None c.
Proof.
  split.
  - reflexivity.
  - intros e. exists (Some e). split; reflexivity.
Qed.

Create HintDb notebook.

#[local] Hint Resolve quiet_propagate ml_quiet_propagate : notebook.
#[local] Hint Resolve stable_enter_src stable_imports stable_autoreload stable_download
  stable_pickle_test_set stable_plot stable_plot_inputs stable_show_truth_4_10
  stable_show_prediction_4_10 stable_show_error_4_10 stable_show_truth_2_1
  stable_show_prediction_2_1 stable_show_error_2_1 stable_data_mask stable_first_sample
  stable_case_study stable_manual_inference stable_boxcox_inference
  stable_bulk_inference stable_knobs stable_prepare_model stable_seeding stable_ret
  : notebook.

Ltac notebook_step :=
  first
    [ apply stable_bind; [solve [auto 6 with notebook]|intros]
    | solve [auto 6 with notebook]
    | match goal with
      | |- stable _ _ _ (let '(_, _) := ?p in _) => destruct p
      end ].

Section Propagation.
Context {Sys Rng : Type}.
Variable w : World Sys Rng.

Lemma stable_propagate_4_10 : stable propagate_step in_flight None (notebook_4_10 w).
Proof. unfold notebook_4_10. repeat notebook_step. Qed.

Lemma stable_propagate_2_1 : stable propagate_step in_flight None (notebook_2_1 w).
Proof. unfold notebook_2_1. repeat notebook_step. Qed.
End Propagation.

Lemma accepts_propagate_quiet l s s' :
  accepts propagate_step s l = Some s' ->
  (forall ev, In ev l -> raised ev = None) -> s' = s.
Proof.
  revert s; induction l as [|ev l IH]; intros s H Hn; simpl in H.
  - congruence.
  - assert (Hev : raised ev = None) by (apply Hn; left; reflexivity).
    destruct s as [e|]; simpl in H.
    + destruct (is_close ev); [|discriminate]. rewrite Hev in H.
      apply IH in H; auto. intros; apply Hn; right; assumption.
    + rewrite Hev in H. apply IH in H; auto. intros; apply Hn; right; assumption.
Qed.


(** ** The model is prepared before any forward pass *)

Lemma quiet_prepare s : quiet prepare_step any_state s.
Proof.
  unfold quiet, any_state. repeat split; try reflexivity.
  - intros c e. exists s. split; reflexivity || exact I.
  - intros e. exists s. split; reflexivity || exact I.
  - intros e s1 _ f r. exists s1. split; [reflexivity | destruct r; exact I].
Qed.

Ltac ml_quiet_tac :=
  split; [ intros a; try reflexivity
         | intros e; eexists; split; [try reflexivity | exact I] ].

Lemma ml_quiet_prepare_get_hparams s kw : ml_quiet prepare_step any_state s (c_get_hparams kw).
Proof. ml_quiet_tac. Qed.

Lemma ml_quiet_prepare_data_getitem s m i :
  ml_quiet prepare_step any_state s (c_data_getitem m i).
Proof. ml_quiet_tac. Qed.

Lemma ml_quiet_prepare_data_mask s m : ml_quiet prepare_step any_state s (c_data_mask m).
Proof. ml_quiet_tac. Qed.

Lemma ml_quiet_prepare_model_hparams s m :
  ml_quiet prepare_step any_state s (c_model_hparams m).
Proof. ml_quiet_tac. Qed.

Lemma ml_quiet_prepare_inv_boxcox s t lmbda :
  ml_quiet prepare_step any_state s (c_inv_boxcox t lmbda).
Proof. ml_quiet_tac. Qed.

Lemma ml_quiet_prepare_Trainer s gpus : ml_quiet prepare_step any_state s (c_Trainer gpus).
Proof. ml_quiet_tac. Qed.

Lemma ml_quiet_prepare_forward m x : ml_quiet prepare_step any_state (ready m) (c_forward m x).
Proof.
  split.
  - intros a. simpl. destruct (decide (m = m)); [reflexivity | contradiction].
  - intros e. exists (ready m). simpl.
    destruct (decide (m = m)); [split; [reflexivity | exact I] | contradiction].
Qed.

Lemma ml_quiet_prepare_trainer_test m tr :
  ml_quiet prepare_step any_state (ready m) (c_trainer_test tr m).
Proof.
  split.
  - intros a. simpl. destruct (decide (m = m)); [reflexivity | contradiction].
  - intros e. exists (ready m). simpl.
    destruct (decide (m = m)); [split; [reflexivity | exact I] | contradiction].
Qed.

Lemma seed_quiet_prepare s g z : prepare_step s (ev_seed g z) = Some s.
Proof. reflexivity. Qed.

Lemma cuda_quiet_prepare s b : prepare_step s (ev_cuda_is_available b) = Some s.
Proof. reflexivity. Qed.

Section Prepare.
Context {Sys Rng : Type}.
Variable w : World Sys Rng.

Lemma triple_bind_stable {S A B} (step : S -> event -> option S) E s
    (m : M Sys Rng A) (f : A -> M Sys Rng B) R :
  stable step E s m ->
  (forall a, triple step E s (f a) R) ->
  triple step E s (bind m f) R.
Proof. intros Hm Hf. eapply triple_bind; [exact Hm|]. intros a s' ->. apply Hf. Qed.

End Prepare.

Ltac exec_step w :=
  match goal with
  | |- context [w_ml w ?c ?g ?s] =>
      destruct (w_ml w c g s) as [[? ?] [?|?]]
  | |- context [w_os w ?c ?s] =>
      destruct (w_os w c s) as [? [?|?]]
  | |- context [@getattr _ _ ?h ?n] =>
      unfold getattr; destruct (h !! n) eqn:?
  | |- context [@as_obj _ _ ?v] => destruct v
  | |- context [@as_dict _ _ ?v] => destruct v
  | |- context [@as_tensor _ _ ?v] => destruct v
  | |- context [@as_sample _ _ ?v] => destruct v
  | |- context [@getitem_checkpoint _ _ ?v ?k] =>
      unfold getitem_checkpoint; destruct v
  | |- context [match ?d !! ?k with Some _ => _ | None => _ end] =>
      destruct (d !! k) eqn:?
  | |- context [@lift _ _ _ ?r] => destruct r eqn:?
  end; simpl.

Ltac monitor_simpl :=
  repeat (simpl;
          repeat match goal with
                 | H : ?d !! ?k = _ |- context [?d !! ?k] => rewrite H
                 end;
          rewrite ?decide_True by auto).

Ltac leaf :=
  eexists _, _; split;
  [ rewrite <- ?app_assoc; reflexivity
  | split; [monitor_simpl; reflexivity | try exact I; try reflexivity] ].

#[local] Hint Resolve quiet_prepare ml_quiet_prepare_get_hparams
  ml_quiet_prepare_data_getitem ml_quiet_prepare_data_mask
  ml_quiet_prepare_model_hparams ml_quiet_prepare_inv_boxcox ml_quiet_prepare_Trainer
  ml_quiet_prepare_forward ml_quiet_prepare_trainer_test seed_quiet_prepare
  cuda_quiet_prepare : notebook.

Ltac triple_step :=
  first
    [ apply triple_bind_stable; [solve [auto 6 with notebook] | intros]
    | match goal with
      | |- triple _ _ _ (let '(_, _) := ?p in _) _ => destruct p
      end ].

Section PrepareNotebooks.
Context {Sys Rng : Type}.
Variable w : World Sys Rng.

(** The cell "Preparing the model" takes the monitor to [ready]. *)
Lemma triple_prepare_model s hparams :
  triple prepare_step any_state s (prepare_model w hparams)
         (fun model s' => s' = ready model).
Proof.
  intros st. unfold prepare_model, bind, ml. simpl.
  repeat (exec_step w; try solve [leaf]).
Qed.

Lemma triple_prepare_4_10 :
  triple prepare_step any_state no_model (notebook_4_10 w) (fun _ _ => True).
Proof.
  unfold notebook_4_10. repeat triple_step.
  eapply triple_bind; [apply triple_prepare_model|]. intros model s' ->.
  repeat triple_step.
  eapply triple_bind; [apply triple_prepare_model|]. intros model' s' ->.
  repeat triple_step.
  apply triple_of_stable; auto 6 with notebook.
Qed.

Lemma triple_prepare_2_1 :
  triple prepare_step any_state no_model (notebook_2_1 w) (fun _ _ => True).
Proof.
  unfold notebook_2_1. repeat triple_step.
  eapply triple_bind; [apply triple_prepare_model|]. intros model s' ->.
  repeat triple_step.
  eapply triple_bind; [apply triple_prepare_model|]. intros model' s' ->.
  repeat triple_step.
  apply triple_of_stable; auto 6 with notebook.
Qed.
End PrepareNotebooks.

Lemma no_get_model_snoc l ev :
  no_get_model l -> not_get_model ev -> no_get_model (l ++ [ev]).
Proof.
  intros Hl Hev hp r Hin. apply in_app_or in Hin. destruct Hin as [Hin|[Heq|[]]].
  - exact (Hl hp r Hin).
  - exact (Hev hp r Heq).
Qed.

Lemma history_snoc s pre ev :
  history s pre -> not_get_model ev -> history s (pre ++ [ev]).
Proof.
  intros H Hev. destruct s as [|m f|m d|m|m]; simpl in *.
  - exact I.
  - destruct H as (l0 & hp & l1 & -> & Hf & Hn).
    exists l0, hp, (l1 ++ [ev]). rewrite <- app_assoc. simpl.
    repeat split; auto using no_get_model_snoc.
  - destruct H as (l0 & hp & file & l1 & l2 & -> & Hf & Hn).
    exists l0, hp, file, l1, (l2 ++ [ev]).
    repeat split; auto.
    + rewrite <- !app_assoc. simpl. rewrite <- !app_assoc. reflexivity.
    + rewrite app_assoc. auto using no_get_model_snoc.
  - destruct H as (l0 & hp & file & ckpt & sd & v1 & l1 & l2 & l3 & -> & Hf & Hsd & Hn).
    exists l0, hp, file, ckpt, sd, v1, l1, l2, (l3 ++ [ev]).
    repeat split; auto.
    + repeat (rewrite <- !app_assoc; simpl). reflexivity.
    + rewrite !app_assoc. apply no_get_model_snoc; auto. rewrite <- !app_assoc. exact Hn.
  - destruct H as (l0 & hp & file & ckpt & sd & v1 & v2 & l1 & l2 & l3 & l4 & -> & Hf & Hsd & Hn).
    exists l0, hp, file, ckpt, sd, v1, v2, l1, l2, l3, (l4 ++ [ev]).
    repeat split; auto.
    + repeat (rewrite <- !app_assoc; simpl). reflexivity.
    + rewrite !app_assoc. apply no_get_model_snoc; auto. rewrite <- !app_assoc. exact Hn.
Qed.

Lemma accepts_snoc {S} (step : S -> event -> option S) s l ev :
  accepts step s (l ++ [ev])
  = match accepts step s l with Some s1 => step s1 ev | None => None end.
Proof.
  rewrite accepts_app. destruct (accepts step s l) as [s1|]; [|reflexivity].
  simpl. destruct (step s1 ev); reflexivity.
Qed.

Ltac keep_history H Hs :=
  inversion Hs; subst; apply history_snoc; [exact H | intros ? ?; discriminate].

Lemma prepare_step_history s1 ev s pre :
  history s1 pre -> prepare_step s1 ev = Some s -> history s (pre ++ [ev]).
Proof.
  intros H Hs.
  destruct ev as [c r|cmd z|c r|g z|b|e]; try (simpl in Hs; keep_history H Hs).
  destruct c; simpl in Hs; try keep_history H Hs.
  - (* get_model *)
    destruct r as [e|[| | |m| | | |]]; inversion Hs; subst; try exact I.
    exists pre, hparams, []. repeat split. intros ? ? [].
  - (* torch.load *)
    destruct r as [e|[| | | |d| | |]]; try keep_history H Hs.
    destruct s1 as [|m [f|]|m d'|m|m]; try keep_history H Hs.
    destruct (decide (f = path)) as [->|Hne]; [|keep_history H Hs].
    inversion Hs; subst. destruct H as (l0 & hp & l1 & -> & Hf & Hn).
    exists l0, hp, path, l1, []. repeat split; auto.
    + rewrite <- app_assoc. reflexivity.
    + rewrite app_nil_r. exact Hn.
  - (* load_state_dict *)
    destruct r as [e|v]; [keep_history H Hs|].
    destruct s1 as [|m f|m d|m|m]; try keep_history H Hs.
    destruct (decide (model = m /\ d !! "state_dict" = Some state_dict)) as [[-> Hsd]|Hne];
      [|keep_history H Hs].
    inversion Hs; subst. destruct H as (l0 & hp & file & l1 & l2 & -> & Hf & Hn).
    exists l0, hp, file, d, state_dict, v, l1, l2, []. repeat split; auto.
    + repeat (rewrite <- !app_assoc; simpl). reflexivity.
    + rewrite app_nil_r. exact Hn.
  - (* eval *)
    destruct r as [e|v]; [keep_history H Hs|].
    destruct s1 as [|m f|m d|m|m]; try keep_history H Hs.
    destruct (decide (model = m)) as [->|Hne]; [|keep_history H Hs].
    inversion Hs; subst.
    destruct H as (l0 & hp & file & ckpt & sd & v1 & l1 & l2 & l3 & -> & Hf & Hsd & Hn).
    exists l0, hp, file, ckpt, sd, v1, v, l1, l2, l3, []. repeat split; auto.
    + repeat (rewrite <- !app_assoc; simpl). reflexivity.
    + rewrite app_nil_r. exact Hn.
  - (* forward *)
    destruct s1 as [|m f|m d|m|m]; try discriminate.
    destruct (decide (model = m)); [keep_history H Hs | discriminate].
  - (* trainer.test *)
    destruct s1 as [|m f|m d|m|m]; try discriminate.
    destruct (decide (model = m)); [keep_history H Hs | discriminate].
Qed.

Lemma accepts_history pre s :
  accepts prepare_step no_model pre = Some s -> history s pre.
Proof.
  revert s; induction pre as [|ev pre IH] using rev_ind; intros s H.
  - simpl in H. inversion H; subst. exact I.
  - rewrite accepts_snoc in H.
    destruct (accepts prepare_step no_model pre) as [s1|]; [|discriminate].
    eapply prepare_step_history; eauto.
Qed.

Lemma forward_pass_ready s ev model :
  forward_pass ev = Some model -> is_Some (prepare_step s ev) -> s = ready model.
Proof.
  intros Hf [s' Hs].
  destruct ev as [c r|cmd z|c r|g z|b|e]; try discriminate.
  destruct c; try discriminate; simpl in Hf; inversion Hf; subst; simpl in Hs;
    destruct s as [|m f|m d|m|m]; try discriminate;
    destruct (decide (model = m)); congruence.
Qed.

Lemma triple_prepared_before_forward {Sys Rng A} (m : M Sys Rng A) :
  triple prepare_step any_state no_model m (fun _ _ => True) ->
  prepared_before_forward m.
Proof.
  intros Hm g sy pre ev model post Hlog Hf.
  destruct (Hm (State g sy [])) as (new & s' & Hlog' & Hacc & _).
  simpl in Hlog'. rewrite Hlog' in Hlog. subst new.
  rewrite accepts_app in Hacc.
  destruct (accepts prepare_step no_model pre) as [s1|] eqn:Hpre; [|discriminate].
  simpl in Hacc. destruct (prepare_step s1 ev) as [s2|] eqn:Hs2; [|discriminate].
  assert (s1 = ready model) by (eapply forward_pass_ready; eauto). subst s1.
  exact (accepts_history _ _ Hpre).
Qed.

(** C6. In every run of either notebook, whatever the outside answers and
    wherever an error stops the run, the events before a forward pass
    ([model(x)] or [trainer.test(model)]) prepare its model: the model came
    from [get_model], the checkpoint file of its hyper-parameters was
    loaded, the ["state_dict"] entry of the checkpoint was loaded into the
    model, and the model was put in eval mode, in this order. *)
Theorem forward_pass_after_preparation {Sys Rng} (w : World Sys Rng) :
  prepared_before_forward (notebook_4_10 w) /\ prepared_before_forward (notebook_2_1 w).
Proof.
  split; apply triple_prepared_before_forward.
  - apply triple_prepare_4_10.
  - apply triple_prepare_2_1.
Qed.

(** ** Seeding *)

Lemma quiet_seed s : quiet seed_step any_state s.
Proof.
  unfold quiet, any_state. repeat split; try reflexivity.
  - intros c e. exists s. split; reflexivity || exact I.
  - intros e. exists s. split; reflexivity || exact I.
  - intros e s1 _ f r. exists s1. split; [reflexivity | destruct r; exact I].
Qed.

Lemma ml_quiet_seed s c : all_seeded s = true -> ml_quiet seed_step any_state s c.
Proof.
  intros Hs. split.
  - intros a. simpl. rewrite Hs. reflexivity.
  - intros e. exists s. simpl. rewrite Hs. split; [reflexivity | exact I].
Qed.

#[local] Hint Resolve quiet_seed ml_quiet_seed : notebook.

Section SeedNotebooks.
Context {Sys Rng : Type}.
Variable w : World Sys Rng.

Lemma triple_seeding :
  triple seed_step any_state no_seeds (seeding w) (fun _ s' => all_seeded s' = true).
Proof.
  intros st. unfold seeding, bind, manual_seed, cuda_is_available, ret, emit. simpl.
  destruct (rng_cuda (gens st)); simpl;
    (eexists _, _; split;
     [rewrite <- ?app_assoc; reflexivity | split; [simpl; reflexivity | reflexivity]]).
Qed.

Lemma triple_seed_4_10 :
  triple seed_step any_state no_seeds (notebook_4_10 w) (fun _ _ => True).
Proof.
  unfold notebook_4_10. repeat triple_step.
  eapply triple_bind; [apply triple_seeding|]. intros [] s' Hs.
  apply triple_of_stable; [|auto]. repeat notebook_step.
Qed.

Lemma triple_seed_2_1 :
  triple seed_step any_state no_seeds (notebook_2_1 w) (fun _ _ => True).
Proof.
  unfold notebook_2_1. repeat triple_step.
  eapply triple_bind; [apply triple_seeding|]. intros [] s' Hs.
  apply triple_of_stable; [|auto]. repeat notebook_step.
Qed.
End SeedNotebooks.

Lemma seen_snoc s pre ev :
  seen s pre -> (forall g z, ev <> ev_seed g z) -> seen s (pre ++ [ev]).
Proof.
  intros (Ht & Hc & Hn & Hr & Hb & Hz) Hne.
  split; [|split; [|split; [|split; [|split]]]];
    try (intros; apply in_or_app; left; auto; fail).
  intros g z Hin. apply in_app_or in Hin. destruct Hin as [Hin|[Hin|[]]].
  - eapply Hz; eauto.
  - exfalso. eapply Hne; eauto.
Qed.

Lemma seed_step_seen s1 ev s pre :
  seen s1 pre -> seed_step s1 ev = Some s -> seen s (pre ++ [ev]).
Proof.
  intros Hseen H.
  destruct ev as [c r|cmd z|c r|g z|b|e]; simpl in H;
    try (inversion H; subst; apply seen_snoc; [exact Hseen | intros; discriminate]).
  - destruct (all_seeded s1); [|discriminate].
    inversion H; subst; apply seen_snoc; [exact Hseen | intros; discriminate].
  - destruct (Z.eqb_spec z SEED) as [->|]; [|discriminate].
    inversion H; subst. destruct Hseen as (Ht & Hc & Hn & Hr & Hb & Hz).
    split; [|split; [|split; [|split; [|split]]]].
    + intros Hs. destruct g; simpl in Hs;
        first [ solve [apply in_or_app; right; left; reflexivity]
              | apply in_or_app; left; auto ].
    + intros Hs. destruct g; simpl in Hs;
        first [ solve [apply in_or_app; right; left; reflexivity]
              | apply in_or_app; left; auto ].
    + intros Hs. destruct g; simpl in Hs;
        first [ solve [apply in_or_app; right; left; reflexivity]
              | apply in_or_app; left; auto ].
    + intros Hs. destruct g; simpl in Hs;
        first [ solve [apply in_or_app; right; left; reflexivity]
              | apply in_or_app; left; auto ].
    + intros b Hb'. apply in_or_app. left. apply Hb. destruct g; exact Hb'.
    + intros g' z' Hin. apply in_app_or in Hin. destruct Hin as [Hin|[Hin|[]]].
      * eapply Hz; eauto.
      * inversion Hin; reflexivity.
  - inversion H; subst. destruct Hseen as (Ht & Hc & Hn & Hr & Hb & Hz).
    split; [|split; [|split; [|split; [|split]]]]; simpl;
      try (intros; apply in_or_app; left; auto; fail).
    + intros b' Hb'. inversion Hb'; subst. apply in_or_app. right. left. reflexivity.
    + intros g' z' Hin. apply in_app_or in Hin. destruct Hin as [Hin|[Hin|[]]].
      * eapply Hz; eauto.
      * discriminate.
Qed.

Lemma accepts_seed_sound pre s :
  accepts seed_step no_seeds pre = Some s -> seen s pre.
Proof.
  revert s; induction pre as [|ev pre IH] using rev_ind; intros s H.
  - simpl in H. inversion H; subst. unfold seen. simpl.
    repeat split; try discriminate. intros g z [].
  - rewrite accepts_snoc in H.
    destruct (accepts seed_step no_seeds pre) as [s1|]; [|discriminate].
    eapply seed_step_seen; eauto.
Qed.

Lemma triple_seeded_before_use {Sys Rng A} (m : M Sys Rng A) :
  triple seed_step any_state no_seeds m (fun _ _ => True) ->
  seeded_before_use m.
Proof.
  intros Hm g sy pre ev post Hlog Hml.
  destruct ev as [| |c r| | |]; try discriminate.
  destruct (Hm (State g sy [])) as (new & s' & Hlog' & Hacc & _).
  simpl in Hlog'. rewrite Hlog' in Hlog. subst new.
  rewrite accepts_app in Hacc.
  destruct (accepts seed_step no_seeds pre) as [s1|] eqn:Hpre; [|discriminate].
  simpl in Hacc. destruct (all_seeded s1) eqn:Hall; [|discriminate].
  destruct (accepts_seed_sound _ _ Hpre) as (Ht & Hc & Hn & Hr & Hb & Hz).
  unfold all_seeded in Hall.
  apply andb_prop in Hall. destruct Hall as [Hall Hcu].
  apply andb_prop in Hall. destruct Hall as [Hall Hra].
  apply andb_prop in Hall. destruct Hall as [Hto Hnu].
  repeat split; auto.
  destruct (cuda_answer s1) as [b|] eqn:Hans; [|discriminate].
  exists b. split; [auto|]. intros ->. auto.
Qed.

(** ** Reproducibility *)

Section Blind.
Context {Sys Rng : Type}.
Variable w : World Sys Rng.

Lemma blind_ret {A} (a : A) : blind (@ret Sys Rng A a).
Proof. intros st1 st2 H. split; [exact H | reflexivity]. Qed.

Lemma blind_bind {A B} (m : M Sys Rng A) (f : A -> M Sys Rng B) :
  blind m -> (forall a, blind (f a)) -> blind (bind m f).
Proof.
  intros Hm Hf st1 st2 H. destruct (Hm st1 st2 H) as [Hs Hr].
  unfold bind. destruct (m st1) as [a1 r1], (m st2) as [a2 r2]; simpl in *.
  subst r2. destruct r1 as [e|a]; [split; auto|]. apply Hf; exact Hs.
Qed.

Lemma blind_os c : blind (os w c).
Proof.
  intros st1 st2 (Hsys & Hlog & Hcuda). unfold os. rewrite Hsys.
  destruct (w_os w c (sys st2)) as [s' r]. simpl.
  split; [|reflexivity]. unfold sim; simpl. rewrite Hlog. tauto.
Qed.

Lemma blind_for {X} (l : list X) (body : X -> M Sys Rng unit) :
  (forall x, blind (body x)) -> blind (for_ l body).
Proof.
  intros Hb. induction l as [|x l IH]; simpl.
  - apply blind_ret.
  - apply blind_bind; auto.
Qed.

Lemma blind_import_ module : blind (import_ w module).
Proof. unfold import_. apply blind_bind; [apply blind_os | intros; apply blind_ret]. Qed.

Lemma blind_enter_src : blind (enter_src w).
Proof.
  unfold enter_src.
  repeat (apply blind_bind; [apply blind_os | intros]). apply blind_ret.
Qed.

Lemma blind_imports : blind (imports w).
Proof.
  unfold imports.
  repeat first [ apply blind_for; intros
               | apply blind_os
               | apply blind_import_
               | apply blind_ret
               | apply blind_bind; [|intros] ].
Qed.

Lemma blind_autoreload : blind (autoreload w).
Proof.
  unfold autoreload.
  repeat (apply blind_bind; [apply blind_os | intros]). apply blind_ret.
Qed.

(** After the seeding cell the generators are in states that depend on
    [SEED] only. *)
Lemma seeding_sim st1 st2 : sim st1 st2 -> seeding w st1 = seeding w st2.
Proof.
  intros (Hsys & Hlog & Hcuda).
  unfold seeding, bind, manual_seed, cuda_is_available, ret, emit. simpl.
  rewrite Hsys, Hlog.
  destruct (rng_cuda (gens st1)) as [c1|], (rng_cuda (gens st2)) as [c2|]; simpl;
    try reflexivity.
  - destruct Hcuda as [Hc _]. destruct (Hc (ex_intro _ c1 eq_refl)); discriminate.
  - destruct Hcuda as [_ Hc]. destruct (Hc (ex_intro _ c2 eq_refl)); discriminate.
Qed.

Lemma same_from_sim_blind {A B} (m : M Sys Rng A) (f : A -> M Sys Rng B) :
  blind m -> (forall a, same_from_sim (f a)) -> same_from_sim (bind m f).
Proof.
  intros Hm Hf st1 st2 H. destruct (Hm st1 st2 H) as [Hs Hr].
  unfold bind. destruct (m st1) as [a1 r1], (m st2) as [a2 r2]; simpl in *.
  subst r2. destruct r1 as [e|a].
  - destruct Hs as (Hsys & Hlog & _). repeat split; auto.
  - apply Hf; exact Hs.
Qed.

Lemma same_from_sim_seeding {B} (f : unit -> M Sys Rng B) :
  same_from_sim (bind (seeding w) f).
Proof.
  intros st1 st2 H. unfold bind. rewrite (seeding_sim _ _ H).
  repeat split; reflexivity.
Qed.

Lemma same_from_sim_reproducible {A} (m : M Sys Rng A) :
  same_from_sim m -> reproducible m.
Proof.
  intros Hm sy cuda t c n r t' c' n' r'. apply Hm.
  repeat split; simpl; auto; destruct cuda; simpl; auto;
    intros [? ?]; discriminate.
Qed.

Lemma reproducible_4_10 : reproducible (notebook_4_10 w).
Proof.
  apply same_from_sim_reproducible. unfold notebook_4_10.
  apply same_from_sim_blind; [apply blind_enter_src | intros _].
  apply same_from_sim_blind; [apply blind_imports | intros _].
  apply same_from_sim_seeding.
Qed.

Lemma reproducible_2_1 : reproducible (notebook_2_1 w).
Proof.
  apply same_from_sim_reproducible. unfold notebook_2_1.
  apply same_from_sim_blind; [apply blind_autoreload | intros _].
  apply same_from_sim_blind; [apply blind_enter_src | intros _].
  apply same_from_sim_blind; [apply blind_imports | intros _].
  apply same_from_sim_seeding.
Qed.
End Blind.

(** C8. Both notebooks seed every generator they use with the constant
    2334: torch, numpy and Python's random, and the CUDA generators when
    CUDA is available; they do so before the first call to train.py, torch,
    scipy or pytorch-lightning, so before any model construction or
    inference.  Hence two runs of a notebook on the same system show the
    same events, predictions and figures, whatever states the generators
    started in, the outside being a function of its arguments, of the
    system and of the generators. *)
Theorem seeded_and_reproducible {Sys Rng} (w : World Sys Rng) :
  (seeded_before_use (notebook_4_10 w) /\ reproducible (notebook_4_10 w)) /\
  (seeded_before_use (notebook_2_1 w) /\ reproducible (notebook_2_1 w)).
Proof.
  split; split.
  - apply triple_seeded_before_use, triple_seed_4_10.
  - apply reproducible_4_10.
  - apply triple_seeded_before_use, triple_seed_2_1.
  - apply reproducible_2_1.
Qed.

(** ** The inference cells *)

Ltac exec_in H w :=
  match type of H with
  | context [w_ml w ?c ?g ?s] => destruct (w_ml w c g s) as [[? ?] [?|?]]
  | context [@as_sample _ _ ?v] => destruct v
  | context [@as_tensor _ _ ?v] => destruct v
  | context [@as_dict _ _ ?v] => destruct v
  | context [@getattr _ _ ?h ?n] => unfold getattr in H; destruct (h !! n) eqn:?
  | context [@lift _ _ _ ?r] => destruct r eqn:?
  end; simpl in H; try discriminate.

Lemma run_of_snd {Sys Rng A} (m : M Sys Rng A) st (a : A) :
  snd (m st) = inr a -> m st = (fst (m st), inr a).
Proof. destruct (m st) as [st' r]. simpl. intros ->. reflexivity. Qed.

Section Inference.
Context {Sys Rng : Type}.
Variable w : World Sys Rng.

Lemma manual_inference_inv model st st' x y y_hat :
  manual_inference w model st = (st', inr (x, y, y_hat)) ->
  exists raw, plain_prediction model st st' x y y_hat raw.
Proof.
  intros H. unfold manual_inference, first_sample, bind, ml in H. simpl in H.
  repeat exec_in H w.
  inversion H; subst. eexists. unfold plain_prediction.
  eexists _, _, _, _. simpl. rewrite <- !app_assoc. simpl.
  repeat split; eauto.
Qed.

Lemma boxcox_inference_inv model st st' x y y_hat :
  boxcox_inference w model st = (st', inr (x, y, y_hat)) ->
  exists raw transformed lmbda,
    boxcox_prediction model st st' x y y_hat raw transformed lmbda.
Proof.
  intros H. unfold boxcox_inference, first_sample, bind, ml in H. simpl in H.
  repeat exec_in H w.
  inversion H; subst. eexists _, _, _. unfold boxcox_prediction.
  eexists _, _, _, _, _. simpl. rewrite <- !app_assoc. simpl.
  repeat split; eauto.
Qed.
End Inference.

(** C1. After the masking step of an inference cell, the prediction is NaN
    wherever the ground truth [y] is NaN, and everywhere else it is what
    the forward pass produced (in the Box-Cox part: what [inv_boxcox] made
    of it); the masking changes no other entry, and no shape. *)
Theorem masking_frame {Sys Rng} (w : World Sys Rng) (model : obj)
    (st : state Sys Rng) (x y y_hat : tensor float32) :
  (snd (manual_inference w model st) = inr (x, y, y_hat) ->
   exists raw,
     In (ev_ml (c_forward model x) (inr (val_tensor raw)))
        (log (fst (manual_inference w model st))) /\
     nan_masked raw y y_hat)
  /\
  (snd (boxcox_inference w model st) = inr (x, y, y_hat) ->
   exists raw lmbda transformed,
     In (ev_ml (c_forward model x) (inr (val_tensor raw)))
        (log (fst (boxcox_inference w model st))) /\
     In (ev_ml (c_inv_boxcox raw lmbda) (inr (val_tensor transformed)))
        (log (fst (boxcox_inference w model st))) /\
     nan_masked transformed y y_hat).
Proof.
  split; intros H.
  - apply run_of_snd, manual_inference_inv in H.
    destruct H as (raw & x0 & y0 & o1 & o2 & Hlog & Hx & Hy & Hm).
    exists raw. split.
    + rewrite Hlog. apply in_or_app. right. simpl. auto.
    + apply mask_prediction_nan_masked. exact Hm.
  - apply run_of_snd, boxcox_inference_inv in H.
    destruct H as (raw & t & lmbda & x0 & y0 & o1 & o2 & mh & Hlog & Hl & Hx & Hy & Hm).
    exists raw, lmbda, t. split; [|split].
    + rewrite Hlog. apply in_or_app. right. simpl. auto.
    + rewrite Hlog. apply in_or_app. right. simpl. auto 6.
    + apply mask_prediction_nan_masked. exact Hm.
Qed.

(** ** The inverse transform and the place in the notebook *)

Lemma quiet_transform s : quiet transform_step any_state s.
Proof.
  unfold quiet, any_state. repeat split; try reflexivity.
  - intros c e. exists s. split; reflexivity || exact I.
  - intros e. exists s. split; reflexivity || exact I.
  - intros e s1 _ f r. exists s1. split; [reflexivity | destruct r; exact I].
Qed.

Ltac ml_quiet_settled :=
  intros [H|[H|H]]; split;
  [ intros a; simpl; rewrite H; reflexivity
  | intros e; eexists; split; [simpl; rewrite H; reflexivity | exact I]
  | intros a; simpl; rewrite H; reflexivity
  | intros e; eexists; split; [simpl; rewrite H; reflexivity | exact I]
  | intros a; simpl; rewrite H; reflexivity
  | intros e; eexists; split; [simpl; rewrite H; reflexivity | exact I] ].

Lemma ml_quiet_transform_torch_load s file :
  settled s -> ml_quiet transform_step any_state s (c_torch_load file).
Proof. ml_quiet_settled. Qed.

Lemma ml_quiet_transform_load_state_dict s m sd :
  settled s -> ml_quiet transform_step any_state s (c_load_state_dict m sd).
Proof. ml_quiet_settled. Qed.

Lemma ml_quiet_transform_eval s m :
  settled s -> ml_quiet transform_step any_state s (c_eval m).
Proof. ml_quiet_settled. Qed.

Lemma ml_quiet_transform_data_getitem s m i :
  settled s -> ml_quiet transform_step any_state s (c_data_getitem m i).
Proof. ml_quiet_settled. Qed.

Lemma ml_quiet_transform_data_mask s m :
  settled s -> ml_quiet transform_step any_state s (c_data_mask m).
Proof. ml_quiet_settled. Qed.

Lemma ml_quiet_transform_Trainer s gpus :
  settled s -> ml_quiet transform_step any_state s (c_Trainer gpus).
Proof. ml_quiet_settled. Qed.

Lemma ml_quiet_transform_trainer_test s tr m :
  settled s -> ml_quiet transform_step any_state s (c_trainer_test tr m).
Proof. ml_quiet_settled. Qed.

Lemma ml_quiet_transform_forward b m x :
  ml_quiet transform_step any_state (TS b ph_plain) (c_forward m x).
Proof.
  split; [reflexivity|]. intros e. eexists. split; [reflexivity | exact I].
Qed.

Lemma settled_plain b : settled (TS b ph_plain).
Proof. right; left; reflexivity. Qed.

Lemma settled_boxcox b : settled (TS b ph_boxcox).
Proof. right; right; reflexivity. Qed.

Lemma settled_none b : settled (TS b ph_none).
Proof. left; reflexivity. Qed.

Lemma seed_quiet_transform s g z : transform_step s (ev_seed g z) = Some s.
Proof. reflexivity. Qed.

Lemma cuda_quiet_transform s b : transform_step s (ev_cuda_is_available b) = Some s.
Proof. reflexivity. Qed.

#[local] Hint Resolve quiet_transform ml_quiet_transform_torch_load
  ml_quiet_transform_load_state_dict ml_quiet_transform_eval
  ml_quiet_transform_data_getitem ml_quiet_transform_data_mask
  ml_quiet_transform_Trainer ml_quiet_transform_trainer_test
  ml_quiet_transform_forward settled_plain settled_boxcox settled_none
  seed_quiet_transform cuda_quiet_transform : notebook.

Section TransformNotebooks.
Context {Sys Rng : Type}.
Variable w : World Sys Rng.

Lemma triple_transform_knobs kwargs :
  triple transform_step any_state (TS None ph_none) (knobs w kwargs)
         (fun hparams s' => s' = TS (Some hparams) ph_none).
Proof.
  intros st. unfold knobs, bind, ml. simpl.
  repeat (exec_step w; try solve [leaf]).
Qed.

Lemma triple_transform_prepare_plain hparams :
  triple transform_step any_state (TS (Some hparams) ph_none) (prepare_model w hparams)
         (fun _ s' => s' = TS (Some hparams) ph_plain).
Proof.
  intros st. unfold prepare_model, bind, ml. simpl.
  repeat (exec_step w; try solve [leaf]).
Qed.

Lemma triple_transform_prepare_boxcox b hparams :
  hparams = set_boxcox_4_10 b \/ hparams = set_boxcox_2_1 b ->
  triple transform_step any_state (TS (Some b) ph_plain) (prepare_model w hparams)
         (fun _ s' => s' = TS (Some b) ph_boxcox).
Proof.
  intros Hb st. unfold prepare_model, bind, ml. simpl.
  repeat (exec_step w; try solve [leaf]).
Qed.

Lemma stable_transform_boxcox_inference b model :
  stable transform_step any_state (TS b ph_boxcox) (boxcox_inference w model).
Proof.
  intros st. unfold boxcox_inference, first_sample, bind, ml. simpl.
  repeat (exec_step w; try solve [leaf]).
Qed.

#[local] Hint Resolve stable_transform_boxcox_inference : notebook.

Lemma triple_transform_4_10 :
  triple transform_step any_state (TS None ph_none) (notebook_4_10 w) (fun _ _ => True).
Proof.
  unfold notebook_4_10. repeat triple_step.
  eapply triple_bind; [apply triple_transform_knobs|]. intros hparams s' ->.
  eapply triple_bind; [apply triple_transform_prepare_plain|]. intros model s' ->.
  repeat triple_step. cbv zeta.
  eapply triple_bind; [apply triple_transform_prepare_boxcox; left; reflexivity|].
  intros model' s' ->.
  repeat triple_step.
  apply triple_of_stable; auto 6 with notebook.
Qed.

Lemma triple_transform_2_1 :
  triple transform_step any_state (TS None ph_none) (notebook_2_1 w) (fun _ _ => True).
Proof.
  unfold notebook_2_1. repeat triple_step.
  eapply triple_bind; [apply triple_transform_knobs|]. intros hparams s' ->.
  eapply triple_bind; [apply triple_transform_prepare_plain|]. intros model s' ->.
  repeat triple_step. cbv zeta.
  eapply triple_bind; [apply triple_transform_prepare_boxcox; right; reflexivity|].
  intros model' s' ->.
  repeat triple_step.
  apply triple_of_stable; auto 6 with notebook.
Qed.
End TransformNotebooks.

Example transform_rejects_plain_inv_boxcox :
  accepts transform_step (TS (Some ∅) ph_plain)
          [ev_ml (c_forward 1 (Scalar nan)) (inr (val_tensor (Scalar nan)));
           ev_ml (c_inv_boxcox (Scalar nan) (py_float lit_0_1182)) (inr val_None)]
  = None.
Proof. reflexivity. Qed.

(** ** The theorems at work in the small world *)

Lemma masking_frame_witness :
  (exists raw,
     In (ev_ml (c_forward 1 (fst (fst (returned no_tensors demo_manual_run))))
               (inr (val_tensor raw)))
        (log (fst demo_manual_run)) /\
     nan_masked raw (snd (fst (returned no_tensors demo_manual_run)))
                    (snd (returned no_tensors demo_manual_run)))
  /\
  (exists raw lmbda transformed,
     In (ev_ml (c_forward 1 (fst (fst (returned no_tensors demo_boxcox_run))))
               (inr (val_tensor raw)))
        (log (fst demo_boxcox_run)) /\
     In (ev_ml (c_inv_boxcox raw lmbda) (inr (val_tensor transformed)))
        (log (fst demo_boxcox_run)) /\
     nan_masked transformed (snd (fst (returned no_tensors demo_boxcox_run)))
                            (snd (returned no_tensors demo_boxcox_run))).
Proof.
  split.
  - apply (proj1 (masking_frame demo_world 1 demo_plain
                    (fst (fst (returned no_tensors demo_manual_run)))
                    (snd (fst (returned no_tensors demo_manual_run)))
                    (snd (returned no_tensors demo_manual_run)))).
    vm_compute. reflexivity.
  - apply (proj2 (masking_frame demo_world 1 demo_boxcox
                    (fst (fst (returned no_tensors demo_boxcox_run)))
                    (snd (fst (returned no_tensors demo_boxcox_run)))
                    (snd (returned no_tensors demo_boxcox_run)))).
    vm_compute. reflexivity.
Defined.

Lemma get_hparams_call_options_witness :
  In "checkpoint_file" passed_options.
Proof.
  apply (proj1 (proj2 (proj2 (proj2 (proj2
           (get_hparams_call_options "/tmp/tmpq0x1" demo_hparams)))))).
  - vm_compute. tauto.
  - discriminate.
Defined.


(** The accuracy of the small example: one of the three selected cells is
    within the threshold, 33.33 per cent. *)
Example accuracy_demo_value :
  accuracy_all sum_left demo_y_one_day demo_y_hat_one_day demo_mask
  = inr (Scalar (S754_finite false 8738134 (-18))).
Proof. vm_compute. reflexivity. Qed.

Lemma cut_at_split (p : event -> bool) (l : list event) (d : event) :
  existsb p l = true ->
  l = fst (cut_at p l) ++ hd d (snd (cut_at p l)) :: tl (snd (cut_at p l)).
Proof.
  induction l as [|ev l IH]; simpl; [discriminate|].
  destruct (p ev); simpl; [reflexivity|]. intros H.
  destruct (cut_at p l) as [pre post]. simpl in *. f_equal. exact (IH H).
Qed.

Lemma cut_at_hd (p : event -> bool) (l : list event) (ev : event) :
  List.hd_error (snd (cut_at p l)) = Some ev ->
  l = fst (cut_at p l) ++ ev :: tl (snd (cut_at p l)).
Proof.
  induction l as [|ev' l IH]; simpl; [discriminate|].
  destruct (p ev'); simpl; [intros H; inversion H; reflexivity|].
  destruct (cut_at p l) as [pre post]. simpl in *. intros H. f_equal. exact (IH H).
Qed.

Lemma forward_pass_after_preparation_witness :
  prepared 1 (fst (cut_at is_forward demo_log)).
Proof.
  apply (proj2 (forward_pass_after_preparation demo_world)
           demo_rngs demo_sys
           (fst (cut_at is_forward demo_log))
           (hd (ev_op FileNotFoundError) (snd (cut_at is_forward demo_log)))
           1
           (tl (snd (cut_at is_forward demo_log)))).
  - apply (cut_at_split is_forward demo_log). vm_compute. reflexivity.
  - vm_compute. reflexivity.
Defined.

Lemma seeded_and_reproducible_witness :
  seeded (fst (cut_at is_ml demo_log)).
Proof.
  apply (proj1 (proj2 (seeded_and_reproducible demo_world))
           demo_rngs demo_sys
           (fst (cut_at is_ml demo_log))
           (hd (ev_op FileNotFoundError) (snd (cut_at is_ml demo_log)))
           (tl (snd (cut_at is_ml demo_log)))).
  - apply (cut_at_split is_ml demo_log). vm_compute. reflexivity.
  - vm_compute. reflexivity.
Defined.

(** The cut picks the marked cell of the wide grid: row 358, column 407 of
    the whole is row 3, column 7 of the case-study region. *)
Example case_region_demo_cell :
  cell (or_empty (case_region_days demo_wide_y)) [1; 3; 7] = Some demo_twenty
  /\ cell demo_wide_y [0; 1; 358; 407] = Some demo_twenty.
Proof. split; vm_compute; reflexivity. Qed.

(** ** The error figure *)

Lemma mean_selected_same_shape sum (err : tensor float32) (mask : tensor bool) s :
  has_shape err s -> has_shape mask s ->
  mean_selected sum err mask
  = inr (Scalar
           (let sel := pick (flatten err) (flatten mask) in
            f32_div (sum sel) (f32_of_Z (Z.of_nat (length sel))))).
Proof.
  intros Hc Hm. unfold mean_selected, getitem_mask.
  rewrite (select_mask_same_shape _ _ _ Hc Hm). simpl.
  unfold tmean. simpl flatten. rewrite flatten_map_Scalar. reflexivity.
Qed.

(** The entries of the error tensor that the mask selects are the absolute
    errors at the selected positions. *)
Lemma errors_selected (y y_hat d g : tensor float32) (mask : tensor bool) h w i :
  (forall p, cell d p = match cell y p, cell y_hat p with
                        | Some a, Some b => Some (f32_sub a b)
                        | _, _ => None
                        end) ->
  (forall p, tget g p = tget d (0 :: i :: p)) ->
  has_shape g [h; w] -> has_shape mask [h; w] ->
  pick (flatten (tabs g)) (flatten mask)
  = map (abs_error_at y y_hat i) (selected mask h w).
Proof.
  intros Hd Hg Hs Hm. symmetry.
  rewrite <- (map_id (pick _ _)). apply Forall2_map_eq.
  eapply Forall2_impl.
  - apply pick_selected; [|exact Hm]. unfold tabs. apply has_shape_tmap. exact Hs.
  - intros [r c] b Hb. simpl in Hb. unfold tabs in Hb.
    rewrite cell_tmap in Hb.
    destruct (cell g [r; c]) as [v|] eqn:Hv; [|discriminate].
    simpl in Hb. inversion Hb; subst b.
    assert (Hv' : cell d [0; i; r; c] = Some v).
    { unfold cell in *. rewrite <- Hg. exact Hv. }
    rewrite Hd in Hv'. unfold abs_error_at. simpl fst; simpl snd.
    destruct (cell y [0; i; r; c]) as [a|]; [|discriminate].
    destruct (cell y_hat [0; i; r; c]) as [b|]; [|discriminate].
    inversion Hv'; subst v. reflexivity.
Qed.

Lemma mae_day_spec sum (y y_hat : tensor float32) (mask : tensor bool) n h w i :
  has_shape y [1; n; h; w] -> has_shape y_hat [1; n; h; w] -> has_shape mask [h; w] ->
  n <> 1 -> h <> 1 -> w <> 1 -> i < n ->
  mae_day sum y y_hat mask i
  = inr (Scalar (mean_abs_error sum y y_hat mask h w i)).
Proof.
  intros Hy Hh Hm Hn1 Hh1 Hw1 Hi.
  destruct (elementwise_same_shape f32_sub _ _ _ Hy Hh) as (d & Hd & Hds & Hdc).
  unfold mae_day, error_day, tsub. rewrite Hd. simpl rbind.
  apply has_shape_cons in Hds. destruct Hds as (l0 & -> & Hl0 & Hd0).
  destruct l0 as [|d0 [|? ?]]; simpl in Hl0; try lia.
  inversion Hd0 as [|? ? Hd0s _]; subst.
  change (squeeze (Dim [d0])) with (squeeze d0).
  rewrite (squeeze_no_singleton d0 [n; h; w] Hd0s) by (repeat constructor; assumption).
  apply has_shape_cons in Hd0s. destruct Hd0s as (days & -> & Hdays & Hg).
  destruct (lookup_lt_is_Some_2 days i ltac:(lia)) as [g Hgi].
  simpl getitem. rewrite Hgi. simpl rbind.
  assert (Hgs : has_shape g [h; w]) by (eapply Forall_lookup_1 in Hg; eauto).
  rewrite (mean_selected_same_shape sum _ mask [h; w]); [|
    unfold tabs; apply has_shape_tmap; exact Hgs | exact Hm].
  cbv zeta. unfold mean_abs_error. cbv zeta.
  rewrite (errors_selected y y_hat (Dim [Dim days]) g mask h w i); auto.
  intros p. simpl. rewrite Hgi. reflexivity.
Qed.

Lemma mae_all_spec sum (y y_hat : tensor float32) (mask : tensor bool) h w :
  has_shape y [1; 1; h; w] -> has_shape y_hat [1; 1; h; w] -> has_shape mask [h; w] ->
  mae_all sum y y_hat mask
  = inr (Scalar (mean_abs_error sum y y_hat mask h w 0)).
Proof.
  intros Hy Hh Hm.
  destruct (elementwise_same_shape f32_sub _ _ _ Hy Hh) as (d & Hd & Hds & Hdc).
  unfold mae_all, error_all, tsub. rewrite Hd. simpl rbind.
  rewrite (expand_as_batch _ _ _ _ Hy Hm). simpl rbind.
  assert (Hms : has_shape (Dim [Dim [mask]]) [1; 1; h; w]).
  { apply has_shape_Dim; split; [reflexivity|]. constructor; [|constructor].
    apply has_shape_Dim; split; [reflexivity|]. constructor; [exact Hm|constructor]. }
  rewrite (mean_selected_same_shape sum _ _ [1; 1; h; w]); [|
    unfold tabs; apply has_shape_tmap; exact Hds | exact Hms].
  apply has_shape_cons in Hds. destruct Hds as (l0 & -> & Hl0 & Hd0).
  destruct l0 as [|d0 [|? ?]]; simpl in Hl0; try lia.
  inversion Hd0 as [|? ? Hd0s _]; subst.
  apply has_shape_cons in Hd0s. destruct Hd0s as (l1 & -> & Hl1 & Hd1).
  destruct l1 as [|g [|? ?]]; simpl in Hl1; try lia.
  inversion Hd1 as [|? ? Hgs _]; subst.
  cbv zeta. unfold mean_abs_error. cbv zeta.
  rewrite <- (errors_selected y y_hat (Dim [Dim [g]]) g mask h w 0); auto.
  simpl. rewrite !app_nil_r. reflexivity.
Qed.

(** X1. The MAE figure of forecast day [i] is the mean, over the grid
    cells the mask selects and over no other cell, of the absolute
    difference between ground truth and prediction of day [i]: per day of a
    tensor of shape (1, n, h, w) with [n], [h], [w] other than one in the
    4-in/10-out notebook, for the single day 0 in the 2-in/1-out
    notebook. *)
Theorem mae_is_masked_mean
    sum (y y_hat : tensor float32) (mask : tensor bool) (n h w i : nat) :
  has_shape y_hat [1; n; h; w] -> has_shape y [1; n; h; w] -> has_shape mask [h; w] ->
  (n <> 1 -> h <> 1 -> w <> 1 -> i < n ->
   mae_day sum y y_hat mask i
   = inr (Scalar (mean_abs_error sum y y_hat mask h w i)))
  /\
  (n = 1 ->
   mae_all sum y y_hat mask
   = inr (Scalar (mean_abs_error sum y y_hat mask h w 0))).
Proof.
  intros Hh Hy Hm. split.
  - intros. eapply mae_day_spec; eauto.
  - intros ->. eapply mae_all_spec; eauto.
Qed.

Lemma mae_is_masked_mean_witness :
  mae_day sum_left demo_y_two_days demo_y_hat_two_days demo_mask 1
  = inr (Scalar (mean_abs_error sum_left demo_y_two_days demo_y_hat_two_days demo_mask 2 2 1))
  /\
  mae_all sum_left demo_y_one_day demo_y_hat_one_day demo_mask
  = inr (Scalar (mean_abs_error sum_left demo_y_one_day demo_y_hat_one_day demo_mask 2 2 0)).
Proof.
  split.
  - apply (proj1 (mae_is_masked_mean sum_left demo_y_two_days demo_y_hat_two_days
                    demo_mask 2 2 2 1
                    ltac:(simpl; tauto) ltac:(simpl; tauto) ltac:(simpl; tauto)));
      lia.
  - apply (proj2 (mae_is_masked_mean sum_left demo_y_one_day demo_y_hat_one_day
                    demo_mask 1 2 2 0
                    ltac:(simpl; tauto) ltac:(simpl; tauto) ltac:(simpl; tauto))).
    reflexivity.
Defined.

(** The MAE of the small example: the three selected cells are off by 0,
    19 and 19. *)
Example mae_demo_value :
  mae_all sum_left demo_y_one_day demo_y_hat_one_day demo_mask
  = inr (Scalar (f32_div (f32_of_Z 38) (f32_of_Z 3))).
Proof. vm_compute. reflexivity. Qed.

(** ** Tensors of one shape *)

Lemma has_shape_tmap_inv {A B} (f : A -> B) (t : tensor A) s :
  has_shape (tmap f t) s -> has_shape t s.
Proof.
  revert s; induction t as [a|ts IH] using tensor_ind; intros s H.
  - destruct s; [exact I | destruct H].
  - destruct s as [|n s]; [destruct H|].
    change (tmap f (Dim ts)) with (Dim (map (tmap f) ts)) in H.
    apply has_shape_Dim in H. destruct H as [Hlen Hall].
    apply has_shape_Dim. rewrite length_map in Hlen. split; [exact Hlen|].
    rewrite Forall_map in Hall.
    rewrite Forall_forall in IH, Hall |- *. intros x Hx. apply IH; auto.
Qed.

Lemma cell_Dim {A} (ts : list (tensor A)) i p :
  cell (Dim ts) (i :: p) = match ts !! i with Some x => cell x p | None => None end.
Proof. unfold cell. simpl. destruct (ts !! i); reflexivity. Qed.

(** Tensors of one shape have their entries at the same positions. *)
Lemma cell_same_shape {A B} (t1 : tensor A) (t2 : tensor B) s p :
  has_shape t1 s -> has_shape t2 s -> is_Some (cell t1 p) -> is_Some (cell t2 p).
Proof.
  revert t1 t2 p; induction s as [|n s IH]; intros t1 t2 p H1 H2 Hc.
  - apply has_shape_Scalar in H1, H2. destruct H1 as [a ->], H2 as [b ->].
    destruct p; [eexists; reflexivity|]. destruct Hc as [? Hc]; discriminate.
  - apply has_shape_cons in H1, H2.
    destruct H1 as (l1 & -> & Hn1 & Hl1), H2 as (l2 & -> & Hn2 & Hl2).
    destruct p as [|i p]; [destruct Hc as [? Hc]; discriminate|].
    rewrite cell_Dim in Hc. rewrite cell_Dim.
    destruct (l1 !! i) as [x1|] eqn:Hx1; [|destruct Hc as [? Hc]; discriminate].
    destruct (lookup_lt_is_Some_2 l2 i) as [x2 Hx2].
    { apply lookup_lt_Some in Hx1. lia. }
    rewrite Hx2. eapply IH; eauto.
    + eapply Forall_lookup_1 in Hl1; eauto.
    + eapply Forall_lookup_1 in Hl2; eauto.
Qed.

(** Tensors of one shape with the same entries are equal. *)
Lemma tensor_ext {A} (t1 t2 : tensor A) s :
  has_shape t1 s -> has_shape t2 s ->
  (forall p, cell t1 p = cell t2 p) -> t1 = t2.
Proof.
  revert t1 t2; induction s as [|n s IH]; intros t1 t2 H1 H2 Hc.
  - apply has_shape_Scalar in H1, H2. destruct H1 as [a ->], H2 as [b ->].
    specialize (Hc []). inversion Hc. reflexivity.
  - apply has_shape_cons in H1, H2.
    destruct H1 as (l1 & -> & Hn1 & Hl1), H2 as (l2 & -> & Hn2 & Hl2).
    f_equal. apply list_eq. intros i.
    destruct (l1 !! i) as [x1|] eqn:Hx1.
    + destruct (lookup_lt_is_Some_2 l2 i) as [x2 Hx2].
      { apply lookup_lt_Some in Hx1. lia. }
      rewrite Hx2. f_equal. apply IH.
      * eapply Forall_lookup_1 in Hl1; eauto.
      * eapply Forall_lookup_1 in Hl2; eauto.
      * intros p. specialize (Hc (i :: p)). rewrite !cell_Dim, Hx1, Hx2 in Hc. exact Hc.
    + symmetry. apply lookup_ge_None. apply lookup_ge_None in Hx1. lia.
Qed.

(** ** The figures and the masking *)

Lemma mask_prediction_same_shape (y_hat y masked : tensor float32) s :
  has_shape y_hat s -> mask_prediction y_hat y = inr masked -> has_shape masked s.
Proof.
  intros Hs H. apply setitem_mask_shape in H.
  apply (has_shape_tmap_inv (fun _ => tt)). rewrite H. apply has_shape_tmap. exact Hs.
Qed.

(** The difference [y - y_hat] is the same before and after the masking of
    [y_hat]: where the masking wrote NaN, [y] is NaN. *)
Lemma tsub_masked (y y_hat masked : tensor float32) s :
  has_shape y s -> has_shape y_hat s ->
  mask_prediction y_hat y = inr masked ->
  tsub y masked = tsub y y_hat.
Proof.
  intros Hy Hh Hm.
  pose proof (mask_prediction_same_shape _ _ _ _ Hh Hm) as Hms.
  destruct (mask_prediction_nan_masked _ _ _ Hm) as (_ & Hcell & _ & _).
  unfold tsub.
  destruct (elementwise_same_shape f32_sub _ _ _ Hy Hms) as (d1 & -> & Hs1 & Hc1).
  destruct (elementwise_same_shape f32_sub _ _ _ Hy Hh) as (d2 & -> & Hs2 & Hc2).
  f_equal. apply (tensor_ext d1 d2 s Hs1 Hs2). intros p. rewrite Hc1, Hc2.
  destruct (cell y p) as [a|] eqn:Ha; [|reflexivity].
  destruct (cell_same_shape y y_hat s p Hy Hh) as [b Hb]; [rewrite Ha; eauto|].
  rewrite (Hcell p a b Ha Hb), Hb.
  destruct a; reflexivity.
Qed.

(** X2. The accuracy and MAE figures do not see the masking of the
    prediction: computed from the masked prediction, as the notebooks do,
    they are what they would be computed from the raw prediction, for a
    prediction of the shape of the ground truth. *)
Theorem figures_blind_to_masking
    sum (y y_hat masked : tensor float32) (mask : tensor bool) (s : list nat) (i : nat) :
  has_shape y s -> has_shape y_hat s ->
  mask_prediction y_hat y = inr masked ->
  accuracy_day sum y masked mask i = accuracy_day sum y y_hat mask i /\
  accuracy_all sum y masked mask = accuracy_all sum y y_hat mask /\
  mae_day sum y masked mask i = mae_day sum y y_hat mask i /\
  mae_all sum y masked mask = mae_all sum y y_hat mask.
Proof.
  intros Hy Hh Hm. pose proof (tsub_masked _ _ _ _ Hy Hh Hm) as Hsub.
  unfold accuracy_day, accuracy_all, mae_day, mae_all,
    close_day, close_all, error_day, error_all.
  rewrite Hsub. auto.
Qed.

Lemma figures_blind_to_masking_witness :
  accuracy_all sum_left demo_y_one_day
    (Dim [Dim [Dim [Dim [Scalar demo_one; Scalar nan];
                    Dim [Scalar demo_one; Scalar demo_twenty]]]]) demo_mask
  = accuracy_all sum_left demo_y_one_day demo_y_hat_one_day demo_mask.
Proof.
  apply (figures_blind_to_masking sum_left demo_y_one_day demo_y_hat_one_day _
           demo_mask [1; 1; 2; 2] 0).
  - simpl. tauto.
  - simpl. tauto.
  - reflexivity.
Defined.

(** ** A mask that selects nothing *)

Lemma selected_none (mask : tensor bool) h w :
  (forall r c, cell mask [r; c] <> Some true) -> selected mask h w = [].
Proof.
  intros Hn. unfold selected.
  induction (positions h w) as [|[r c] l IH]; [reflexivity|].
  rewrite filter_cons. destruct (decide _) as [Hd|Hd]; [|exact IH].
  simpl in Hd. destruct (Hn r c Hd).
Qed.

(** X3. When the mask selects no cell, the accuracy and MAE figures are
    NaN (the mean of no entries), with a sum of no entries that is zero. *)
Theorem figures_nan_without_selected_cells
    sum (y y_hat : tensor float32) (mask : tensor bool) (n h w i : nat) :
  has_shape y_hat [1; n; h; w] -> has_shape y [1; n; h; w] -> has_shape mask [h; w] ->
  (forall r c, cell mask [r; c] <> Some true) ->
  sum [] = S754_zero false ->
  (n <> 1 -> h <> 1 -> w <> 1 -> i < n ->
   accuracy_day sum y y_hat mask i = inr (Scalar nan) /\
   mae_day sum y y_hat mask i = inr (Scalar nan))
  /\
  (n = 1 ->
   accuracy_all sum y y_hat mask = inr (Scalar nan) /\
   mae_all sum y y_hat mask = inr (Scalar nan)).
Proof.
  intros Hh Hy Hm Hn Hsum.
  pose proof (selected_none mask h w Hn) as Hsel.
  split.
  - intros Hn1 Hh1 Hw1 Hi.
    rewrite (accuracy_day_spec sum y y_hat mask n h w i) by assumption.
    rewrite (mae_day_spec sum y y_hat mask n h w i) by assumption.
    unfold accuracy_spec, mean_abs_error. rewrite Hsel. simpl. rewrite Hsum.
    split; reflexivity.
  - intros ->.
    rewrite (accuracy_all_spec sum y y_hat mask h w) by assumption.
    rewrite (mae_all_spec sum y y_hat mask h w) by assumption.
    unfold accuracy_spec, mean_abs_error. rewrite Hsel. simpl. rewrite Hsum.
    split; reflexivity.
Qed.

Lemma figures_nan_without_selected_cells_witness :
  accuracy_all sum_left demo_y_one_day demo_y_hat_one_day demo_mask_none
  = inr (Scalar nan) /\
  mae_all sum_left demo_y_one_day demo_y_hat_one_day demo_mask_none
  = inr (Scalar nan).
Proof.
  apply (proj2 (figures_nan_without_selected_cells sum_left demo_y_one_day
                  demo_y_hat_one_day demo_mask_none 1 2 2 0
                  ltac:(simpl; tauto) ltac:(simpl; tauto) ltac:(simpl; tauto)
                  ltac:(intros [|[|r]] [|[|c]]; vm_compute; discriminate)
                  ltac:(reflexivity))).
  reflexivity.
Defined.

(** ** The figures read the selected cells only *)

Lemma selected_elem (mask : tensor bool) h w rc :
  In rc (selected mask h w) -> cell mask [fst rc; snd rc] = Some true.
Proof.
  unfold selected. intros H. apply list_elem_of_In, list_elem_of_filter in H.
  exact (proj1 H).
Qed.

Lemma accuracy_spec_ext sum (y y_hat y' y_hat' : tensor float32) mask h w i :
  (forall r c, cell mask [r; c] = Some true ->
     cell y [0; i; r; c] = cell y' [0; i; r; c] /\
     cell y_hat [0; i; r; c] = cell y_hat' [0; i; r; c]) ->
  accuracy_spec sum y y_hat mask h w i = accuracy_spec sum y' y_hat' mask h w i /\
  mean_abs_error sum y y_hat mask h w i = mean_abs_error sum y' y_hat' mask h w i.
Proof.
  intros Hsame.
  assert (Hind : map (indicator_at y y_hat i) (selected mask h w)
                 = map (indicator_at y' y_hat' i) (selected mask h w)).
  { apply map_ext_in. intros [r c] Hin. apply selected_elem in Hin.
    destruct (Hsame r c Hin) as [H1 H2].
    unfold indicator_at. simpl fst; simpl snd. rewrite H1, H2. reflexivity. }
  assert (Herr : map (abs_error_at y y_hat i) (selected mask h w)
                 = map (abs_error_at y' y_hat' i) (selected mask h w)).
  { apply map_ext_in. intros [r c] Hin. apply selected_elem in Hin.
    destruct (Hsame r c Hin) as [H1 H2].
    unfold abs_error_at. simpl fst; simpl snd. rewrite H1, H2. reflexivity. }
  unfold accuracy_spec, mean_abs_error. cbv zeta. rewrite Hind, Herr. auto.
Qed.

(** X4. The figures of day [i] read ground truth and prediction at the
    cells the mask selects and nowhere else: two pairs of ground truth and
    prediction that agree at the selected cells of day [i] get the same
    accuracy and the same MAE. *)
Theorem figures_read_selected_cells_only
    sum (y y_hat y' y_hat' : tensor float32) (mask : tensor bool) (n h w i : nat) :
  has_shape y [1; n; h; w] -> has_shape y_hat [1; n; h; w] ->
  has_shape y' [1; n; h; w] -> has_shape y_hat' [1; n; h; w] ->
  has_shape mask [h; w] ->
  (forall r c, cell mask [r; c] = Some true ->
     cell y [0; i; r; c] = cell y' [0; i; r; c] /\
     cell y_hat [0; i; r; c] = cell y_hat' [0; i; r; c]) ->
  (n <> 1 -> h <> 1 -> w <> 1 -> i < n ->
   accuracy_day sum y y_hat mask i = accuracy_day sum y' y_hat' mask i /\
   mae_day sum y y_hat mask i = mae_day sum y' y_hat' mask i)
  /\
  (n = 1 -> i = 0 ->
   accuracy_all sum y y_hat mask = accuracy_all sum y' y_hat' mask /\
   mae_all sum y y_hat mask = mae_all sum y' y_hat' mask).
Proof.
  intros Hy Hh Hy' Hh' Hm Hsame.
  destruct (accuracy_spec_ext sum y y_hat y' y_hat' mask h w i Hsame) as [Ha He].
  split.
  - intros Hn1 Hh1 Hw1 Hi.
    rewrite !(accuracy_day_spec sum _ _ mask n h w i) by assumption.
    rewrite !(mae_day_spec sum _ _ mask n h w i) by assumption.
    rewrite Ha, He. auto.
  - intros -> ->.
    rewrite !(accuracy_all_spec sum _ _ mask h w) by assumption.
    rewrite !(mae_all_spec sum _ _ mask h w) by assumption.
    rewrite Ha, He. auto.
Qed.

Lemma figures_read_selected_cells_only_witness :
  accuracy_all sum_left demo_y_one_day demo_y_hat_one_day demo_mask
  = accuracy_all sum_left demo_y_one_day demo_y_hat_other demo_mask /\
  mae_all sum_left demo_y_one_day demo_y_hat_one_day demo_mask
  = mae_all sum_left demo_y_one_day demo_y_hat_other demo_mask.
Proof.
  apply (proj2 (figures_read_selected_cells_only sum_left
                  demo_y_one_day demo_y_hat_one_day demo_y_one_day demo_y_hat_other
                  demo_mask 1 2 2 0
                  ltac:(simpl; tauto) ltac:(simpl; tauto) ltac:(simpl; tauto)
                  ltac:(simpl; tauto) ltac:(simpl; tauto)
                  ltac:(intros [|[|r]] [|[|c]]; vm_compute; intros H;
                        first [discriminate | split; reflexivity]))).
  - reflexivity.
  - reflexivity.
Defined.

(** ** Errors of the masking statement *)

Lemma zipM_inl {A B C} (f : A -> B -> result C) err l1 l2 e :
  zipM f err l1 l2 = inl e ->
  e = err \/ exists x y, In x l1 /\ In y l2 /\ f x y = inl e.
Proof.
  revert l2; induction l1 as [|x l1 IH]; intros [|y l2] H; simpl in H;
    try (inversion H; auto; fail).
  destruct (f x y) as [e'|z] eqn:Hxy; simpl in H.
  - inversion H; subst. right. exists x, y. simpl. auto.
  - destruct (zipM f err l1 l2) as [e'|l] eqn:Hz; simpl in H; [|discriminate].
    inversion H; subst. destruct (IH _ Hz) as [->|(x' & y' & Hx & Hy & Hf)]; [auto|].
    right. exists x', y'. simpl. auto.
Qed.

Lemma zipM_Forall2 {A B C} (f : A -> B -> result C) err l1 l2 :
  Forall2 (fun x y => exists z, f x y = inr z) l1 l2 ->
  exists l, zipM f err l1 l2 = inr l.
Proof.
  induction 1 as [|x y l1 l2 [z Hz] _ [l IH]]; simpl.
  - eauto.
  - rewrite Hz, IH. simpl. eauto.
Qed.

Lemma setitem_mask_IndexError {A} (t : tensor A) m v e :
  setitem_mask t m v = inl e -> exc_class e = "IndexError".
Proof.
  revert m; induction t as [a|ts IH] using tensor_ind; intros m H.
  - destruct m; simpl in H; inversion H; reflexivity.
  - destruct m as [b|ms]; simpl in H; [discriminate|].
    destruct (zipM _ _ ts ms) as [e'|l] eqn:Hz; simpl in H; [|discriminate].
    inversion H; subst e'. apply zipM_inl in Hz.
    destruct Hz as [->|(x & b & Hx & _ & Hf)]; [reflexivity|].
    rewrite Forall_forall in IH. apply (IH x (proj2 (list_elem_of_In ts x) Hx) b Hf).
Qed.

Lemma setitem_mask_prefix {A} (t : tensor A) (m : tensor bool) v s s' :
  has_shape m s -> has_shape t (s ++ s') -> exists r, setitem_mask t m v = inr r.
Proof.
  revert t m; induction s as [|n s IH]; intros t m Hm Ht.
  - apply has_shape_Scalar in Hm. destruct Hm as [b ->].
    destruct t; simpl; eauto.
  - apply has_shape_cons in Hm. destruct Hm as (ms & -> & Hn & Hms).
    simpl in Ht. apply has_shape_cons in Ht. destruct Ht as (ts & -> & Hn' & Hts).
    simpl.
    destruct (zipM_Forall2 (fun x b => setitem_mask x b v) mask_mismatch ts ms) as [l Hl].
    { apply Forall2_same_length_lookup. split; [lia|].
      intros i x b Hx Hb. apply (IH x b).
      - eapply Forall_lookup_1 in Hms; eauto.
      - eapply Forall_lookup_1 in Hts; eauto. }
    rewrite Hl. simpl. eauto.
Qed.

(** X5. The masking statement raises nothing but an IndexError, and it
    does not raise when the shape of the ground truth is the shape of the
    prediction, or its leading part. *)
Theorem mask_prediction_errors (y_hat y : tensor float32) :
  (forall e, mask_prediction y_hat y = inl e -> exc_class e = "IndexError") /\
  (forall s s', has_shape y s -> has_shape y_hat (s ++ s') ->
     exists masked, mask_prediction y_hat y = inr masked).
Proof.
  split.
  - intros e. apply setitem_mask_IndexError.
  - intros s s' Hy Hh. unfold mask_prediction. eapply setitem_mask_prefix; eauto.
    unfold tisnan. apply has_shape_tmap. exact Hy.
Qed.

Lemma mask_prediction_errors_witness :
  exc_class mask_mismatch = "IndexError" /\
  exists masked, mask_prediction demo_y_hat_one_day demo_y_one_day = inr masked.
Proof.
  split.
  - apply (proj1 (mask_prediction_errors demo_y_hat_one_day (Dim [Dim [demo_truth_day; demo_truth_day]]))).
    reflexivity.
  - apply (proj2 (mask_prediction_errors demo_y_hat_one_day demo_y_one_day)
             [1; 1; 2; 2] []); simpl; tauto.
Defined.

(** ** Shapes, as a test *)

Lemma shape_ok_sound {A} (t : tensor A) s : shape_ok t s = true -> has_shape t s.
Proof.
  revert s; induction t as [a|ts IH] using tensor_ind; intros s H.
  - destruct s; [exact I | discriminate].
  - destruct s as [|n s]; [discriminate|].
    simpl in H. apply andb_prop in H. destruct H as [Hn Hall].
    apply has_shape_Dim. split; [apply Nat.eqb_eq; exact Hn|].
    rewrite forallb_forall in Hall. rewrite Forall_forall in IH |- *.
    intros x Hx. apply IH; [exact Hx|]. apply Hall, list_elem_of_In. exact Hx.
Qed.


(** ** The case-study region: shapes *)

Lemma mapM_Forall {A B} (f : A -> result B) (P : B -> Prop) (l : list A) :
  Forall (fun x => exists y, f x = inr y /\ P y) l ->
  exists l', mapM f l = inr l' /\ Forall P l' /\ length l' = length l.
Proof.
  induction 1 as [|x l (y & Hy & HP) _ (l' & Hl' & HPl & Hlen)]; simpl.
  - exists []. auto.
  - rewrite Hy, Hl'. simpl. exists (y :: l'). simpl. auto.
Qed.

Lemma py_slice_length {A} (l : list A) lo hi :
  length (py_slice lo hi l) = Nat.min hi (length l) - lo.
Proof. unfold py_slice. rewrite length_take, length_drop. lia. Qed.

(** The entries of a tensor of a given shape show no other number of
    dimensions than the shape has. *)
Lemma known_rank_shape {A} (t : tensor A) s d :
  has_shape t s -> known_rank t = Some d -> d = length s.
Proof.
  revert s d; induction t as [a|ts IH] using tensor_ind; intros s d Ht Hd.
  - destruct s; [|contradiction]. simpl in *. congruence.
  - destruct s as [|n s]; [contradiction|].
    apply has_shape_Dim in Ht. destruct Ht as [_ Hts].
    destruct ts as [|x ts]; [discriminate|]. simpl in Hd.
    destruct (known_rank x) as [d'|] eqn:Hx; [|discriminate].
    inversion Hd; subst d. simpl. f_equal.
    inversion IH as [|? ? IHx _]; subst. inversion Hts as [|? ? Hxs _]; subst.
    exact (IHx s d' Hxs Hx).
Qed.

Lemma fits_shape {A} (t : tensor A) s ks :
  has_shape t s -> length ks <= length s -> too_many_indices t ks = false.
Proof.
  intros Ht Hlen. unfold too_many_indices.
  destruct (known_rank t) as [d|] eqn:Hd; [|reflexivity].
  apply (known_rank_shape _ _ _ Ht) in Hd. subst d. apply Nat.ltb_ge. exact Hlen.
Qed.

Lemma slice_entries_shape {A} (ks : list index_item) :
  forall (t : tensor A) s,
    has_shape t s -> length ks <= length s ->
    exists r, slice_entries t ks = inr r /\ has_shape r (slice_shape ks s).
Proof.
  induction ks as [|k ks IH]; intros t s Ht Hlen.
  - exists t. split; [reflexivity | exact Ht].
  - destruct s as [|n s]; [simpl in Hlen; lia|].
    apply has_shape_cons in Ht. destruct Ht as (ts & -> & Hn & Hts).
    simpl slice_entries.
    set (sel := match k with all_ => ts | slice_ lo hi => py_slice lo hi ts end).
    assert (Hsel : Forall (fun x => has_shape x s) sel /\ length sel = sliced_size k n).
    { subst sel. destruct k as [|lo hi]; simpl.
      - auto.
      - split; [|rewrite py_slice_length, Hn; reflexivity].
        unfold py_slice. apply Forall_take, Forall_drop. exact Hts. }
    destruct Hsel as [Hall Hsize].
    destruct (mapM_Forall (fun x => slice_entries x ks)
                (fun r => has_shape r (slice_shape ks s)) sel)
      as (l & Hl & HPl & Hll).
    { eapply Forall_impl; [exact Hall|]. intros x Hx. apply IH; [exact Hx|].
      simpl in Hlen. lia. }
    rewrite Hl. simpl. exists (Dim l). split; [reflexivity|].
    apply has_shape_Dim. split; [lia | exact HPl].
Qed.

(** Slicing a tensor with no more index positions than it has dimensions
    does not raise, and clips every slice to the size of its dimension. *)
Lemma getslice_shape {A} (ks : list index_item) :
  forall (t : tensor A) s,
    has_shape t s -> length ks <= length s ->
    exists r, getslice t ks = inr r /\ has_shape r (slice_shape ks s).
Proof.
  intros t s Ht Hlen. unfold getslice. rewrite (fits_shape _ _ _ Ht Hlen).
  apply slice_entries_shape; assumption.
Qed.

(** With more index positions than dimensions, slicing raises IndexError,
    whether the slices select an entry or not. *)
Lemma getslice_too_many {A} (t : tensor A) s ks :
  has_shape t s -> Forall (fun n => n <> 0) s -> length s < length ks ->
  getslice t ks = inl (IndexError "too many indices for tensor").
Proof.
  intros Ht Hs Hlen. unfold getslice.
  assert (Hr : known_rank t = Some (length s)).
  { clear Hlen ks. revert s Ht Hs.
    induction t as [a|ts IH] using tensor_ind; intros s Ht Hs.
    - destruct s; [reflexivity | contradiction].
    - destruct s as [|n s]; [contradiction|].
      apply has_shape_Dim in Ht. destruct Ht as [Hn Hts].
      inversion Hs as [|? ? Hn0 Hs']; subst.
      destruct ts as [|x ts]; [simpl in Hn0; congruence|].
      inversion IH as [|? ? IHx _]; subst. inversion Hts as [|? ? Hxs _]; subst.
      simpl. rewrite (IHx s Hxs Hs'). reflexivity. }
  unfold too_many_indices. rewrite Hr.
  replace (length s <? length ks) with true by (symmetry; apply Nat.ltb_lt; exact Hlen).
  reflexivity.
Qed.

Lemma getitem_shape {A} (t : tensor A) n s i :
  has_shape t (n :: s) -> i < n -> exists t', getitem t i = inr t' /\ has_shape t' s.
Proof.
  intros Ht Hi. apply has_shape_cons in Ht. destruct Ht as (ts & -> & Hn & Hts).
  destruct (lookup_lt_is_Some_2 ts i ltac:(lia)) as [x Hx].
  exists x. simpl. rewrite Hx. split; [reflexivity|].
  eapply Forall_lookup_1 in Hts; eauto.
Qed.

Lemma case_region_days_shape (t : tensor float32) n h w :
  has_shape t [1; n; h; w] ->
  exists r, case_region_days t = inr r /\
            has_shape r [n; Nat.min 480 h - 355; Nat.min 550 w - 400].
Proof.
  intros Ht. destruct (getitem_shape t 1 _ 0 Ht ltac:(lia)) as (t0 & Ht0 & Hs0).
  unfold case_region_days. rewrite Ht0. simpl rbind.
  apply (getslice_shape [all_; slice_ 355 480; slice_ 400 550] t0 [n; h; w] Hs0).
  simpl. lia.
Qed.

Lemma case_region_single_shape (t : tensor float32) n h w :
  has_shape t [1; n; h; w] -> 0 < n ->
  exists r, case_region_single t = inr r /\
            has_shape r [Nat.min 480 h - 355; Nat.min 550 w - 400].
Proof.
  intros Ht Hn. destruct (getitem_shape t 1 _ 0 Ht ltac:(lia)) as (t0 & Ht0 & Hs0).
  destruct (getitem_shape t0 n _ 0 Hs0 Hn) as (t00 & Ht00 & Hs00).
  unfold case_region_single. rewrite Ht0. simpl rbind. rewrite Ht00. simpl rbind.
  apply (getslice_shape [slice_ 355 480; slice_ 400 550] t00 [h; w] Hs00).
  simpl. lia.
Qed.

Lemma case_region_mask_shape (m : tensor bool) h w :
  has_shape m [h; w] ->
  exists r, case_region_mask m = inr r /\
            has_shape r [Nat.min 480 h - 355; Nat.min 550 w - 400].
Proof.
  intros Hm. apply (getslice_shape [slice_ 355 480; slice_ 400 550] m [h; w] Hm).
  simpl. lia.
Qed.

(** X6. On ground truth of shape (1, n, h, w) and a mask of shape (h, w)
    the case-study cell does not raise, and its slices are clipped to the
    grid: the region has min(480, h) - 355 rows and min(550, w) - 400
    columns, 125 by 150 on a grid that reaches row 480 and column 550 and
    nothing at all on a grid of at most 355 rows. *)
Theorem case_study_shapes (y : tensor float32) (mask : tensor bool) (n h w : nat) :
  has_shape y [1; n; h; w] -> has_shape mask [h; w] ->
  (exists y_case, case_region_days y = inr y_case /\
     has_shape y_case [n; Nat.min 480 h - 355; Nat.min 550 w - 400]) /\
  (0 < n ->
   exists y_case, case_region_single y = inr y_case /\
     has_shape y_case [Nat.min 480 h - 355; Nat.min 550 w - 400]) /\
  (exists mask_case, case_region_mask mask = inr mask_case /\
     has_shape mask_case [Nat.min 480 h - 355; Nat.min 550 w - 400]).
Proof.
  intros Hy Hm. split; [|split].
  - apply case_region_days_shape; exact Hy.
  - intros Hn. eapply case_region_single_shape; eauto.
  - apply case_region_mask_shape; exact Hm.
Qed.

Lemma case_study_shapes_witness :
  exists y_case, case_region_days demo_y_one_day = inr y_case /\
    has_shape y_case [1; 0; 0].
Proof.
  apply (proj1 (case_study_shapes demo_y_one_day demo_mask 1 2 2
                  ltac:(simpl; tauto) ltac:(simpl; tauto))).
Defined.

(** ** The case-study region: figures *)

Lemma positions_elem h w rc : In rc (positions h w) -> fst rc < h /\ snd rc < w.
Proof.
  unfold positions. rewrite in_flat_map. intros (r & Hr & Hin).
  apply in_map_iff in Hin. destruct Hin as (c & <- & Hc).
  apply in_seq in Hr, Hc. simpl. lia.
Qed.

Lemma filter_ext_elem {X} (P Q : X -> Prop)
    `{forall x, Decision (P x)} `{forall x, Decision (Q x)} (l : list X) :
  (forall x, In x l -> (P x <-> Q x)) -> filter P l = filter Q l.
Proof.
  induction l as [|x l IH]; intros Hl; [reflexivity|].
  rewrite !filter_cons.
  assert (Hx : P x <-> Q x) by (apply Hl; left; reflexivity).
  assert (IH' : filter P l = filter Q l) by (apply IH; intros; apply Hl; right; assumption).
  destruct (decide (P x)), (decide (Q x)); try tauto; congruence.
Qed.

(** The cells the mask of the case study selects are the cells of the
    region the full mask selects. *)
Lemma selected_case_mask (mask mask_case : tensor bool) rows cols :
  case_region_mask mask = inr mask_case -> rows <= 125 -> cols <= 150 ->
  selected mask_case rows cols = selected_in_region mask rows cols.
Proof.
  intros Hc Hr Hcs. apply cut_from_getslice in Hc.
  unfold selected, selected_in_region. apply filter_ext_elem.
  intros [r c] Hin. apply positions_elem in Hin. simpl in Hin |- *.
  destruct (Hc r c) as [Hcut _]. unfold cell. rewrite Hcut by lia. reflexivity.
Qed.

(** The entries of the difference over the region that the mask of the
    case study selects give the indicator and the absolute error at the
    selected cells of the region, read on the full grids. *)
Lemma figures_in_region (y y_hat g : tensor float32) (mask mask_case : tensor bool)
    rows cols i :
  (forall r c v, cell g [r; c] = Some v ->
     exists a b, cell y [0; i; 355 + r; 400 + c] = Some a /\
                 cell y_hat [0; i; 355 + r; 400 + c] = Some b /\
                 v = f32_sub a b) ->
  has_shape g [rows; cols] -> has_shape mask_case [rows; cols] ->
  case_region_mask mask = inr mask_case -> rows <= 125 -> cols <= 150 ->
  map float_of_bool (pick (flatten (tlt_9_4 (tabs g))) (flatten mask_case))
  = map (fun rc => indicator_at y y_hat i (in_full_grid rc))
        (selected_in_region mask rows cols) /\
  pick (flatten (tabs g)) (flatten mask_case)
  = map (fun rc => abs_error_at y y_hat i (in_full_grid rc))
        (selected_in_region mask rows cols).
Proof.
  intros Hcell Hs Hm Hc Hr Hcs.
  rewrite <- (selected_case_mask mask mask_case rows cols Hc Hr Hcs).
  split; symmetry.
  - apply Forall2_map_eq. eapply Forall2_impl.
    + apply pick_selected; [|exact Hm].
      unfold tlt_9_4, tabs. apply has_shape_tmap, has_shape_tmap. exact Hs.
    + intros [r c] b Hb. simpl in Hb. unfold tlt_9_4, tabs in Hb.
      rewrite !cell_tmap in Hb.
      destruct (cell g [r; c]) as [v|] eqn:Hv; [|discriminate].
      simpl in Hb. inversion Hb; subst b.
      destruct (Hcell r c v Hv) as (a & b & Ha & Hb' & ->).
      unfold indicator_at, in_full_grid. cbn [fst snd].
      rewrite Ha, Hb'. reflexivity.
  - rewrite <- (map_id (pick _ _)). apply Forall2_map_eq. eapply Forall2_impl.
    + apply pick_selected; [|exact Hm]. unfold tabs. apply has_shape_tmap. exact Hs.
    + intros [r c] b Hb. simpl in Hb. unfold tabs in Hb. rewrite cell_tmap in Hb.
      destruct (cell g [r; c]) as [v|] eqn:Hv; [|discriminate].
      simpl in Hb. inversion Hb; subst b.
      destruct (Hcell r c v Hv) as (a & b & Ha & Hb' & ->).
      unfold abs_error_at, in_full_grid. cbn [fst snd].
      rewrite Ha, Hb'. reflexivity.
Qed.

(** An entry of a cut comes from the full grid. *)
Lemma cut_from_cell {A} (whole part : list nat -> option (tensor A)) r c (a : A) :
  cut_from whole part ->
  part [r; c] = Some (Scalar a) ->
  whole [355 + r; 400 + c] = Some (Scalar a).
Proof.
  intros Hcut Hp. destruct (Hcut r c) as [Hin Hout].
  destruct (le_lt_dec 125 r) as [Hr|Hr]; [rewrite Hout in Hp by lia; discriminate|].
  destruct (le_lt_dec 150 c) as [Hc|Hc]; [rewrite Hout in Hp by lia; discriminate|].
  rewrite <- Hin by lia. exact Hp.
Qed.

Lemma cell_Scalar {A} (t : tensor A) p a : cell t p = Some a <-> tget t p = Some (Scalar a).
Proof.
  unfold cell. destruct (tget t p) as [[b|ts]|]; split; intros H; inversion H; reflexivity.
Qed.

Lemma case_study_day_figures sum (y y_hat y_case y_hat_case : tensor float32)
    (mask mask_case : tensor bool) n h w i :
  has_shape y [1; n; h; w] -> has_shape y_hat [1; n; h; w] -> has_shape mask [h; w] ->
  case_region_mask mask = inr mask_case ->
  case_region_days y = inr y_case -> case_region_days y_hat = inr y_hat_case ->
  n <> 1 -> Nat.min 480 h - 355 <> 1 -> Nat.min 550 w - 400 <> 1 -> i < n ->
  accuracy_day sum y_case y_hat_case mask_case i
  = inr (Scalar (accuracy_region sum y y_hat mask
                   (Nat.min 480 h - 355) (Nat.min 550 w - 400) i)) /\
  mae_day sum y_case y_hat_case mask_case i
  = inr (Scalar (mean_abs_error_region sum y y_hat mask
                   (Nat.min 480 h - 355) (Nat.min 550 w - 400) i)).
Proof.
  intros Hy Hh Hm Hmc Hyc Hhc Hn1 Hr1 Hc1 Hi.
  set (rows := Nat.min 480 h - 355) in *. set (cols := Nat.min 550 w - 400) in *.
  destruct (case_region_days_shape y n h w Hy) as (y_case' & Hyc' & Hycs).
  destruct (case_region_days_shape y_hat n h w Hh) as (y_hat_case' & Hhc' & Hhcs).
  destruct (case_region_mask_shape mask h w Hm) as (mask_case' & Hmc' & Hmcs).
  rewrite Hyc in Hyc'; rewrite Hhc in Hhc'; rewrite Hmc in Hmc'.
  inversion Hyc'; inversion Hhc'; inversion Hmc'; subst y_case' y_hat_case' mask_case'.
  fold rows cols in Hycs, Hhcs, Hmcs.
  destruct (elementwise_same_shape f32_sub _ _ _ Hycs Hhcs) as (d & Hd & Hds & Hdc).
  unfold accuracy_day, mae_day, close_day, error_day, tsub. rewrite Hd. simpl rbind.
  rewrite (squeeze_no_singleton d [n; rows; cols] Hds) by (repeat constructor; assumption).
  apply has_shape_cons in Hds. destruct Hds as (days & -> & Hdays & Hg).
  destruct (lookup_lt_is_Some_2 days i ltac:(lia)) as [g Hgi].
  simpl getitem. rewrite Hgi. simpl rbind.
  assert (Hgs : has_shape g [rows; cols]) by (eapply Forall_lookup_1 in Hg; eauto).
  rewrite (percent_selected_same_shape sum _ mask_case [rows; cols]); [|
    unfold tlt_9_4, tabs; apply has_shape_tmap, has_shape_tmap; exact Hgs | exact Hmcs].
  rewrite (mean_selected_same_shape sum _ mask_case [rows; cols]); [|
    unfold tabs; apply has_shape_tmap; exact Hgs | exact Hmcs].
  destruct (figures_in_region y y_hat g mask mask_case rows cols i) as [Hind Herr];
    try assumption; try (subst rows cols; lia).
  { intros r c v Hv.
    assert (Hv' : cell (Dim days) [i; r; c] = Some v) by (rewrite cell_Dim, Hgi; exact Hv).
    rewrite Hdc in Hv'.
    destruct (cell y_case [i; r; c]) as [a|] eqn:Ha; [|discriminate].
    destruct (cell y_hat_case [i; r; c]) as [b|] eqn:Hb; [|discriminate].
    inversion Hv'; subst v. exists a, b.
    apply cell_Scalar in Ha, Hb.
    apply (cut_from_cell _ _ r c a (case_region_days_cut y y_case i Hyc)) in Ha.
    apply (cut_from_cell _ _ r c b (case_region_days_cut y_hat y_hat_case i Hhc)) in Hb.
    apply cell_Scalar in Ha, Hb. auto. }
  cbv zeta. unfold accuracy_region, mean_abs_error_region. cbv zeta.
  rewrite Hind, Herr. auto.
Qed.

Lemma expand_as_same_shape (mask : tensor bool) (y : tensor float32) s :
  has_shape y s -> has_shape mask s -> expand_as mask y = inr mask.
Proof.
  intros Hy Hm. unfold expand_as. rewrite (rank_same_shape _ _ _ Hm Hy).
  rewrite Nat.leb_refl, Nat.sub_diag. simpl.
  apply (expand_to_same_shape _ _ _ Hm Hy).
Qed.

Lemma case_study_single_figures sum (y y_hat y_case y_hat_case : tensor float32)
    (mask mask_case : tensor bool) n h w :
  has_shape y [1; n; h; w] -> has_shape y_hat [1; n; h; w] -> has_shape mask [h; w] ->
  case_region_mask mask = inr mask_case ->
  case_region_single y = inr y_case -> case_region_single y_hat = inr y_hat_case ->
  0 < n ->
  accuracy_all sum y_case y_hat_case mask_case
  = inr (Scalar (accuracy_region sum y y_hat mask
                   (Nat.min 480 h - 355) (Nat.min 550 w - 400) 0)) /\
  mae_all sum y_case y_hat_case mask_case
  = inr (Scalar (mean_abs_error_region sum y y_hat mask
                   (Nat.min 480 h - 355) (Nat.min 550 w - 400) 0)).
Proof.
  intros Hy Hh Hm Hmc Hyc Hhc Hn.
  set (rows := Nat.min 480 h - 355) in *. set (cols := Nat.min 550 w - 400) in *.
  destruct (case_region_single_shape y n h w Hy Hn) as (y_case' & Hyc' & Hycs).
  destruct (case_region_single_shape y_hat n h w Hh Hn) as (y_hat_case' & Hhc' & Hhcs).
  destruct (case_region_mask_shape mask h w Hm) as (mask_case' & Hmc' & Hmcs).
  rewrite Hyc in Hyc'; rewrite Hhc in Hhc'; rewrite Hmc in Hmc'.
  inversion Hyc'; inversion Hhc'; inversion Hmc'; subst y_case' y_hat_case' mask_case'.
  fold rows cols in Hycs, Hhcs, Hmcs.
  destruct (elementwise_same_shape f32_sub _ _ _ Hycs Hhcs) as (d & Hd & Hds & Hdc).
  unfold accuracy_all, mae_all, close_all, error_all, tsub. rewrite Hd. simpl rbind.
  rewrite (expand_as_same_shape _ _ _ Hycs Hmcs). simpl rbind.
  rewrite (percent_selected_same_shape sum _ mask_case [rows; cols]); [|
    unfold tlt_9_4, tabs; apply has_shape_tmap, has_shape_tmap; exact Hds | exact Hmcs].
  rewrite (mean_selected_same_shape sum _ mask_case [rows; cols]); [|
    unfold tabs; apply has_shape_tmap; exact Hds | exact Hmcs].
  destruct (figures_in_region y y_hat d mask mask_case rows cols 0) as [Hind Herr];
    try assumption; try (subst rows cols; lia).
  { intros r c v Hv. rewrite Hdc in Hv.
    destruct (cell y_case [r; c]) as [a|] eqn:Ha; [|discriminate].
    destruct (cell y_hat_case [r; c]) as [b|] eqn:Hb; [|discriminate].
    inversion Hv; subst v. exists a, b.
    apply cell_Scalar in Ha, Hb.
    apply (cut_from_cell _ _ r c a (case_region_single_cut y y_case Hyc)) in Ha.
    apply (cut_from_cell _ _ r c b (case_region_single_cut y_hat y_hat_case Hhc)) in Hb.
    apply cell_Scalar in Ha, Hb. auto. }
  cbv zeta. unfold accuracy_region, mean_abs_error_region. cbv zeta.
  rewrite Hind, Herr. auto.
Qed.

(** X7. The accuracy and MAE figures of the case study, computed from the
    cut tensors and the cut mask, are the figures of the full grids
    restricted to the region: the mean runs over the cells of rows 355 to
    479 and columns 400 to 549 (as far as the grid reaches) that the full
    mask selects, and compares ground truth and prediction at these very
    cells. *)
Theorem case_study_figures_on_full_grid
    sum (y y_hat y_case y_hat_case : tensor float32) (mask mask_case : tensor bool)
    (n h w i : nat) :
  has_shape y [1; n; h; w] -> has_shape y_hat [1; n; h; w] -> has_shape mask [h; w] ->
  case_region_mask mask = inr mask_case ->
  (case_region_days y = inr y_case -> case_region_days y_hat = inr y_hat_case ->
   n <> 1 -> Nat.min 480 h - 355 <> 1 -> Nat.min 550 w - 400 <> 1 -> i < n ->
   accuracy_day sum y_case y_hat_case mask_case i
   = inr (Scalar (accuracy_region sum y y_hat mask
                    (Nat.min 480 h - 355) (Nat.min 550 w - 400) i)) /\
   mae_day sum y_case y_hat_case mask_case i
   = inr (Scalar (mean_abs_error_region sum y y_hat mask
                    (Nat.min 480 h - 355) (Nat.min 550 w - 400) i)))
  /\
  (case_region_single y = inr y_case -> case_region_single y_hat = inr y_hat_case ->
   0 < n ->
   accuracy_all sum y_case y_hat_case mask_case
   = inr (Scalar (accuracy_region sum y y_hat mask
                    (Nat.min 480 h - 355) (Nat.min 550 w - 400) 0)) /\
   mae_all sum y_case y_hat_case mask_case
   = inr (Scalar (mean_abs_error_region sum y y_hat mask
                    (Nat.min 480 h - 355) (Nat.min 550 w - 400) 0))).
Proof.
  intros Hy Hh Hm Hmc. split.
  - intros. eapply case_study_day_figures; eauto.
  - intros. eapply case_study_single_figures; eauto.
Qed.

Lemma case_study_figures_on_full_grid_witness :
  accuracy_day sum_left (or_empty (case_region_days demo_wide_y))
    (or_empty (case_region_days demo_wide_y_hat))
    (or_empty (case_region_mask demo_wide_mask)) 1
  = inr (Scalar (accuracy_region sum_left demo_wide_y demo_wide_y_hat demo_wide_mask
                   (Nat.min 480 480 - 355) (Nat.min 550 550 - 400) 1)) /\
  mae_day sum_left (or_empty (case_region_days demo_wide_y))
    (or_empty (case_region_days demo_wide_y_hat))
    (or_empty (case_region_mask demo_wide_mask)) 1
  = inr (Scalar (mean_abs_error_region sum_left demo_wide_y demo_wide_y_hat demo_wide_mask
                   (Nat.min 480 480 - 355) (Nat.min 550 550 - 400) 1)).
Proof.
  apply (proj1 (case_study_figures_on_full_grid sum_left demo_wide_y demo_wide_y_hat
                  (or_empty (case_region_days demo_wide_y))
                  (or_empty (case_region_days demo_wide_y_hat))
                  demo_wide_mask (or_empty (case_region_mask demo_wide_mask))
                  2 480 550 1
                  ltac:(apply shape_ok_sound; vm_compute; reflexivity)
                  ltac:(apply shape_ok_sound; vm_compute; reflexivity)
                  ltac:(apply shape_ok_sound; vm_compute; reflexivity)
                  ltac:(vm_compute; reflexivity)));
    try (vm_compute; reflexivity); try (vm_compute; lia).
Defined.

(** In the case-study region of the wide example one cell of 18750 is off
    by 20 on day 1: the accuracy is 99.99 per cent. *)
Example case_study_demo_accuracy :
  accuracy_region sum_left demo_wide_y demo_wide_y_hat demo_wide_mask 125 150 1
  = S754_finite false 13106501 (-17).
Proof. vm_compute. reflexivity. Qed.

(** ** Monitors that read calls to the operating system *)

Section Heedless.
Context {S Sys Rng : Type}.
Variable step : S -> event -> option S.
Variable cares : os_kind -> bool.
Variable w : World Sys Rng.
Variable s : S.
Hypothesis Hq : heedless step cares s.

Lemma heed_raise {A} e : stable step any_state s (@raise Sys Rng A e).
Proof.
  destruct Hq as (_ & Hop & _). intros st.
  exists [ev_op e], s. simpl. rewrite Hop. repeat split.
Qed.

Lemma heed_lift {A} (r : result A) : stable step any_state s (@lift Sys Rng A r).
Proof. destruct r; [apply heed_raise | apply stable_ret]. Qed.

Lemma heed_os c : cares (kind_of c) = false -> stable step any_state s (os w c).
Proof.
  intros Hc. destruct Hq as (Hos & _). apply triple_os. intros r.
  exists s. split; [apply Hos; exact Hc | destruct r; [exact I | reflexivity]].
Qed.

Lemma heed_shell cmd : stable step any_state s (shell w cmd).
Proof.
  destruct Hq as (_ & _ & Hsh & _). intros st. unfold shell.
  destruct (w_shell w cmd (sys st)) as [s1 z].
  exists [ev_shell cmd z], s. simpl. rewrite Hsh. repeat split.
Qed.

Lemma heed_manual_seed g z : stable step any_state s (manual_seed w g z).
Proof.
  destruct Hq as (_ & _ & _ & Hseed & _). apply triple_manual_seed. exists s. auto.
Qed.

Lemma heed_cuda_is_available : stable step any_state s (@cuda_is_available Sys Rng).
Proof.
  destruct Hq as (_ & _ & _ & _ & Hcuda). apply triple_cuda_is_available.
  intros b. exists s. auto.
Qed.

(** A [with] statement around code the monitor passes over: the closing
    of the file must be accepted wherever the body left the monitor when
    it raised. *)
Lemma heed_with_file {A} file (body : M Sys Rng A) :
  cares k_file = false ->
  (forall s1 r, is_Some (step s1 (ev_os (c_close file) r))) ->
  stable step any_state s body ->
  stable step any_state s (with_file w file body).
Proof.
  intros Hc Hclose Hb st. destruct (Hb st) as (new & s1 & Hlog & Hacc & Hres).
  destruct Hq as (Hos & _).
  unfold with_file, os.
  destruct (body st) as [st1 r]; simpl in *.
  destruct (w_os w (c_close file) (sys st1)) as [sy2 r2].
  destruct r as [e|a].
  - destruct (Hclose s1 r2) as [s2 Hs2].
    exists (new ++ [ev_os (c_close file) r2]), s2.
    destruct r2 as [e2|v2]; simpl; rewrite Hlog, app_assoc, accepts_app, Hacc;
      simpl; rewrite Hs2; repeat split.
  - subst s1. exists (new ++ [ev_os (c_close file) r2]), s.
    destruct r2 as [e2|v2]; simpl; rewrite Hlog, app_assoc, accepts_app, Hacc;
      simpl; rewrite (Hos (c_close file) _ Hc); repeat split.
Qed.

Lemma heed_as_str v : stable step any_state s (@as_str Sys Rng v).
Proof.
  destruct v as [|[]| | | | | |]; simpl; first [apply stable_ret | apply heed_raise].
Qed.

Lemma heed_as_dict v : stable step any_state s (@as_dict Sys Rng v).
Proof. destruct v; simpl; first [apply stable_ret | apply heed_raise]. Qed.

Lemma heed_as_obj v : stable step any_state s (@as_obj Sys Rng v).
Proof. destruct v; simpl; first [apply stable_ret | apply heed_raise]. Qed.

Lemma heed_as_tensor v : stable step any_state s (@as_tensor Sys Rng v).
Proof. destruct v; simpl; first [apply stable_ret | apply heed_raise]. Qed.

Lemma heed_as_mask v : stable step any_state s (@as_mask Sys Rng v).
Proof. destruct v; simpl; first [apply stable_ret | apply heed_raise]. Qed.

Lemma heed_as_sample v : stable step any_state s (@as_sample Sys Rng v).
Proof. destruct v; simpl; first [apply stable_ret | apply heed_raise]. Qed.

Lemma heed_getattr ns name : stable step any_state s (@getattr Sys Rng ns name).
Proof.
  unfold getattr. destruct (ns !! name); first [apply stable_ret | apply heed_raise].
Qed.

Lemma heed_getitem_checkpoint v key :
  stable step any_state s (@getitem_checkpoint Sys Rng v key).
Proof.
  unfold getitem_checkpoint. destruct v; try apply heed_raise.
  destruct (d !! key); first [apply stable_ret | apply heed_raise].
Qed.

Lemma heed_py_range n : stable step any_state s (@py_range Sys Rng n).
Proof. destruct n; simpl; first [apply stable_ret | apply heed_raise]. Qed.

Lemma heed_py_mul_4 n : stable step any_state s (@py_mul_4 Sys Rng n).
Proof. destruct n; simpl; first [apply stable_ret | apply heed_raise]. Qed.
End Heedless.

Ltac heed_step Hq :=
  first
    [ apply stable_ret
    | apply stable_bind; [|intros]
    | apply stable_for; intros
    | eapply heed_os; [exact Hq | solve [assumption | reflexivity]]
    | eapply heed_shell; exact Hq
    | eapply heed_lift; exact Hq
    | eapply heed_raise; exact Hq
    | eapply heed_manual_seed; exact Hq
    | eapply heed_cuda_is_available; exact Hq
    | eapply heed_as_str; exact Hq
    | eapply heed_as_dict; exact Hq
    | eapply heed_as_obj; exact Hq
    | eapply heed_as_tensor; exact Hq
    | eapply heed_as_mask; exact Hq
    | eapply heed_as_sample; exact Hq
    | eapply heed_getattr; exact Hq
    | eapply heed_getitem_checkpoint; exact Hq
    | eapply heed_py_range; exact Hq
    | eapply heed_py_mul_4; exact Hq
    | apply stable_ml; solve [auto]
    | solve [auto]
    | match goal with
      | |- stable _ _ _ (if ?b then _ else _) => destruct b
      | |- stable _ _ _ (let '(_, _) := ?p in _) => destruct p
      | |- stable _ _ _ (match ?x with _ => _ end) => destruct x
      end ].

Ltac heed_tac Hq := repeat heed_step Hq.

Section HeedCells.
Context {S Sys Rng : Type}.
Variable step : S -> event -> option S.
Variable cares : os_kind -> bool.
Variable w : World Sys Rng.
Variable s : S.
Hypothesis Hq : heedless step cares s.

Lemma heed_import_ module :
  cares k_session = false -> stable step any_state s (import_ w module).
Proof. intros Hs. unfold import_. heed_tac Hq. Qed.

Lemma heed_enter_src :
  cares k_session = false -> cares k_dir = false ->
  stable step any_state s (enter_src w).
Proof. intros Hs Hd. unfold enter_src. heed_tac Hq. Qed.

Lemma heed_imports : cares k_session = false -> stable step any_state s (imports w).
Proof. intros Hs. unfold imports. pose proof (fun m => heed_import_ m Hs). heed_tac Hq. Qed.

Lemma heed_autoreload : cares k_session = false -> stable step any_state s (autoreload w).
Proof. intros Hs. unfold autoreload. heed_tac Hq. Qed.

Lemma heed_seeding : stable step any_state s (seeding w).
Proof. unfold seeding. heed_tac Hq. Qed.

Lemma heed_download : cares k_dir = false -> stable step any_state s (download w).
Proof. intros Hd. unfold download. heed_tac Hq. Qed.

Lemma heed_pickle_test_set files :
  cares k_session = false -> cares k_file = false ->
  (forall file s1 r, is_Some (step s1 (ev_os (c_close file) r))) ->
  stable step any_state s (pickle_test_set w files).
Proof.
  intros Hs Hf Hclose. unfold pickle_test_set. heed_tac Hq.
  eapply heed_with_file; [exact Hq | exact Hf | apply Hclose |]. heed_tac Hq.
Qed.

Lemma heed_plot im title : cares k_figure = false -> stable step any_state s (plot w im title).
Proof. intros Hf. unfold plot. heed_tac Hq. Qed.

Lemma heed_plot_inputs hparams x title :
  cares k_figure = false -> stable step any_state s (plot_inputs w hparams x title).
Proof. intros Hf. unfold plot_inputs. heed_tac Hq. Qed.

Lemma heed_show_truth_4_10 hparams text y :
  cares k_figure = false -> stable step any_state s (show_truth_4_10 w hparams text y).
Proof.
  intros Hf. unfold show_truth_4_10. pose proof (fun im t => heed_plot im t Hf).
  heed_tac Hq.
Qed.

Lemma heed_show_prediction_4_10 hparams text mask y y_hat :
  cares k_figure = false -> stable step any_state s mask ->
  stable step any_state s (show_prediction_4_10 w hparams text mask y y_hat).
Proof.
  intros Hf Hm. unfold show_prediction_4_10. pose proof (fun im t => heed_plot im t Hf).
  heed_tac Hq.
Qed.

Lemma heed_show_error_4_10 hparams text mask y y_hat :
  cares k_figure = false -> stable step any_state s mask ->
  stable step any_state s (show_error_4_10 w hparams text mask y y_hat).
Proof.
  intros Hf Hm. unfold show_error_4_10. pose proof (fun im t => heed_plot im t Hf).
  heed_tac Hq.
Qed.

Lemma heed_show_truth_2_1 text y :
  cares k_figure = false -> stable step any_state s (show_truth_2_1 w text y).
Proof. intros Hf. unfold show_truth_2_1. apply heed_plot. exact Hf. Qed.

Lemma heed_show_prediction_2_1 text mask y y_hat :
  cares k_figure = false -> stable step any_state s mask ->
  stable step any_state s (show_prediction_2_1 w text mask y y_hat).
Proof.
  intros Hf Hm. unfold show_prediction_2_1. pose proof (fun im t => heed_plot im t Hf).
  heed_tac Hq.
Qed.

Lemma heed_show_error_2_1 text mask y y_hat :
  cares k_figure = false -> stable step any_state s mask ->
  stable step any_state s (show_error_2_1 w text mask y y_hat).
Proof.
  intros Hf Hm. unfold show_error_2_1. pose proof (fun im t => heed_plot im t Hf).
  heed_tac Hq.
Qed.

Lemma heed_data_mask model :
  ml_quiet step any_state s (c_data_mask model) -> stable step any_state s (data_mask w model).
Proof. intros Hm. unfold data_mask. heed_tac Hq. Qed.

Lemma heed_first_sample model :
  ml_quiet step any_state s (c_data_getitem model 0) ->
  stable step any_state s (first_sample w model).
Proof. intros Hm. unfold first_sample. heed_tac Hq. Qed.

Lemma heed_case_study region model y y_hat :
  ml_quiet step any_state s (c_data_mask model) ->
  stable step any_state s (case_study w region model y y_hat).
Proof. intros Hm. unfold case_study. pose proof heed_data_mask. heed_tac Hq. Qed.

Lemma heed_manual_inference model :
  ml_quiet step any_state s (c_data_getitem model 0) ->
  (forall x, ml_quiet step any_state s (c_forward model x)) ->
  stable step any_state s (manual_inference w model).
Proof.
  intros Hd Hf. unfold manual_inference. pose proof heed_first_sample. heed_tac Hq.
Qed.

Lemma heed_boxcox_inference model :
  ml_quiet step any_state s (c_data_getitem model 0) ->
  (forall x, ml_quiet step any_state s (c_forward model x)) ->
  ml_quiet step any_state s (c_model_hparams model) ->
  (forall t lmbda, ml_quiet step any_state s (c_inv_boxcox t lmbda)) ->
  stable step any_state s (boxcox_inference w model).
Proof.
  intros Hd Hf Hh Hb. unfold boxcox_inference. pose proof heed_first_sample.
  heed_tac Hq.
Qed.

Lemma heed_bulk_inference hparams model :
  (forall gpus, ml_quiet step any_state s (c_Trainer gpus)) ->
  (forall trainer, ml_quiet step any_state s (c_trainer_test trainer model)) ->
  stable step any_state s (bulk_inference w hparams model).
Proof.
  intros Ht Hr. unfold bulk_inference. eapply triple_conseq.
  - heed_tac Hq.
  - auto.
Qed.

Lemma heed_knobs kwargs :
  ml_quiet step any_state s (c_get_hparams kwargs) -> stable step any_state s (knobs w kwargs).
Proof. intros Hk. unfold knobs. heed_tac Hq. Qed.

Lemma heed_prepare_model hparams :
  ml_quiet step any_state s (c_get_model hparams) ->
  (forall file, ml_quiet step any_state s (c_torch_load file)) ->
  (forall model sd, ml_quiet step any_state s (c_load_state_dict model sd)) ->
  (forall model, ml_quiet step any_state s (c_eval model)) ->
  stable step any_state s (prepare_model w hparams).
Proof. intros Hg Hl Hs He. unfold prepare_model. heed_tac Hq. Qed.
End HeedCells.

(** ** The working directory *)

Create HintDb heed.

Ltac heed_cell :=
  first
    [ apply stable_ret
    | eapply heed_imports | eapply heed_autoreload | eapply heed_seeding
    | eapply heed_enter_src | eapply heed_download | eapply heed_pickle_test_set
    | eapply heed_plot_inputs | eapply heed_show_truth_4_10
    | eapply heed_show_prediction_4_10 | eapply heed_show_error_4_10
    | eapply heed_show_truth_2_1 | eapply heed_show_prediction_2_1
    | eapply heed_show_error_2_1 | eapply heed_data_mask | eapply heed_first_sample
    | eapply heed_case_study | eapply heed_manual_inference
    | eapply heed_boxcox_inference | eapply heed_bulk_inference | eapply heed_knobs
    | eapply heed_prepare_model ].

Ltac heed_sides :=
  match goal with
  | |- heedless _ _ _ => solve [auto with heed]
  | |- _ = false => reflexivity
  | |- ml_quiet _ _ _ _ => solve [auto with heed]
  | |- is_Some _ => solve [auto with heed]
  | |- forall _, _ => intros; heed_sides
  | |- stable _ _ _ _ => heed_cell; heed_sides
  end.

Ltac heed_notebook_step :=
  first
    [ apply triple_bind_stable; [solve [heed_cell; heed_sides] | intros]
    | match goal with
      | |- triple _ _ _ (let '(_, _) := ?p in _) _ => destruct p
      end ].

Lemma heedless_cwd s : heedless cwd_step cares_dir s.
Proof.
  repeat split; try reflexivity.
  intros c r Hc. destruct c; try discriminate; reflexivity.
Qed.

Lemma ml_quiet_cwd c : ml_quiet cwd_step any_state (Some "../src") c.
Proof.
  split.
  - intros a. reflexivity.
  - intros e. exists (Some "../src"). split; [reflexivity | exact I].
Qed.

Lemma cwd_close file s1 r : is_Some (cwd_step s1 (ev_os (c_close file) r)).
Proof. destruct r; simpl; eauto. Qed.

#[local] Hint Resolve heedless_cwd ml_quiet_cwd cwd_close : heed.

Section CwdNotebooks.
Context {Sys Rng : Type}.
Variable w : World Sys Rng.

(** The first cell takes the monitor to ['../src']. *)
Lemma triple_cwd_enter_src s :
  triple cwd_step any_state s (enter_src w) (fun _ s' => s' = Some "../src").
Proof.
  intros st. unfold enter_src, bind, os. simpl.
  repeat (exec_step w; try solve [leaf]).
Qed.

(** The download cell leaves ['../src'] and comes back. *)
Lemma triple_cwd_download s :
  triple cwd_step any_state s (download w) (fun _ s' => s' = Some "../src").
Proof.
  intros st. unfold download, bind, os, shell. simpl.
  exec_step w; try solve [leaf].
  destruct (w_shell w _ _) as [? ?]. simpl.
  exec_step w; solve [leaf].
Qed.

Lemma triple_cwd_4_10 :
  triple cwd_step any_state None (notebook_4_10 w) (fun _ _ => True).
Proof.
  unfold notebook_4_10.
  eapply triple_bind; [apply triple_cwd_enter_src|]. intros _ s' ->.
  repeat heed_notebook_step.
  eapply triple_bind; [apply triple_cwd_download|]. intros _ s' ->.
  repeat heed_notebook_step.
  apply triple_of_stable; [heed_cell; heed_sides | auto].
Qed.

Lemma triple_cwd_2_1 :
  triple cwd_step any_state None (notebook_2_1 w) (fun _ _ => True).
Proof.
  unfold notebook_2_1. repeat heed_notebook_step.
  eapply triple_bind; [apply triple_cwd_enter_src|]. intros _ s' ->.
  repeat heed_notebook_step.
  apply triple_of_stable; [heed_cell; heed_sides | auto].
Qed.
End CwdNotebooks.

Lemma no_chdir_snoc l ev :
  no_chdir l -> (forall p v, ev <> ev_os (c_chdir p) (inr v)) -> no_chdir (l ++ [ev]).
Proof.
  intros Hl Hev p v Hin. apply in_app_or in Hin. destruct Hin as [Hin|[Heq|[]]].
  - exact (Hl p v Hin).
  - exact (Hev p v Heq).
Qed.

Lemma cwd_seen_snoc s pre ev :
  cwd_seen s pre -> (forall p v, ev <> ev_os (c_chdir p) (inr v)) -> cwd_seen s (pre ++ [ev]).
Proof.
  intros H Hev. destruct s as [p|]; simpl in *.
  - destruct H as (l0 & v & l1 & -> & Hn). exists l0, v, (l1 ++ [ev]).
    rewrite <- app_assoc. split; [reflexivity | apply no_chdir_snoc; assumption].
  - apply no_chdir_snoc; assumption.
Qed.

Lemma cwd_step_seen s1 ev s pre :
  cwd_seen s1 pre -> cwd_step s1 ev = Some s -> cwd_seen s (pre ++ [ev]).
Proof.
  intros H Hs.
  destruct ev as [c r|cmd z|c r|g z|b|e]; simpl in Hs;
    try (inversion Hs; subst; apply cwd_seen_snoc; [exact H | intros; discriminate]).
  - destruct c; try (inversion Hs; subst; apply cwd_seen_snoc;
                     [exact H | intros; discriminate]).
    destruct r as [e|v].
    + inversion Hs; subst. apply cwd_seen_snoc; [exact H | intros; discriminate].
    + inversion Hs; subst. simpl. exists pre, v, []. split; [reflexivity|].
      intros ? ? [].
  - destruct (decide (s1 = Some "../src")); [|discriminate].
    inversion Hs; subst. apply cwd_seen_snoc; [exact H | intros; discriminate].
Qed.

Lemma accepts_cwd_seen l : forall s, accepts cwd_step None l = Some s -> cwd_seen s l.
Proof.
  induction l as [|ev l IH] using rev_ind; intros s H.
  - inversion H; subst. intros ? ? [].
  - rewrite accepts_snoc in H.
    destruct (accepts cwd_step None l) as [s1|] eqn:Hl; [|discriminate].
    eapply cwd_step_seen; eauto.
Qed.

Lemma triple_ml_calls_in_src {Sys Rng A} (m : M Sys Rng A) :
  triple cwd_step any_state None m (fun _ _ => True) -> ml_calls_in_src m.
Proof.
  intros Hm g sy pre ev post Hlog Hev.
  destruct (Hm (State g sy [])) as (new & s' & Hnew & Hacc & _).
  simpl in Hnew. rewrite Hnew in Hlog. subst new.
  rewrite accepts_app in Hacc.
  destruct (accepts cwd_step None pre) as [s1|] eqn:Hpre; [|discriminate].
  apply accepts_cwd_seen in Hpre. simpl in Hacc.
  destruct ev as [c r|cmd z|c r|g' z|b|e]; try discriminate.
  simpl in Hacc. destruct (decide (s1 = Some "../src")) as [->|]; [|discriminate].
  exact Hpre.
Qed.

(** X8. In every run of either notebook, every call to train.py, torch,
    scipy or pytorch-lightning is made with ['../src'] as the directory
    changed into last: the first cell goes there, and the download cell,
    which leaves for ['../examples'], comes back before anything else
    runs. *)
Theorem model_code_runs_in_src {Sys Rng} (w : World Sys Rng) :
  ml_calls_in_src (notebook_4_10 w) /\ ml_calls_in_src (notebook_2_1 w).
Proof.
  split; apply triple_ml_calls_in_src.
  - apply triple_cwd_4_10.
  - apply triple_cwd_2_1.
Qed.

Lemma model_code_runs_in_src_witness : in_src (fst (cut_at is_ml demo_log)).
Proof.
  apply (proj2 (model_code_runs_in_src demo_world)
           demo_rngs demo_sys
           (fst (cut_at is_ml demo_log))
           (hd (ev_op FileNotFoundError) (snd (cut_at is_ml demo_log)))
           (tl (snd (cut_at is_ml demo_log)))).
  - apply (cut_at_split is_ml demo_log). vm_compute. reflexivity.
  - vm_compute. reflexivity.
Defined.

(** ** The pickled list of test-set files *)

Lemma heedless_pickle files s : heedless (pickle_step files) cares_file s.
Proof.
  repeat split; try reflexivity.
  intros c r Hc. destruct c; try discriminate; reflexivity.
Qed.

Lemma ml_quiet_pickle files s c :
  (forall kw, c <> c_get_hparams kw) -> ml_quiet (pickle_step files) any_state s c.
Proof.
  intros Hc. split.
  - intros a. destruct c; try reflexivity. destruct (Hc _ eq_refl).
  - intros e. exists s. split; [|exact I].
    destruct c; try reflexivity. destruct (Hc _ eq_refl).
Qed.

Lemma ml_quiet_pickle_get_hparams files tmp kwargs :
  kwarg "test_set" kwargs = Some (py_str tmp) ->
  ml_quiet (pickle_step files) any_state (p_closed tmp files) (c_get_hparams kwargs).
Proof.
  intros Hk. split.
  - intros a. simpl. rewrite decide_True by exact Hk. reflexivity.
  - intros e. exists (p_closed tmp files). simpl. rewrite decide_True by exact Hk.
    split; [reflexivity | exact I].
Qed.

Lemma pickle_close files file s1 r :
  is_Some (pickle_step files s1 (ev_os (c_close file) r)).
Proof.
  destruct r as [e|v]; simpl; [eauto|].
  destruct s1; eauto. destruct (decide _); eauto.
Qed.

#[local] Hint Resolve heedless_pickle pickle_close : heed.
#[local] Hint Extern 1 (ml_quiet (pickle_step _) _ _ _) =>
  apply ml_quiet_pickle; intros; discriminate : heed.

Section PickleNotebooks.
Context {Sys Rng : Type}.
Variable w : World Sys Rng.

(** The pickling cell takes the monitor from nothing to a closed file
    with the list in it, and returns the name of that file. *)
Lemma triple_pickle_test_set files :
  triple (pickle_step files) any_state p_none (pickle_test_set w files)
         (fun tmp s' => s' = p_closed tmp files).
Proof.
  intros st. unfold pickle_test_set, with_file, bind, os. simpl.
  destruct (w_os w (c_print _) _) as [? [?|?]]; simpl; [solve [leaf]|].
  destruct (w_os w c_NamedTemporaryFile _) as [? [?|nm]]; simpl; [solve [leaf]|].
  destruct nm as [|[| | | |tmp]| | | | | |]; simpl; try solve [leaf].
  destruct (w_os w (c_pickle_dump _ _) _) as [? [?|?]]; simpl;
    destruct (w_os w (c_close _) _) as [? [?|?]]; simpl;
    eexists _, _; (split; [rewrite <- ?app_assoc; reflexivity|]);
    simpl; rewrite ?decide_True by auto; simpl; rewrite ?decide_True by auto;
    split; try reflexivity; exact I.
Qed.

Lemma triple_pickle_4_10 :
  triple (pickle_step test_out_files_4_10) any_state p_none (notebook_4_10 w)
         (fun _ _ => True).
Proof.
  unfold notebook_4_10. repeat heed_notebook_step.
  eapply triple_bind; [apply triple_pickle_test_set|]. intros tmp s' ->.
  apply triple_bind_stable.
  { eapply heed_knobs; [apply heedless_pickle|].
    apply ml_quiet_pickle_get_hparams. reflexivity. }
  intros hparams.
  repeat heed_notebook_step.
  apply triple_of_stable; [heed_cell; heed_sides | auto].
Qed.

Lemma triple_pickle_2_1 :
  triple (pickle_step test_out_files_2_1) any_state p_none (notebook_2_1 w)
         (fun _ _ => True).
Proof.
  unfold notebook_2_1. repeat heed_notebook_step.
  eapply triple_bind; [apply triple_pickle_test_set|]. intros tmp s' ->.
  apply triple_bind_stable.
  { eapply heed_knobs; [apply heedless_pickle|].
    apply ml_quiet_pickle_get_hparams. reflexivity. }
  intros hparams.
  repeat heed_notebook_step.
  apply triple_of_stable; [heed_cell; heed_sides | auto].
Qed.
End PickleNotebooks.

Lemma pickled_into_snoc files tmp pre ev :
  pickled_into files tmp pre -> pickled_into files tmp (pre ++ [ev]).
Proof.
  intros (l0 & l1 & v1 & l2 & v2 & l3 & ->).
  exists l0, l1, v1, l2, v2, (l3 ++ [ev]).
  repeat (rewrite <- !app_assoc; simpl). reflexivity.
Qed.

Lemma pickle_seen_snoc files s pre ev :
  pickle_seen files s pre -> pickle_seen files s (pre ++ [ev]).
Proof.
  intros H. destruct s as [|tmp|tmp fs|tmp fs]; simpl in *.
  - exact I.
  - destruct H as (l0 & l1 & ->). exists l0, (l1 ++ [ev]).
    rewrite <- app_assoc. reflexivity.
  - destruct H as (-> & l0 & l1 & v1 & l2 & ->). split; [reflexivity|].
    exists l0, l1, v1, (l2 ++ [ev]).
    repeat (rewrite <- !app_assoc; simpl). reflexivity.
  - destruct H as (-> & H). split; [reflexivity|]. apply pickled_into_snoc. exact H.
Qed.

Lemma pickle_step_seen files s1 ev s pre :
  pickle_seen files s1 pre -> pickle_step files s1 ev = Some s ->
  pickle_seen files s (pre ++ [ev]).
Proof.
  intros H Hs.
  destruct ev as [c r|cmd z|c r|g z|b|e]; simpl in Hs;
    try (inversion Hs; subst; apply pickle_seen_snoc; exact H).
  - destruct c; try (inversion Hs; subst; apply pickle_seen_snoc; exact H).
    + (* NamedTemporaryFile *)
      destruct r as [e|[|[| | | |tmp]| | | | | |]];
        try (inversion Hs; subst; apply pickle_seen_snoc; exact H).
      inversion Hs; subst. simpl. exists pre, []. reflexivity.
    + (* pickle.dump *)
      destruct r as [e|v]; [inversion Hs; subst; apply pickle_seen_snoc; exact H|].
      destruct s1 as [|t|t fs|t fs];
        try (inversion Hs; subst; apply pickle_seen_snoc; exact H).
      destruct (decide (t = file /\ files0 = files)) as [[-> ->]|];
        [|inversion Hs; subst; apply pickle_seen_snoc; exact H].
      inversion Hs; subst. simpl in H |- *. destruct H as (l0 & l1 & ->).
      split; [reflexivity|]. exists l0, l1, v, [].
      rewrite <- app_assoc. reflexivity.
    + (* close *)
      destruct r as [e|v]; [inversion Hs; subst; apply pickle_seen_snoc; exact H|].
      destruct s1 as [|t|t fs|t fs];
        try (inversion Hs; subst; apply pickle_seen_snoc; exact H).
      destruct (decide (t = file)) as [->|];
        [|inversion Hs; subst; apply pickle_seen_snoc; exact H].
      inversion Hs; subst. simpl in H |- *. destruct H as (-> & l0 & l1 & v1 & l2 & ->).
      split; [reflexivity|]. exists l0, l1, v1, l2, v, [].
      repeat (rewrite <- !app_assoc; simpl). reflexivity.
  - destruct c; try (inversion Hs; subst; apply pickle_seen_snoc; exact H).
    destruct s1 as [|t|t fs|t fs]; try discriminate.
    destruct (decide _); [|discriminate].
    inversion Hs; subst. apply pickle_seen_snoc; exact H.
Qed.

Lemma accepts_pickle_seen files l :
  forall s, accepts (pickle_step files) p_none l = Some s -> pickle_seen files s l.
Proof.
  induction l as [|ev l IH] using rev_ind; intros s H.
  - inversion H; subst. exact I.
  - rewrite accepts_snoc in H.
    destruct (accepts (pickle_step files) p_none l) as [s1|] eqn:Hl; [|discriminate].
    eapply pickle_step_seen; eauto.
Qed.

Lemma triple_test_set_is_pickled files {Sys Rng A} (m : M Sys Rng A) :
  triple (pickle_step files) any_state p_none m (fun _ _ => True) ->
  test_set_is_pickled files m.
Proof.
  intros Hm g sy pre kwargs r post Hlog.
  destruct (Hm (State g sy [])) as (new & s' & Hnew & Hacc & _).
  simpl in Hnew. rewrite Hnew in Hlog. subst new.
  rewrite accepts_app in Hacc.
  destruct (accepts (pickle_step files) p_none pre) as [s1|] eqn:Hpre; [|discriminate].
  apply accepts_pickle_seen in Hpre. simpl in Hacc.
  destruct s1 as [|t|t fs|tmp fs]; try discriminate.
  destruct (decide (kwarg "test_set" kwargs = Some (py_str tmp))) as [Hk|]; [|discriminate].
  destruct Hpre as (-> & Hpre). exists tmp. auto.
Qed.

(** X9. In every run of either notebook, the [test_set] option of the
    [get_hparams] call is the name of the temporary file that
    [tempfile.NamedTemporaryFile] returned, into which the notebook's
    [test_out_files] was pickled, and which was closed before the call. *)
Theorem test_set_names_pickled_list {Sys Rng} (w : World Sys Rng) :
  test_set_is_pickled test_out_files_4_10 (notebook_4_10 w) /\
  test_set_is_pickled test_out_files_2_1 (notebook_2_1 w).
Proof.
  split; apply triple_test_set_is_pickled.
  - apply triple_pickle_4_10.
  - apply triple_pickle_2_1.
Qed.

Lemma test_set_names_pickled_list_witness :
  exists tmp,
    kwarg "test_set" (hparams_kwargs_2_1 "/tmp/tmpq0x1") = Some (py_str tmp) /\
    pickled_into test_out_files_2_1 tmp (fst (cut_at is_get_hparams demo_bare_log)).
Proof.
  apply (proj2 (test_set_names_pickled_list demo_world_bare)
           demo_rngs demo_sys
           (fst (cut_at is_get_hparams demo_bare_log))
           (hparams_kwargs_2_1 "/tmp/tmpq0x1")
           (inr (val_dict ∅))
           (tl (snd (cut_at is_get_hparams demo_bare_log)))).
  vm_compute. reflexivity.
Defined.

(** ** The hyper-parameters of the models *)

Lemma transform_step_base s ev s' :
  transform_step s ev = Some s' ->
  base s' = base s \/
  exists kw d, ev = ev_ml (c_get_hparams kw) (inr (val_dict d)) /\
               base s' = Some (setattr d "eval" (py_bool true)).
Proof.
  intros H. unfold transform_step in H.
  repeat case_match; simplify_eq; simpl; eauto.
Qed.

Lemma base_seen_step s1 ev s pre :
  base_seen s1 pre -> transform_step s1 ev = Some s -> base_seen s (pre ++ [ev]).
Proof.
  intros H Hs b Hb. apply transform_step_base in Hs.
  destruct Hs as [Heq|(kw & d & -> & Hbase)].
  - rewrite Heq in Hb. destruct (H b Hb) as (kw & d & Hin & ->).
    exists kw, d. split; [apply in_or_app; auto | reflexivity].
  - rewrite Hbase in Hb. inversion Hb; subst b.
    exists kw, d. split; [apply in_or_app; right; left; reflexivity | reflexivity].
Qed.

Lemma accepts_base_seen l :
  forall s, accepts transform_step (TS None ph_none) l = Some s -> base_seen s l.
Proof.
  induction l as [|ev l IH] using rev_ind; intros s H.
  - inversion H; subst. intros b Hb. discriminate.
  - rewrite accepts_snoc in H.
    destruct (accepts transform_step (TS None ph_none) l) as [s1|] eqn:Hl; [|discriminate].
    eapply base_seen_step; eauto.
Qed.

Lemma transform_step_get_model s hp r s' :
  transform_step s (ev_ml (c_get_model hp) r) = Some s' ->
  exists b, base s = Some b /\
            (hp = b \/ hp = set_boxcox_4_10 b \/ hp = set_boxcox_2_1 b).
Proof.
  simpl. intros H. repeat case_match; simplify_eq; eauto.
Qed.

Lemma triple_built_from_get_hparams {Sys Rng A} (m : M Sys Rng A) :
  triple transform_step any_state (TS None ph_none) m (fun _ _ => True) ->
  built_from_get_hparams m.
Proof.
  intros Hm g sy pre hp r post Hlog.
  destruct (Hm (State g sy [])) as (new & s' & Hnew & Hacc & _).
  simpl in Hnew. rewrite Hnew in Hlog. subst new.
  rewrite accepts_app in Hacc.
  destruct (accepts transform_step (TS None ph_none) pre) as [s1|] eqn:Hpre; [|discriminate].
  apply accepts_base_seen in Hpre.
  change (accepts transform_step s1 (ev_ml (c_get_model hp) r :: post))
    with (match transform_step s1 (ev_ml (c_get_model hp) r) with
          | Some s2 => accepts transform_step s2 post
          | None => None
          end) in Hacc.
  destruct (transform_step s1 (ev_ml (c_get_model hp) r)) as [s2|] eqn:Hs2; [|discriminate].
  apply transform_step_get_model in Hs2. destruct Hs2 as (b & Hb & Hhp).
  destruct (Hpre b Hb) as (kw & d & Hin & ->).
  exists kw, d. split; [exact Hin|].
  unfold set_boxcox_4_10, set_boxcox_2_1, setattr in Hhp.
  destruct Hhp as [-> | [-> | ->]]; split;
    try (intros name H1 H2 H3);
    repeat (rewrite lookup_insert_ne by congruence);
    try reflexivity; apply lookup_insert_eq.
Qed.

(** X10. In every run of either notebook, each model is built from the
    dict that [get_hparams] returned, with the [eval] flag set to True and
    every other hyper-parameter as [get_hparams] gave it, but for [boxcox]
    and [checkpoint_file], which the Box-Cox cell sets before the second
    model is built.  Hyper-parameters are passed by value here: this takes
    [get_model] to leave the namespace it is given as it is. *)
Theorem models_built_from_get_hparams {Sys Rng} (w : World Sys Rng) :
  built_from_get_hparams (notebook_4_10 w) /\ built_from_get_hparams (notebook_2_1 w).
Proof.
  split; apply triple_built_from_get_hparams.
  - apply triple_transform_4_10.
  - apply triple_transform_2_1.
Qed.

Lemma models_built_from_get_hparams_witness :
  exists kwargs d,
    In (ev_ml (c_get_hparams kwargs) (inr (val_dict d)))
       (fst (cut_at is_boxcox_model demo_log)) /\
    set_boxcox_2_1 (setattr demo_hparams "eval" (py_bool true)) !! "eval"
    = Some (py_bool true) /\
    (forall name, name <> "eval" -> name <> "boxcox" -> name <> "checkpoint_file" ->
       set_boxcox_2_1 (setattr demo_hparams "eval" (py_bool true)) !! name = d !! name).
Proof.
  apply (proj2 (models_built_from_get_hparams demo_world)
           demo_rngs demo_sys
           (fst (cut_at is_boxcox_model demo_log))
           (set_boxcox_2_1 (setattr demo_hparams "eval" (py_bool true)))
           (inr (val_obj 1))
           (tl (snd (cut_at is_boxcox_model demo_log)))).
  apply (cut_at_hd is_boxcox_model demo_log). vm_compute. reflexivity.
Defined.

(** The second model of the small world is built with the lambda and the
    checkpoint of the Box-Cox cell, and with the day counts that
    [get_hparams] was given. *)
Example second_model_demo_hparams :
  let hp := hparams_of
              (hd (ev_op FileNotFoundError) (snd (cut_at is_boxcox_model demo_log))) in
  hp !! "boxcox" = Some (py_float lit_0_1182) /\
  hp !! "checkpoint_file"
  = Some (py_str "../src/model/checkpoints/pre_trained/7/2_1/epoch_41_100.ckpt") /\
  hp !! "in_days" = Some (py_int 2) /\
  hp !! "out_days" = Some (py_int 1) /\
  hp !! "eval" = Some (py_bool true).
Proof. repeat split; vm_compute; reflexivity. Qed.

(** ** What single cells do *)

Lemma new_events_app {Sys Rng} (st st' : state Sys Rng) new :
  log st' = log st ++ new -> new_events st st' = new.
Proof. intros H. unfold new_events. rewrite H. apply drop_app_length. Qed.

(** X11. Once [tempfile.NamedTemporaryFile] has returned a file, the
    pickling cell writes the list into it and closes it, whether or not the
    writing raised, and does nothing else; it returns the name of the file
    when both calls returned, and else raises what the closing raised or,
    when the closing returned, what the writing raised. *)
Theorem temporary_file_is_closed {Sys Rng} (w : World Sys Rng)
    (files : list string) (st : state Sys Rng) (tmp : string) :
  In (ev_os c_NamedTemporaryFile (inr (val_py (py_str tmp))))
     (new_events st (fst (pickle_test_set w files st))) ->
  exists v0 r1 r2,
    new_events st (fst (pickle_test_set w files st))
    = [ ev_os (c_print ("First few files..." :: take 3 files)) (inr v0);
        ev_os c_NamedTemporaryFile (inr (val_py (py_str tmp)));
        ev_os (c_pickle_dump files tmp) r1;
        ev_os (c_close tmp) r2 ] /\
    snd (pickle_test_set w files st)
    = match r2, r1 with
      | inl e, _ => inl e
      | inr _, inl e => inl e
      | inr _, inr _ => inr tmp
      end.
Proof.
  unfold pickle_test_set, with_file, bind, os. simpl.
  destruct (w_os w (c_print _) _) as [s0 [e0|v0]]; simpl.
  { rewrite (new_events_app _ _ [_]) by reflexivity.
    intros [H|[]]; discriminate. }
  destruct (w_os w c_NamedTemporaryFile _) as [s1 [e1|nm]]; simpl.
  { rewrite (new_events_app _ _ [_; _]) by (simpl; rewrite <- app_assoc; reflexivity).
    intros [H|[H|[]]]; discriminate. }
  destruct nm as [|[| | | |tmp']| | | | | |]; simpl;
    try (rewrite (new_events_app _ _ [_; _; _])
           by (simpl; rewrite <- !app_assoc; reflexivity);
         intros [H|[H|[H|[]]]]; discriminate).
  destruct (w_os w (c_pickle_dump _ _) _) as [s2 r1] eqn:Hdump.
  destruct r1 as [e1|v1]; simpl;
    destruct (w_os w (c_close _) _) as [s3 r2]; destruct r2 as [e2|v2]; simpl;
    rewrite (new_events_app _ _ [_; _; _; _])
      by (simpl; rewrite <- !app_assoc; reflexivity);
    (intros [H|[H|[H|[H|[]]]]]; try discriminate);
    inversion H; subst tmp'; eexists _, _, _; split; reflexivity.
Qed.

Lemma temporary_file_is_closed_witness :
  exists v0 r1 r2,
    new_events (State demo_rngs demo_sys [])
      (fst (pickle_test_set demo_world test_out_files_2_1 (State demo_rngs demo_sys [])))
    = [ ev_os (c_print ("First few files..." :: take 3 test_out_files_2_1)) (inr v0);
        ev_os c_NamedTemporaryFile (inr (val_py (py_str "/tmp/tmpq0x1")));
        ev_os (c_pickle_dump test_out_files_2_1 "/tmp/tmpq0x1") r1;
        ev_os (c_close "/tmp/tmpq0x1") r2 ] /\
    snd (pickle_test_set demo_world test_out_files_2_1 (State demo_rngs demo_sys []))
    = match r2, r1 with
      | inl e, _ => inl e
      | inr _, inl e => inl e
      | inr _, inr _ => inr "/tmp/tmpq0x1"
      end.
Proof.
  apply (temporary_file_is_closed demo_world test_out_files_2_1
           (State demo_rngs demo_sys []) "/tmp/tmpq0x1").
  vm_compute. right. left. reflexivity.
Defined.

(** X12. The cell that prepares the model stops at a checkpoint without
    the ["state_dict"] entry: when [torch.load] returned such a
    checkpoint, the cell raises KeyError('state_dict'), and neither
    [load_state_dict] nor [eval] was called.  It stops likewise at
    hyper-parameters without [checkpoint_file]: when [get_model] returned
    a model, the cell raises AttributeError and [torch.load] was not
    called. *)
Theorem prepare_model_missing_entries {Sys Rng} (w : World Sys Rng)
    (hparams : gmap string pyval) (st : state Sys Rng) :
  (forall file ckpt,
     In (ev_ml (c_torch_load file) (inr (val_checkpoint ckpt)))
        (new_events st (fst (prepare_model w hparams st))) ->
     ckpt !! "state_dict" = None ->
     snd (prepare_model w hparams st) = inl (KeyError "state_dict") /\
     no_weights_loaded (new_events st (fst (prepare_model w hparams st))))
  /\
  (forall model,
     In (ev_ml (c_get_model hparams) (inr (val_obj model)))
        (new_events st (fst (prepare_model w hparams st))) ->
     hparams !! "checkpoint_file" = None ->
     snd (prepare_model w hparams st) = inl (AttributeError "checkpoint_file") /\
     forall file r, ~ In (ev_ml (c_torch_load file) r)
                      (new_events st (fst (prepare_model w hparams st)))).
Proof.
  unfold prepare_model, bind, ml, getattr, getitem_checkpoint, no_weights_loaded.
  simpl. split.
  - intros file ckpt.
    destruct (w_ml w (c_get_model _) _ _) as [[g1 s1] [e1|v1]]; simpl.
    { rewrite (new_events_app _ _ [_]) by reflexivity. intros [H|[]]; discriminate. }
    destruct v1; simpl;
      try (rewrite (new_events_app _ _ [_; _])
             by (simpl; rewrite <- ?app_assoc; reflexivity);
           intros [H|[H|[]]]; discriminate).
    destruct (hparams !! "checkpoint_file") as [f|]; simpl;
      [|rewrite (new_events_app _ _ [_; _])
          by (simpl; rewrite <- ?app_assoc; reflexivity);
        intros [H|[H|[]]]; discriminate].
    destruct (w_ml w (c_torch_load _) _ _) as [[g2 s2] [e2|v2]]; simpl.
    { rewrite (new_events_app _ _ [_; _])
        by (simpl; rewrite <- ?app_assoc; reflexivity).
      intros [H|[H|[]]]; discriminate. }
    destruct v2 as [| | | |d| | |]; simpl;
      try (rewrite (new_events_app _ _ [_; _; _])
             by (simpl; rewrite <- ?app_assoc; reflexivity);
           intros [H|[H|[H|[]]]]; discriminate).
    destruct (d !! "state_dict") as [sd|] eqn:Hsd; simpl.
    + intros Hin Hnone. exfalso.
      assert (Hd : d = ckpt).
      { destruct (w_ml w (c_load_state_dict _ _) _ _) as [[g3 s3] [e3|v3]]; simpl in Hin.
        - rewrite (new_events_app _ _ [_; _; _])
            in Hin by (simpl; rewrite <- ?app_assoc; reflexivity).
          destruct Hin as [H|[H|[H|[]]]]; try discriminate. inversion H; reflexivity.
        - destruct (w_ml w (c_eval _) _ _) as [[g4 s4] [e4|v4]]; simpl in Hin;
            rewrite (new_events_app _ _ [_; _; _; _])
              in Hin by (simpl; rewrite <- ?app_assoc; reflexivity);
            destruct Hin as [H|[H|[H|[H|[]]]]]; try discriminate;
            inversion H; reflexivity. }
      congruence.
    + rewrite (new_events_app _ _ [_; _; _])
        by (simpl; rewrite <- ?app_assoc; reflexivity).
      intros _ _. split; [reflexivity|].
      intros ev [H|[H|[H|[]]]]; subst ev; split; intros; discriminate.
  - intros model.
    destruct (w_ml w (c_get_model _) _ _) as [[g1 s1] [e1|v1]]; simpl.
    { rewrite (new_events_app _ _ [_]) by reflexivity. intros [H|[]]; discriminate. }
    destruct v1; simpl;
      try (rewrite (new_events_app _ _ [_; _])
             by (simpl; rewrite <- ?app_assoc; reflexivity);
           intros [H|[H|[]]]; discriminate).
    intros _ Hnone. rewrite Hnone. simpl.
    rewrite (new_events_app _ _ [_; _])
      by (simpl; rewrite <- ?app_assoc; reflexivity).
    split; [reflexivity|]. intros file r [H|[H|[]]]; discriminate.
Qed.

Lemma prepare_model_missing_entries_witness :
  snd (prepare_model demo_world_bare (setattr ∅ "eval" (py_bool true))
         (State demo_rngs demo_sys []))
  = inl (AttributeError "checkpoint_file") /\
  forall file r,
    ~ In (ev_ml (c_torch_load file) r)
         (new_events (State demo_rngs demo_sys [])
            (fst (prepare_model demo_world_bare (setattr ∅ "eval" (py_bool true))
                    (State demo_rngs demo_sys [])))).
Proof.
  apply (proj2 (prepare_model_missing_entries demo_world_bare
                  (setattr ∅ "eval" (py_bool true)) (State demo_rngs demo_sys [])) 1).
  - vm_compute. left. reflexivity.
  - vm_compute. reflexivity.
Defined.

(** ** The loops that show the figures *)

Lemma for_chunks {Sys Rng X} (l : list X) (body : X -> M Sys Rng unit)
    (R : X -> list event -> Prop) :
  (forall x st, snd (body x st) = inr tt ->
     exists evs, log (fst (body x st)) = log st ++ evs /\ R x evs) ->
  forall st, snd (for_ l body st) = inr tt ->
    exists chunks,
      log (fst (for_ l body st)) = log st ++ concat chunks /\ Forall2 R l chunks.
Proof.
  intros Hbody. induction l as [|x l IH]; intros st H.
  - exists []. simpl. rewrite app_nil_r. split; [reflexivity | constructor].
  - simpl in H |- *. unfold bind in H |- *.
    specialize (Hbody x st).
    destruct (body x st) as [st1 [e|[]]]; simpl in *; [discriminate|].
    destruct (Hbody eq_refl) as (evs & Hlog & HR).
    destruct (IH st1 H) as (chunks & Hlogs & Hall).
    exists (evs :: chunks). simpl. rewrite Hlogs, Hlog, app_assoc.
    split; [reflexivity | constructor; assumption].
Qed.

Lemma bind_inr {Sys Rng A B} (m : M Sys Rng A) (f : A -> M Sys Rng B) st b :
  snd (bind m f st) = inr b ->
  exists a, snd (m st) = inr a /\ bind m f st = f a (fst (m st)).
Proof.
  unfold bind. destruct (m st) as [st1 [e|a]]; simpl; [discriminate|]. eauto.
Qed.

Lemma lift_inr {Sys Rng A} (r : result A) (st : state Sys Rng) a :
  snd (lift r st) = inr a -> r = inr a /\ fst (lift r st) = st.
Proof. destruct r; simpl; [discriminate|]. intros H; inversion H; auto. Qed.

Lemma os_inr {Sys Rng} (w : World Sys Rng) c st v :
  snd (os w c st) = inr v -> log (fst (os w c st)) = log st ++ [ev_os c (inr v)].
Proof.
  unfold os. destruct (w_os w c (sys st)) as [s1 r]. simpl. intros ->. reflexivity.
Qed.

Lemma ml_inr {Sys Rng} (w : World Sys Rng) c st v :
  snd (ml w c st) = inr v -> log (fst (ml w c st)) = log st ++ [ev_ml c (inr v)].
Proof.
  unfold ml. destruct (w_ml w c (gens st) (sys st)) as [[g1 s1] r]. simpl.
  intros ->. reflexivity.
Qed.

Lemma data_mask_runs {Sys Rng} (w : World Sys Rng) model st m :
  snd (data_mask w model st) = inr m ->
  log (fst (data_mask w model st))
  = log st ++ [ev_ml (c_data_mask model) (inr (val_mask m))].
Proof.
  unfold data_mask. intros H.
  destruct (bind_inr _ _ _ _ H) as (v & Hv & Heq). rewrite Heq in H |- *.
  apply ml_inr in Hv.
  destruct v; simpl in H; try discriminate. inversion H; subst. exact Hv.
Qed.

Ltac step_bind H a Ha :=
  let Heq := fresh "Heq" in
  destruct (bind_inr _ _ _ _ H) as (a & Ha & Heq); rewrite Heq in H |- *; clear Heq;
  cbv beta in H |- *.

Ltac step_lift H a Ha :=
  let Hst := fresh "Hst" in
  step_bind H a Ha; apply lift_inr in Ha; destruct Ha as [Ha Hst];
  rewrite Hst in H |- *; clear Hst.

Lemma plot_runs {Sys Rng} (w : World Sys Rng) im title st :
  snd (plot w im title st) = inr tt ->
  exists evs, log (fst (plot w im title st)) = log st ++ evs /\ plot_events im title evs.
Proof.
  unfold plot. intros H.
  step_bind H v1 H1. apply os_inr in H1.
  step_bind H v2 H2. apply os_inr in H2.
  step_bind H v3 H3. apply os_inr in H3.
  step_bind H v4 H4. apply os_inr in H4.
  step_bind H v5 H5. apply os_inr in H5.
  step_bind H v6 H6. apply os_inr in H6.
  unfold ret. cbn [fst]. rewrite H6, H5, H4, H3, H2, H1. rewrite <- !app_assoc. cbn [app].
  eexists. split; [reflexivity|]. exists v1, v2, v3, v4, v5, v6. reflexivity.
Qed.

Lemma getattr_range {Sys Rng A} (hparams : gmap string pyval) name n
    (k : list nat -> M Sys Rng A) st :
  hparams !! name = Some (py_int n) ->
  bind (getattr hparams name) (fun v => bind (py_range v) k) st
  = k (seq 0 (Z.to_nat n)) st.
Proof. intros H. unfold bind, getattr. rewrite H. reflexivity. Qed.

Lemma prediction_loop_runs {Sys Rng} (w : World Sys Rng)
    (hparams : gmap string pyval) (text : string) (model : obj)
    (y y_hat : tensor float32) (st : state Sys Rng) (n : Z) :
  hparams !! "out_days" = Some (py_int n) ->
  snd (show_prediction_4_10 w hparams text (data_mask w model) y y_hat st) = inr tt ->
  exists chunks,
    new_events st (fst (show_prediction_4_10 w hparams text (data_mask w model) y y_hat st))
    = concat chunks /\
    Forall2 (prediction_day_shown (w_sum w) model text y y_hat)
            (seq 0 (Z.to_nat n)) chunks.
Proof.
  intros Hn. unfold show_prediction_4_10.
  rewrite (getattr_range _ _ _ _ _ Hn).
  intros H.
  eapply for_chunks in H.
  - destruct H as (chunks & Hlog & Hall). exists chunks.
    split; [apply new_events_app; exact Hlog | exact Hall].
  - clear. intros i st H.
    step_lift H im Him.
    step_lift H close Hclose.
    step_bind H m Hm. apply data_mask_runs in Hm.
    step_lift H accuracy Hacc.
    step_lift H figure Hfig.
    step_bind H u Hplot. destruct u. apply plot_runs in Hplot.
    destruct Hplot as (drawn & Hdrawn & Hevs).
    step_bind H v Hshow. apply os_inr in Hshow.
    unfold ret. cbn [fst]. rewrite Hshow, Hdrawn, Hm. rewrite <- !app_assoc. cbn [app].
    eexists. split; [reflexivity|].
    destruct accuracy as [acc|?]; simpl in Hfig; [|discriminate].
    inversion Hfig; subst figure.
    exists m, im, acc, drawn, v. repeat split; auto.
    unfold accuracy_day. rewrite Hclose. simpl. exact Hacc.
Qed.

Lemma error_loop_runs {Sys Rng} (w : World Sys Rng)
    (hparams : gmap string pyval) (text : string) (model : obj)
    (y y_hat : tensor float32) (st : state Sys Rng) (n : Z) :
  hparams !! "out_days" = Some (py_int n) ->
  snd (show_error_4_10 w hparams text (data_mask w model) y y_hat st) = inr tt ->
  exists chunks,
    new_events st (fst (show_error_4_10 w hparams text (data_mask w model) y y_hat st))
    = concat chunks /\
    Forall2 (error_day_shown (w_sum w) model text y y_hat)
            (seq 0 (Z.to_nat n)) chunks.
Proof.
  intros Hn. unfold show_error_4_10.
  rewrite (getattr_range _ _ _ _ _ Hn).
  intros H.
  eapply for_chunks in H.
  - destruct H as (chunks & Hlog & Hall). exists chunks.
    split; [apply new_events_app; exact Hlog | exact Hall].
  - clear. intros i st H.
    step_lift H d Hd.
    step_lift H im Him.
    step_lift H err Herr.
    step_bind H m Hm. apply data_mask_runs in Hm.
    step_lift H mae Hmae.
    step_lift H figure Hfig.
    apply plot_runs in H. destruct H as (drawn & Hdrawn & Hevs).
    rewrite Hdrawn, Hm. rewrite <- !app_assoc. cbn [app].
    eexists. split; [reflexivity|].
    destruct mae as [v|?]; simpl in Hfig; [|discriminate].
    inversion Hfig; subst figure.
    exists m, d, im, v, drawn. repeat split; auto.
    unfold mae_day. rewrite Herr. simpl. exact Hmae.
Qed.

(** X13. When a loop over the forecast days of the 4-in/10-out notebook
    returns, it has gone through the days 0 to [out_days] - 1 in order.
    The prediction loop has, for each day, read the mask, drawn the
    prediction of the day under a title that carries the accuracy of that
    day at two decimals, and shown the figure.  The error loop has, for
    each day, read the mask and drawn the absolute error of the day under
    a title that carries the MAE of that day at three decimals. *)
Theorem loops_show_the_figures_of_each_day {Sys Rng} (w : World Sys Rng)
    (hparams : gmap string pyval) (text : string) (model : obj)
    (y y_hat : tensor float32) (st : state Sys Rng) (n : Z) :
  hparams !! "out_days" = Some (py_int n) ->
  (snd (show_prediction_4_10 w hparams text (data_mask w model) y y_hat st) = inr tt ->
   exists chunks,
     new_events st
       (fst (show_prediction_4_10 w hparams text (data_mask w model) y y_hat st))
     = concat chunks /\
     Forall2 (prediction_day_shown (w_sum w) model text y y_hat)
             (seq 0 (Z.to_nat n)) chunks)
  /\
  (snd (show_error_4_10 w hparams text (data_mask w model) y y_hat st) = inr tt ->
   exists chunks,
     new_events st (fst (show_error_4_10 w hparams text (data_mask w model) y y_hat st))
     = concat chunks /\
     Forall2 (error_day_shown (w_sum w) model text y y_hat)
             (seq 0 (Z.to_nat n)) chunks).
Proof.
  intros Hn. split; intros H.
  - eapply prediction_loop_runs; eauto.
  - eapply error_loop_runs; eauto.
Qed.

Lemma loops_show_the_figures_of_each_day_witness :
  exists chunks,
    new_events demo_plain
      (fst (show_prediction_4_10 demo_world demo_two_days "Predicted "
              (data_mask demo_world 1) demo_y_two_days demo_y_hat_two_days demo_plain))
    = concat chunks /\
    Forall2 (prediction_day_shown (w_sum demo_world) 1 "Predicted "
               demo_y_two_days demo_y_hat_two_days)
            (seq 0 (Z.to_nat 2)) chunks.
Proof.
  apply (proj1 (loops_show_the_figures_of_each_day demo_world demo_two_days "Predicted " 1
                  demo_y_two_days demo_y_hat_two_days demo_plain 2
                  ltac:(vm_compute; reflexivity))).
  vm_compute. reflexivity.
Defined.

(** X14. When the prediction cell of the 2-in/1-out notebook returns, it
    has read the mask and drawn the prediction under a title that carries
    the accuracy at two decimals; when the error cell returns, it has read
    the mask and drawn the absolute error under a title that carries the
    MAE at three decimals.  Neither calls anything else. *)
Theorem cells_show_the_figures_2_1 {Sys Rng} (w : World Sys Rng)
    (text : string) (model : obj) (y y_hat : tensor float32) (st : state Sys Rng) :
  (snd (show_prediction_2_1 w text (data_mask w model) y y_hat st) = inr tt ->
   prediction_shown_2_1 (w_sum w) model text y y_hat
     (new_events st (fst (show_prediction_2_1 w text (data_mask w model) y y_hat st))))
  /\
  (snd (show_error_2_1 w text (data_mask w model) y y_hat st) = inr tt ->
   error_shown_2_1 (w_sum w) model text y y_hat
     (new_events st (fst (show_error_2_1 w text (data_mask w model) y y_hat st)))).
Proof.
  split; intros H.
  - unfold show_prediction_2_1 in H |- *.
    step_lift H close Hclose.
    step_bind H m Hm. apply data_mask_runs in Hm.
    step_lift H m' Hexp.
    step_lift H accuracy Hacc.
    step_lift H figure Hfig.
    apply plot_runs in H. destruct H as (drawn & Hdrawn & Hevs).
    rewrite (new_events_app _ _ (ev_ml (c_data_mask model) (inr (val_mask m)) :: drawn))
      by (rewrite Hdrawn, Hm, <- app_assoc; reflexivity).
    destruct accuracy as [acc|?]; simpl in Hfig; [|discriminate].
    inversion Hfig; subst figure.
    exists m, acc, drawn. repeat split; auto.
    unfold accuracy_all. rewrite Hclose. simpl. rewrite Hexp. simpl. exact Hacc.
  - unfold show_error_2_1 in H |- *.
    step_lift H d Hd.
    step_lift H err Herr.
    step_bind H m Hm. apply data_mask_runs in Hm.
    step_lift H m' Hexp.
    step_lift H mae Hmae.
    step_lift H figure Hfig.
    apply plot_runs in H. destruct H as (drawn & Hdrawn & Hevs).
    rewrite (new_events_app _ _ (ev_ml (c_data_mask model) (inr (val_mask m)) :: drawn))
      by (rewrite Hdrawn, Hm, <- app_assoc; reflexivity).
    destruct mae as [v|?]; simpl in Hfig; [|discriminate].
    inversion Hfig; subst figure.
    exists m, d, v, drawn. repeat split; auto.
    unfold mae_all. rewrite Herr. simpl. rewrite Hexp. simpl. exact Hmae.
Qed.

Lemma cells_show_the_figures_2_1_witness :
  prediction_shown_2_1 (w_sum demo_world) 1 "Predicted " demo_y_one_day demo_y_hat_one_day
    (new_events demo_plain
       (fst (show_prediction_2_1 demo_world "Predicted " (data_mask demo_world 1)
               demo_y_one_day demo_y_hat_one_day demo_plain))).
Proof.
  apply (proj1 (cells_show_the_figures_2_1 demo_world "Predicted " 1
                  demo_y_one_day demo_y_hat_one_day demo_plain)).
  vm_compute. reflexivity.
Defined.

(** ** The figure of the input variables *)

Lemma fst_ret {Sys Rng A} (a : A) (st : state Sys Rng) : fst (ret a st) = st.
Proof. reflexivity. Qed.

Lemma getattr_inr {Sys Rng} (ns : gmap string pyval) name (st : state Sys Rng) v :
  snd (getattr ns name st) = inr v -> ns !! name = Some v /\ fst (getattr ns name st) = st.
Proof.
  unfold getattr. destruct (ns !! name); simpl; [|discriminate].
  intros H; inversion H; auto.
Qed.

Lemma input_runs {Sys Rng} (w : World Sys Rng) (hparams : gmap string pyval)
    (x : tensor float32) (n : Z) (i j : nat) (body : M Sys Rng unit) st :
  hparams !! "in_days" = Some (py_int n) ->
  body = bind (getattr hparams "in_days") (fun rows =>
         bind (os w (c_add_subplot rows (py_int 4) (4 * i + j + 1))) (fun _ =>
         bind (if i =? 0
               then bind (os w (c_set_title
                                  match j with
                                  | 0 => "Relative Humidity"
                                  | 1 => "Temperature"
                                  | 2 => "Precipitation"
                                  | _ => "Wind speed"
                                  end)) (fun _ => ret tt)
               else ret tt) (fun _ =>
         bind (if j =? 0
               then bind (os w (c_set_ylabel ("2019-04-" +:+ fmt_02 (i + 1))))
                         (fun _ => ret tt)
               else ret tt) (fun _ =>
         bind (lift (getitem (squeeze x) (4 * i + j))) (fun im =>
         bind (os w (c_imshow im
                       match j with
                       | 1 => "gist_ncar"
                       | 2 => "flag"
                       | _ => "hsv"
                       end)) (fun _ => ret tt)))))) ->
  snd (body st) = inr tt ->
  exists evs, log (fst (body st)) = log st ++ evs /\ input_shown (py_int n) x i j evs.
Proof.
  intros Hn -> H.
  step_bind H rows Hrows. apply getattr_inr in Hrows. destruct Hrows as [Hrows Hst].
  rewrite Hst in H |- *. clear Hst. rewrite Hn in Hrows. inversion Hrows; subst rows.
  step_bind H v1 H1. apply os_inr in H1.
  step_bind H u Htitle. destruct u.
  step_bind H u Hlabel. destruct u.
  step_lift H im Him.
  step_bind H v2 H2. apply os_inr in H2.
  rewrite ?fst_ret. rewrite H2.
  assert (Ht : exists vt, log (fst ((if i =? 0
               then bind (os w (c_set_title
                                  match j with
                                  | 0 => "Relative Humidity"
                                  | 1 => "Temperature"
                                  | 2 => "Precipitation"
                                  | _ => "Wind speed"
                                  end)) (fun _ => ret tt)
               else ret tt) (fst (os w (c_add_subplot (py_int n) (py_int 4) (4 * i + j + 1)) st))))
            = (log st ++ [ev_os (c_add_subplot (py_int n) (py_int 4) (4 * i + j + 1)) (inr v1)])
              ++ (if i =? 0 then [ev_os (c_set_title (variable_name j)) (inr vt)] else [])).
  { destruct (i =? 0).
    - step_bind Htitle vt Hvt. apply os_inr in Hvt. exists vt.
      rewrite ?fst_ret. rewrite Hvt, H1. reflexivity.
    - exists v1. rewrite ?fst_ret. rewrite H1, app_nil_r. reflexivity. }
  destruct Ht as (vt & Ht).
  match type of Ht with log (fst ?t) = _ => set (st2 := fst t) in * end.
  assert (Hl : exists vl, log (fst ((if j =? 0
               then bind (os w (c_set_ylabel ("2019-04-" +:+ fmt_02 (i + 1))))
                         (fun _ => ret tt)
               else ret tt) st2))
            = log st2
              ++ (if j =? 0
                  then [ev_os (c_set_ylabel ("2019-04-" +:+ fmt_02 (i + 1))) (inr vl)]
                  else [])).
  { destruct (j =? 0).
    - step_bind Hlabel vl Hvl. apply os_inr in Hvl. exists vl.
      rewrite ?fst_ret. rewrite Hvl. reflexivity.
    - exists v1. rewrite ?fst_ret. rewrite app_nil_r. reflexivity. }
  destruct Hl as (vl & Hl). rewrite Hl, Ht.
  eexists. split; [rewrite <- !app_assoc; reflexivity|].
  exists v1, vt, vl, im, v2. split; [exact Him|]. reflexivity.
Qed.

(** X15. When the cell "Input variables" returns, it has made one figure
    20 wide and 4 times [in_days] high, and gone through the days 0 to
    [in_days] - 1 and, within a day, the four input variables in order:
    subplot [4*i+j+1] of the grid of [in_days] by 4 shows channel [4*i+j]
    of [x.squeeze()], the first row carries the names of the variables,
    the first column the days; then it has shown the figure. *)
Theorem input_figure_shows_every_channel {Sys Rng} (w : World Sys Rng)
    (hparams : gmap string pyval) (x : tensor float32) (title : string)
    (st : state Sys Rng) (n : Z) :
  hparams !! "in_days" = Some (py_int n) ->
  snd (plot_inputs w hparams x title st) = inr tt ->
  exists v1 v2 rows v3,
    new_events st (fst (plot_inputs w hparams x title st))
    = ev_os (c_figure (py_int 20) (py_int (n * 4))) (inr v1)
      :: ev_os (c_suptitle [lit title]) (inr v2)
      :: concat (map (@concat event) rows) ++ [ev_os c_show (inr v3)] /\
    Forall2 (fun i row => Forall2 (input_shown (py_int n) x i) (seq 0 4) row)
            (seq 0 (Z.to_nat n)) rows.
Proof.
  intros Hn. unfold plot_inputs. intros H.
  step_bind H in_days Hd. apply getattr_inr in Hd. destruct Hd as [Hd Hst].
  rewrite Hst in H |- *. clear Hst. rewrite Hn in Hd. inversion Hd; subst in_days.
  step_bind H height Hh. simpl in Hh. inversion Hh; subst height.
  change (fst (py_mul_4 (py_int n) st)) with st in H |- *.
  step_bind H v1 H1. apply os_inr in H1.
  step_bind H v2 H2. apply os_inr in H2.
  rewrite (getattr_range _ _ _ _ _ Hn) in H |- *.
  step_bind H u Hfor. destruct u.
  eapply (for_chunks _ _
            (fun i evs => exists row, evs = concat row /\
               Forall2 (input_shown (py_int n) x i) (seq 0 4) row)) in Hfor.
  - destruct Hfor as (chunks & Hlog & Hall).
    step_bind H v3 H3. apply os_inr in H3.
    assert (Hrows : exists rows, chunks = map (@concat event) rows /\
              Forall2 (fun i row => Forall2 (input_shown (py_int n) x i) (seq 0 4) row)
                      (seq 0 (Z.to_nat n)) rows).
    { clear -Hall. induction Hall as [|i evs l chunks (row & -> & Hrow) _ (rows & -> & IH)].
      - exists []. split; [reflexivity | constructor].
      - exists (row :: rows). split; [reflexivity | constructor; assumption]. }
    destruct Hrows as (rows & -> & Hrows).
    exists v1, v2, rows, v3. split; [|exact Hrows].
    apply new_events_app. rewrite fst_ret, H3, Hlog, H2, H1.
    rewrite <- !app_assoc. reflexivity.
  - clear -Hn. intros i st' H.
    eapply for_chunks in H.
    + destruct H as (row & Hlog & Hrow). eexists. split; [exact Hlog|].
      exists row. split; [reflexivity | exact Hrow].
    + intros j st'' H'. eapply input_runs; [exact Hn | reflexivity | exact H'].
Qed.

Lemma input_figure_shows_every_channel_witness :
  exists v1 v2 rows v3,
    new_events demo_plain
      (fst (plot_inputs demo_world demo_two_in_days demo_x_two_days "Input" demo_plain))
    = ev_os (c_figure (py_int 20) (py_int (2 * 4))) (inr v1)
      :: ev_os (c_suptitle [lit "Input"]) (inr v2)
      :: concat (map (@concat event) rows) ++ [ev_os c_show (inr v3)] /\
    Forall2 (fun i row => Forall2 (input_shown (py_int 2) demo_x_two_days i) (seq 0 4) row)
            (seq 0 (Z.to_nat 2)) rows.
Proof.
  apply (input_figure_shows_every_channel demo_world demo_two_in_days demo_x_two_days
           "Input" demo_plain 2).
  - vm_compute. reflexivity.
  - vm_compute. reflexivity.
Defined.

(** ** A day that is not there *)

(** X16. The figures of a day beyond the days of the ground truth raise
    an IndexError: for tensors of shape (1, n, h, w) with [n], [h], [w]
    other than one, the accuracy and the MAE of day [i] with [n <= i] are
    not computed, whatever the mask. *)
Theorem figures_of_a_missing_day
    sum (y y_hat : tensor float32) (mask : tensor bool) (n h w i : nat) :
  has_shape y [1; n; h; w] -> has_shape y_hat [1; n; h; w] ->
  n <> 1 -> h <> 1 -> w <> 1 -> n <= i ->
  accuracy_day sum y y_hat mask i = inl (IndexError "index out of range") /\
  mae_day sum y y_hat mask i = inl (IndexError "index out of range").
Proof.
  intros Hy Hh Hn1 Hh1 Hw1 Hi.
  destruct (elementwise_same_shape f32_sub _ _ _ Hy Hh) as (d & Hd & Hds & Hdc).
  unfold accuracy_day, mae_day, close_day, error_day, tsub. rewrite Hd. simpl rbind.
  apply has_shape_cons in Hds. destruct Hds as (l0 & -> & Hl0 & Hd0).
  destruct l0 as [|d0 [|? ?]]; simpl in Hl0; try lia.
  inversion Hd0 as [|? ? Hd0s _]; subst.
  change (squeeze (Dim [d0])) with (squeeze d0).
  rewrite (squeeze_no_singleton d0 [n; h; w] Hd0s) by (repeat constructor; assumption).
  apply has_shape_cons in Hd0s. destruct Hd0s as (days & -> & Hdays & Hg).
  simpl getitem. rewrite (lookup_ge_None_2 days i) by lia. auto.
Qed.

Lemma figures_of_a_missing_day_witness :
  accuracy_day sum_left demo_y_two_days demo_y_hat_two_days demo_mask 2
  = inl (IndexError "index out of range") /\
  mae_day sum_left demo_y_two_days demo_y_hat_two_days demo_mask 2
  = inl (IndexError "index out of range").
Proof.
  apply (figures_of_a_missing_day sum_left demo_y_two_days demo_y_hat_two_days
           demo_mask 2 2 2 2 ltac:(simpl; tauto) ltac:(simpl; tauto)); lia.
Defined.

(** ** A single day and the expression of the 4-in/10-out notebook *)

(** X18. The accuracy and MAE expressions of the 4-in/10-out notebook do
    not work on a single forecast day: for tensors of shape (1, 1, h, w)
    with [h] and [w] other than one, [squeeze()] drops the dimension of the
    days with the batch dimension, [[i]] then takes a row of the grid (or
    nothing), and the two-dimensional mask does not index a row: an
    IndexError is raised, whatever the day [i].  (The 2-in/1-out notebook
    has the expression without [squeeze()[i]] and with
    [mask.expand_as(y)].) *)
Theorem day_expression_fails_on_one_day
    sum (y y_hat : tensor float32) (mask : tensor bool) (h w i : nat) :
  has_shape y [1; 1; h; w] -> has_shape y_hat [1; 1; h; w] -> has_shape mask [h; w] ->
  h <> 1 -> w <> 1 ->
  (exists e, accuracy_day sum y y_hat mask i = inl e /\ exc_class e = "IndexError") /\
  (exists e, mae_day sum y y_hat mask i = inl e /\ exc_class e = "IndexError").
Proof.
  intros Hy Hh Hm Hh1 Hw1.
  destruct (elementwise_same_shape f32_sub _ _ _ Hy Hh) as (d & Hd & Hds & Hdc).
  unfold accuracy_day, mae_day, close_day, error_day, tsub. rewrite Hd. simpl rbind.
  apply has_shape_cons in Hds. destruct Hds as (l0 & -> & Hl0 & Hd0).
  destruct l0 as [|d0 [|? ?]]; simpl in Hl0; try lia.
  inversion Hd0 as [|? ? Hd0s _]; subst.
  apply has_shape_cons in Hd0s. destruct Hd0s as (l1 & -> & Hl1 & Hd1).
  destruct l1 as [|g [|? ?]]; simpl in Hl1; try lia.
  inversion Hd1 as [|? ? Hgs _]; subst.
  change (squeeze (Dim [Dim [g]])) with (squeeze g).
  rewrite (squeeze_no_singleton g [h; w] Hgs) by (repeat constructor; assumption).
  apply has_shape_cons in Hgs. destruct Hgs as (rows & -> & Hrows & Hr).
  simpl getitem.
  destruct (rows !! i) as [row|] eqn:Hrow; simpl rbind;
    [|split; eexists; split; reflexivity].
  assert (Hrs : has_shape row [w]) by (eapply Forall_lookup_1 in Hr; eauto).
  apply has_shape_cons in Hrs. destruct Hrs as (cs & -> & Hcs & Hc).
  apply has_shape_cons in Hm. destruct Hm as (ms & -> & Hms & Hmr).
  assert (Hh0 : 0 < h) by (apply lookup_lt_Some in Hrow; lia).
  destruct ms as [|m0 ms]; [simpl in Hms; lia|].
  inversion Hmr as [|? ? Hm0 _]; subst.
  apply has_shape_cons in Hm0. destruct Hm0 as (bs & -> & _ & _).
  unfold percent_selected, mean_selected, getitem_mask, tlt_9_4, tabs.
  destruct cs as [|c cs].
  - split; eexists; split; reflexivity.
  - inversion Hc as [|? ? Hc0 _]; subst.
    apply has_shape_Scalar in Hc0. destruct Hc0 as [v ->].
    split; eexists; split; reflexivity.
Qed.

Lemma day_expression_fails_on_one_day_witness :
  (exists e, accuracy_day sum_left demo_y_one_day demo_y_hat_one_day demo_mask 0 = inl e /\
             exc_class e = "IndexError") /\
  (exists e, mae_day sum_left demo_y_one_day demo_y_hat_one_day demo_mask 0 = inl e /\
             exc_class e = "IndexError").
Proof.
  apply (day_expression_fails_on_one_day sum_left demo_y_one_day demo_y_hat_one_day
           demo_mask 2 2 0 ltac:(simpl; tauto) ltac:(simpl; tauto) ltac:(simpl; tauto));
    lia.
Defined.

(** ** The case-study cell *)

(** When the case-study cell returns, it has read the mask of the data
    accessor and nothing else, and its three results are what the slicing
    expression [region] makes of [y] and of [y_hat] and what the slicing
    of the mask makes of the mask it read. *)
Lemma case_study_runs {Sys Rng} (w : World Sys Rng)
    (region : tensor float32 -> result (tensor float32)) (model : obj)
    (y y_hat : tensor float32) (st : state Sys Rng)
    (y_case y_hat_case : tensor float32) (mask_case : tensor bool) :
  snd (case_study w region model y y_hat st) = inr (y_case, y_hat_case, mask_case) ->
  exists mask,
    new_events st (fst (case_study w region model y y_hat st))
    = [ev_ml (c_data_mask model) (inr (val_mask mask))] /\
    region y = inr y_case /\
    region y_hat = inr y_hat_case /\
    case_region_mask mask = inr mask_case.
Proof.
  unfold case_study. intros H.
  step_lift H yc Hy.
  step_lift H hc Hh.
  step_bind H m Hm. apply data_mask_runs in Hm.
  step_lift H mc Hmc.
  unfold ret in H |- *. cbn [fst snd] in H |- *. inversion H; subst.
  exists m. split; [apply new_events_app; exact Hm | auto].
Qed.

(** C9. The case-study cell cuts one and the same region, rows 355 to 479
    and columns 400 to 549, out of the ground truth, out of the prediction
    and out of the mask.  When the cell returns [y_case], [y_hat_case] and
    [mask_case], it has read [model.data.mask] and called nothing else, and
    at every position of the case-study tensors the three entries come
    from one and the same position of the full grids of [y], of [y_hat]
    and of the mask it read (for every day in the 4-in/10-out notebook,
    for the single day in the 2-in/1-out notebook). *)
Theorem case_study_same_region {Sys Rng} (w : World Sys Rng) (model : obj)
    (y y_hat : tensor float32) (st : state Sys Rng)
    (y_case y_hat_case : tensor float32) (mask_case : tensor bool) :
  (snd (case_study w case_region_days model y y_hat st)
   = inr (y_case, y_hat_case, mask_case) ->
   exists mask,
     new_events st (fst (case_study w case_region_days model y y_hat st))
     = [ev_ml (c_data_mask model) (inr (val_mask mask))] /\
     forall c,
       cut_from (fun p => tget y (0 :: c :: p)) (fun p => tget y_case (c :: p)) /\
       cut_from (fun p => tget y_hat (0 :: c :: p)) (fun p => tget y_hat_case (c :: p)) /\
       cut_from (tget mask) (tget mask_case))
  /\
  (snd (case_study w case_region_single model y y_hat st)
   = inr (y_case, y_hat_case, mask_case) ->
   exists mask,
     new_events st (fst (case_study w case_region_single model y y_hat st))
     = [ev_ml (c_data_mask model) (inr (val_mask mask))] /\
     cut_from (fun p => tget y (0 :: 0 :: p)) (tget y_case) /\
     cut_from (fun p => tget y_hat (0 :: 0 :: p)) (tget y_hat_case) /\
     cut_from (tget mask) (tget mask_case)).
Proof.
  split; intros H; apply case_study_runs in H;
    destruct H as (mask & Hev & Hy & Hh & Hm); exists mask; (split; [exact Hev|]).
  - intros c. split; [|split].
    + exact (case_region_days_cut _ _ c Hy).
    + exact (case_region_days_cut _ _ c Hh).
    + exact (cut_from_getslice _ _ Hm).
  - split; [|split].
    + exact (case_region_single_cut _ _ Hy).
    + exact (case_region_single_cut _ _ Hh).
    + exact (cut_from_getslice _ _ Hm).
Qed.

Lemma case_study_same_region_witness :
  (exists mask,
     new_events demo_plain (fst demo_case_days)
     = [ev_ml (c_data_mask 1) (inr (val_mask mask))] /\
     forall c,
       cut_from (fun p => tget demo_wide_y (0 :: c :: p))
                (fun p => tget (fst (fst (returned no_case demo_case_days))) (c :: p)) /\
       cut_from (fun p => tget demo_wide_y_hat (0 :: c :: p))
                (fun p => tget (snd (fst (returned no_case demo_case_days))) (c :: p)) /\
       cut_from (tget mask) (tget (snd (returned no_case demo_case_days))))
  /\
  (exists mask,
     new_events demo_plain (fst demo_case_single)
     = [ev_ml (c_data_mask 1) (inr (val_mask mask))] /\
     cut_from (fun p => tget demo_wide_y (0 :: 0 :: p))
              (tget (fst (fst (returned no_case demo_case_single)))) /\
     cut_from (fun p => tget demo_wide_y_hat (0 :: 0 :: p))
              (tget (snd (fst (returned no_case demo_case_single)))) /\
     cut_from (tget mask) (tget (snd (returned no_case demo_case_single)))).
Proof.
  split.
  - apply (proj1 (case_study_same_region demo_world_wide 1 demo_wide_y demo_wide_y_hat
                    demo_plain
                    (fst (fst (returned no_case demo_case_days)))
                    (snd (fst (returned no_case demo_case_days)))
                    (snd (returned no_case demo_case_days)))).
    vm_compute. reflexivity.
  - apply (proj2 (case_study_same_region demo_world_wide 1 demo_wide_y demo_wide_y_hat
                    demo_plain
                    (fst (fst (returned no_case demo_case_single)))
                    (snd (fst (returned no_case demo_case_single)))
                    (snd (returned no_case demo_case_single)))).
    vm_compute. reflexivity.
Defined.

(** The case-study cell of the small world returns the marked cell of the
    wide grid at row 3, column 7 of day 1. *)
Example case_study_demo_cell :
  cell (fst (fst (returned no_case demo_case_days))) [1; 3; 7] = Some demo_twenty.
Proof. vm_compute. reflexivity. Qed.

(** ** Errors reach the caller *)

Lemma accepts_propagate_last e post s' :
  accepts propagate_step (Some e) post = Some s' ->
  Forall (fun ev' => is_close ev' = true) post /\ s' = Some (last_raised e post).
Proof.
  revert e; induction post as [|ev post IH]; intros e H; simpl in H.
  - inversion H; subst. split; [constructor | reflexivity].
  - destruct (is_close ev) eqn:Hc; [|discriminate].
    simpl. destruct (raised ev) as [e'|];
      destruct (IH _ H) as [Hf Hs]; (split; [constructor; auto | exact Hs]).
Qed.

Lemma accepts_propagate_returns l :
  forall s, accepts propagate_step s l = Some None ->
            s = None /\ forall ev, In ev l -> raised ev = None.
Proof.
  induction l as [|ev l IH]; intros s H; simpl in H.
  - inversion H; subst. split; [reflexivity | intros ev []].
  - destruct (propagate_step s ev) as [s1|] eqn:Hs; [|discriminate].
    destruct (IH _ H) as [-> Hl].
    destruct s as [e|]; simpl in Hs.
    + destruct (is_close ev); [|discriminate]. destruct (raised ev); discriminate.
    + injection Hs as Hev. split; [reflexivity|].
      intros ev' [Heq|Hin]; [subst ev'; exact Hev | exact (Hl ev' Hin)].
Qed.

Lemma stable_propagates_through_close {Sys Rng A} (m : M Sys Rng A) :
  stable propagate_step in_flight None m -> propagates_through_close m.
Proof.
  intros Hm g sy. destruct (Hm (State g sy [])) as (new & s' & Hlog & Hacc & Hres).
  simpl in Hlog. cbv zeta. rewrite Hlog. split; [|split].
  - intros Hn. apply accepts_propagate_quiet in Hacc; [|exact Hn]. subst s'.
    destruct (snd (m (State g sy []))) as [e|a]; [discriminate | eauto].
  - intros a Ha. rewrite Ha in Hres. subst s'.
    exact (proj2 (accepts_propagate_returns _ _ Hacc)).
  - intros pre ev e post -> Hpre Hev.
    rewrite accepts_app in Hacc.
    destruct (accepts propagate_step None pre) as [s1|] eqn:Hacc1; [|discriminate].
    apply accepts_propagate_quiet in Hacc1; [|exact Hpre]. subst s1.
    simpl in Hacc. rewrite Hev in Hacc.
    apply accepts_propagate_last in Hacc. destruct Hacc as [Hf ->].
    split; [exact Hf|].
    destruct (snd (m (State g sy []))) as [e'|a].
    + inversion Hres; subst. reflexivity.
    + discriminate.
Qed.

(** *** The configuration of logging and warnings *)

Lemma heedless_config n : heedless config_step cares_session n.
Proof.
  repeat split; try reflexivity.
  intros c r Hc. destruct c; try discriminate; reflexivity.
Qed.

Lemma ml_quiet_config c : ml_quiet config_step any_state 2 c.
Proof.
  split.
  - intros a. reflexivity.
  - intros e. exists 2. split; [reflexivity | exact I].
Qed.

Lemma config_close file s1 r : is_Some (config_step s1 (ev_os (c_close file) r)).
Proof. simpl. eauto. Qed.

#[local] Hint Resolve heedless_config ml_quiet_config config_close : heed.

Section ConfigNotebooks.
Context {Sys Rng : Type}.
Variable w : World Sys Rng.

(** A call that is no configuration call leaves the monitor where it
  is. *)
Lemma stable_config_os n c :
  configuration_call c = false -> stable config_step any_state n (os w c).
Proof.
  intros Hc. apply triple_os. intros r. exists n. split.
  - destruct c; try discriminate; reflexivity.
  - destruct r; [exact I | reflexivity].
Qed.

Ltac config_step_tac :=
  repeat first
    [ apply stable_ret
    | apply stable_bind; [|intros]
    | apply stable_for; intros
    | apply stable_config_os; reflexivity
    | eapply heed_as_str; apply heedless_config ].

Lemma stable_config_import_ n module : stable config_step any_state n (import_ w module).
Proof. unfold import_. config_step_tac. Qed.

Lemma stable_config_autoreload n : stable config_step any_state n (autoreload w).
Proof. unfold autoreload. config_step_tac. Qed.

Lemma stable_config_enter_src n : stable config_step any_state n (enter_src w).
Proof. unfold enter_src. config_step_tac. Qed.

(** The cell of imports makes the two configuration calls. *)
Lemma triple_config_imports :
  triple config_step any_state 0 (imports w) (fun _ s' => s' = 2).
Proof.
  unfold imports.
  apply triple_bind_stable; [apply stable_for; intros; apply stable_config_import_|].
  intros _.
  eapply triple_bind.
  { apply (triple_os _ _ _ _ _ (fun _ s' => s' = 1)). intros r. exists 1.
    split; [reflexivity | destruct r; [exact I | reflexivity]]. }
  intros _ s' ->.
  apply triple_bind_stable; [apply stable_config_os; reflexivity|]. intros _.
  eapply triple_bind.
  { apply (triple_os _ _ _ _ _ (fun _ s' => s' = 2)). intros r. exists 2.
    split; [reflexivity | destruct r; [exact I | reflexivity]]. }
  intros _ s' ->.
  apply triple_of_stable; [|reflexivity].
  apply stable_for; intros; apply stable_config_import_.
Qed.

Lemma stable_config_pickle_test_set n files :
  stable config_step any_state n (pickle_test_set w files).
Proof.
  unfold pickle_test_set. config_step_tac.
  eapply heed_with_file;
    [apply heedless_config | reflexivity | intros; apply config_close |].
  config_step_tac.
Qed.

Lemma triple_config_4_10 :
  triple config_step any_state 0 (notebook_4_10 w) (fun _ _ => True).
Proof.
  unfold notebook_4_10.
  apply triple_bind_stable; [apply stable_config_enter_src | intros _].
  eapply triple_bind; [apply triple_config_imports|]. intros _ s' ->.
  apply triple_bind_stable; [heed_cell; heed_sides | intros _].
  apply triple_bind_stable; [heed_cell; heed_sides | intros _].
  apply triple_bind_stable; [apply stable_config_pickle_test_set | intros].
  repeat heed_notebook_step.
  apply triple_of_stable; [heed_cell; heed_sides | auto].
Qed.

Lemma triple_config_2_1 :
  triple config_step any_state 0 (notebook_2_1 w) (fun _ _ => True).
Proof.
  unfold notebook_2_1.
  apply triple_bind_stable; [apply stable_config_autoreload | intros _].
  apply triple_bind_stable; [apply stable_config_enter_src | intros _].
  eapply triple_bind; [apply triple_config_imports|]. intros _ s' ->.
  apply triple_bind_stable; [heed_cell; heed_sides | intros _].
  apply triple_bind_stable; [apply stable_config_pickle_test_set | intros].
  repeat heed_notebook_step.
  apply triple_of_stable; [heed_cell; heed_sides | auto].
Qed.
End ConfigNotebooks.

Lemma configuration_calls_snoc l ev :
  configuration_calls (l ++ [ev]) = configuration_calls l ++ configuration_calls [ev].
Proof. unfold configuration_calls. apply flat_map_app. Qed.

Lemma config_step_seen n1 ev n pre :
  configuration_calls pre = take n1 logging_and_warnings ->
  config_step n1 ev = Some n ->
  configuration_calls (pre ++ [ev]) = take n logging_and_warnings.
Proof.
  intros H Hs. rewrite configuration_calls_snoc, H.
  destruct ev as [c r|cmd z|c r|g z|b|e]; simpl in Hs;
    try (inversion Hs; subst; apply app_nil_r).
  - destruct c; try (inversion Hs; subst; apply app_nil_r).
    + destruct n1; [|discriminate]. inversion Hs; subst. reflexivity.
    + destruct n1 as [|[|n1]]; try discriminate. simpl in Hs.
      destruct (String.eqb_spec action "ignore") as [->|]; [|discriminate].
      inversion Hs; subst. reflexivity.
  - destruct (Nat.eqb_spec n1 2) as [->|]; [|discriminate]. inversion Hs; subst.
    apply app_nil_r.
Qed.

Lemma accepts_config_seen l :
  forall n, accepts config_step 0 l = Some n ->
            configuration_calls l = take n logging_and_warnings.
Proof.
  induction l as [|ev l IH] using rev_ind; intros n H.
  - inversion H; subst. reflexivity.
  - rewrite accepts_snoc in H.
    destruct (accepts config_step 0 l) as [n1|] eqn:Hl; [|discriminate].
    eapply config_step_seen; eauto.
Qed.

Lemma triple_only_logging_and_warnings {Sys Rng A} (m : M Sys Rng A) :
  triple config_step any_state 0 m (fun _ _ => True) -> only_logging_and_warnings m.
Proof.
  intros Hm g sy. destruct (Hm (State g sy [])) as (new & s' & Hnew & Hacc & _).
  simpl in Hnew. cbv zeta. rewrite Hnew. split.
  - exists s'. apply accepts_config_seen. exact Hacc.
  - intros pre ev post -> Hev.
    rewrite accepts_app in Hacc.
    destruct (accepts config_step 0 pre) as [n1|] eqn:Hpre; [|discriminate].
    apply accepts_config_seen in Hpre. rewrite Hpre.
    destruct ev as [c r|cmd z|c r|g' z|b|e]; try discriminate.
    simpl in Hacc. destruct (Nat.eqb_spec n1 2) as [->|]; [reflexivity | discriminate].
Qed.

(** C7, as stated, fails.  In a run where [pickle.dump] raises and the
    closing of the temporary file raises too, the run ends with the
    exception of the closing: what [pickle.dump] raised does not reach the
    caller. *)
Lemma pickling_error_replaced_by_closing_error :
  In (ev_os (c_pickle_dump test_out_files_2_1 "/tmp/tmpq0x1") (inl disk_full))
     (log (fst (notebook_2_1 demo_world_close_fails demo_start))) /\
  snd (notebook_2_1 demo_world_close_fails demo_start) = inl io_error /\
  ~ propagates_unchanged (notebook_2_1 demo_world_close_fails) /\
  ~ propagates_unchanged (notebook_4_10 demo_world_close_fails).
Proof.
  assert (H2 : In (ev_os (c_pickle_dump test_out_files_2_1 "/tmp/tmpq0x1")
                         (inl disk_full))
                  (log (fst (notebook_2_1 demo_world_close_fails demo_start)))).
  { vm_compute. repeat (first [left; reflexivity | right]). }
  assert (H4 : In (ev_os (c_pickle_dump test_out_files_4_10 "/tmp/tmpq0x1")
                         (inl disk_full))
                  (log (fst (notebook_4_10 demo_world_close_fails demo_start)))).
  { vm_compute. repeat (first [left; reflexivity | right]). }
  split; [exact H2|]. split; [vm_compute; reflexivity|]. split.
  - intros H. apply in_split in H2. destruct H2 as (pre & post & Hlog).
    specialize (H demo_rngs demo_sys pre _ disk_full post Hlog eq_refl).
    vm_compute in H. discriminate.
  - intros H. apply in_split in H4. destruct H4 as (pre & post & Hlog).
    specialize (H demo_rngs demo_sys pre _ disk_full post Hlog eq_refl).
    vm_compute in H. discriminate.
Qed.

(** C7, amended.  Nothing in either notebook catches an exception or
    recovers from one.  Whatever the outside answers, a run in which
    nothing raised returns, and in a run that returns nothing raised; in a
    run in which something raised, nothing ran after the first raising
    event but, inside the [with] statement of the pickling cell, the
    closing of the temporary file, and the run ends raising the exception
    of that first event, unless the closing raised too: then it ends
    raising the exception of the closing.  The calls that configure the
    reporting of errors are [logging.disable(sys.maxsize)] and
    [warnings.filterwarnings('ignore')], once each and in this order,
    before any call to train.py, torch, scipy or pytorch-lightning. *)
Theorem errors_reach_the_caller {Sys Rng} (w : World Sys Rng) :
  propagates_through_close (notebook_4_10 w) /\
  propagates_through_close (notebook_2_1 w) /\
  only_logging_and_warnings (notebook_4_10 w) /\
  only_logging_and_warnings (notebook_2_1 w).
Proof.
  split; [apply stable_propagates_through_close, stable_propagate_4_10|].
  split; [apply stable_propagates_through_close, stable_propagate_2_1|].
  split; apply triple_only_logging_and_warnings.
  - apply triple_config_4_10.
  - apply triple_config_2_1.
Qed.

Lemma no_raise_check (l : list event) :
  forallb (fun ev => match raised ev with None => true | Some _ => false end) l = true ->
  forall ev, In ev l -> raised ev = None.
Proof.
  rewrite forallb_forall. intros H ev Hin. specialize (H ev Hin).
  destruct (raised ev); [discriminate | reflexivity].
Qed.

Lemma errors_reach_the_caller_witness :
  (Forall (fun ev' => is_close ev' = true)
          (tl (snd (cut_at is_pickle_dump
                      (log (fst (notebook_2_1 demo_world_close_fails demo_start)))))) /\
   snd (notebook_2_1 demo_world_close_fails demo_start)
   = inl (last_raised disk_full
            (tl (snd (cut_at is_pickle_dump
                        (log (fst (notebook_2_1 demo_world_close_fails demo_start))))))))
  /\
  (Forall (fun ev' => is_close ev' = true) [] /\
   snd (notebook_2_1 demo_world_no_checkpoint demo_start)
   = inl (last_raised FileNotFoundError []))
  /\
  configuration_calls (fst (cut_at is_ml demo_log)) = logging_and_warnings.
Proof.
  split; [|split].
  - apply (proj2 (proj2 (proj1 (proj2 (errors_reach_the_caller demo_world_close_fails))
                           demo_rngs demo_sys))
             (fst (cut_at is_pickle_dump
                     (log (fst (notebook_2_1 demo_world_close_fails demo_start)))))
             (hd (ev_op io_error)
                 (snd (cut_at is_pickle_dump
                         (log (fst (notebook_2_1 demo_world_close_fails demo_start))))))
             disk_full
             (tl (snd (cut_at is_pickle_dump
                         (log (fst (notebook_2_1 demo_world_close_fails demo_start))))))).
    + apply (cut_at_split is_pickle_dump). vm_compute. reflexivity.
    + apply no_raise_check. vm_compute. reflexivity.
    + vm_compute. reflexivity.
  - apply (proj2 (proj2 (proj1 (proj2 (errors_reach_the_caller demo_world_no_checkpoint))
                           demo_rngs demo_sys))
             (List.removelast demo_failed_log)
             (List.last demo_failed_log (ev_op io_error))
             FileNotFoundError []).
    + apply (List.app_removelast_last (l := demo_failed_log)).
      intros H. apply (f_equal (@length event)) in H. vm_compute in H. discriminate.
    + apply no_raise_check. vm_compute. reflexivity.
    + vm_compute. reflexivity.
  - apply (proj2 (proj2 (proj2 (proj2 (errors_reach_the_caller demo_world)))
                    demo_rngs demo_sys)
             (fst (cut_at is_ml demo_log))
             (hd (ev_op io_error) (snd (cut_at is_ml demo_log)))
             (tl (snd (cut_at is_ml demo_log)))).
    + apply (cut_at_split is_ml demo_log). vm_compute. reflexivity.
    + vm_compute. reflexivity.
Defined.

(** In the run on the full disk the exception of the closing is the one the
    run ends with; in the run without the checkpoint file, where one call
    raises and no [with] statement is around it, the run ends with the
    exception of that call. *)
Example closing_error_reaches_the_caller :
  last_raised disk_full
    (tl (snd (cut_at is_pickle_dump
                (log (fst (notebook_2_1 demo_world_close_fails demo_start))))))
  = io_error /\
  snd (notebook_2_1 demo_world_no_checkpoint demo_start) = inl FileNotFoundError.
Proof. split; vm_compute; reflexivity. Qed.

(** ** The transform goes by the place in the notebook *)

Lemma no_ml_snoc l ev : no_ml l -> is_ml ev = false -> no_ml (l ++ [ev]).
Proof.
  intros Hl Hev c r Hin. apply in_app_or in Hin. destruct Hin as [Hin|[Heq|[]]].
  - exact (Hl c r Hin).
  - subst ev. discriminate.
Qed.

Lemma second_model_snoc hp0 hp l2 pre ev :
  second_model hp0 hp l2 pre -> not_get_model ev ->
  second_model hp0 hp (l2 ++ [ev]) (pre ++ [ev]).
Proof.
  intros (l0 & r0 & l1 & r1 & -> & H0 & H1 & H2 & Hhp) Hev.
  exists l0, r0, l1, r1. repeat split; auto using no_get_model_snoc.
  repeat (rewrite <- !app_assoc; simpl). reflexivity.
Qed.

(** An event that is no [get_model] call and leaves the place as it is. *)
Lemma transform_seen_snoc s pre ev :
  transform_seen s pre -> not_get_model ev ->
  (forall lm, ph s = ph_hparams lm -> is_ml ev = false) ->
  transform_seen s (pre ++ [ev]).
Proof.
  unfold transform_seen. intros H Hev Hml.
  destruct (ph s) as [| | | |lm].
  - apply no_get_model_snoc; assumption.
  - destruct H as (hp0 & l0 & r0 & l1 & Hb & -> & H0 & H1).
    exists hp0, l0, r0, (l1 ++ [ev]). rewrite <- app_assoc.
    repeat split; auto using no_get_model_snoc.
  - destruct H as (hp0 & hp & l2 & Hb & H).
    exists hp0, hp, (l2 ++ [ev]). split; [exact Hb|]. apply second_model_snoc; assumption.
  - destruct H as (hp0 & hp & l2 & Hb & H).
    exists hp0, hp, (l2 ++ [ev]). split; [exact Hb|]. apply second_model_snoc; assumption.
  - destruct H as (hp0 & hp & l2 & model & mh & l3 & Hb & H & H3 & Hlm).
    exists hp0, hp, l2, model, mh, (l3 ++ [ev]). split; [exact Hb|]. split; [|split].
    + apply (second_model_snoc _ _ _ _ ev) in H; [|exact Hev].
      rewrite <- app_assoc in H. exact H.
    + apply no_ml_snoc; [exact H3 | exact (Hml lm eq_refl)].
    + exact Hlm.
Qed.

Ltac keep_transform H Hs :=
  inversion Hs; subst;
  apply transform_seen_snoc;
  [ exact H | intros ? ?; discriminate
  | let Hph := fresh in intros ? Hph; simpl in Hph; first [reflexivity | discriminate] ].

Lemma transform_step_seen s1 ev s pre :
  transform_seen s1 pre -> transform_step s1 ev = Some s -> transform_seen s (pre ++ [ev]).
Proof.
  intros H Hs. destruct s1 as [b p].
  destruct ev as [c r|cmd z|c r|g z|bb|e]; try (simpl in Hs; keep_transform H Hs).
  destruct c; simpl in Hs.
  - (* get_hparams *)
    destruct p; try discriminate.
    assert (Hn : no_get_model (pre ++ [ev_ml (c_get_hparams kwargs) r])).
    { apply no_get_model_snoc; [exact H | intros ? ?; discriminate]. }
    destruct r as [e|[]]; inversion Hs; subst; exact Hn.
  - (* get_model *)
    destruct p; try discriminate; destruct b as [b|]; try discriminate.
    + destruct (decide (hparams = b)) as [->|]; [|discriminate].
      inversion Hs; subst. exists b, pre, r, []. repeat split; auto. intros ? ? [].
    + destruct (decide (hparams = set_boxcox_4_10 b \/ hparams = set_boxcox_2_1 b))
        as [Hhp|]; [|discriminate].
      inversion Hs; subst.
      destruct H as (hp0 & l0 & r0 & l1 & Hb & -> & H0 & H1).
      simpl in Hb. inversion Hb; subst hp0.
      exists b, hparams, []. split; [reflexivity|].
      exists l0, r0, l1, r. repeat split; auto.
      * rewrite <- app_assoc. reflexivity.
      * intros ? ? [].
  - destruct p; try discriminate; keep_transform H Hs.
  - destruct p; try discriminate; keep_transform H Hs.
  - destruct p; try discriminate; keep_transform H Hs.
  - destruct p; try discriminate; keep_transform H Hs.
  - destruct p; try discriminate; keep_transform H Hs.
  - (* model.hparams *)
    destruct p; try discriminate.
    destruct H as (hp0 & hp & l2 & Hb & H).
    assert (Hkeep : transform_seen (TS b ph_forwarded)
                      (pre ++ [ev_ml (c_model_hparams model) r])).
    { exists hp0, hp, (l2 ++ [ev_ml (c_model_hparams model) r]).
      split; [exact Hb|]. apply second_model_snoc; [exact H | intros ? ?; discriminate]. }
    destruct r as [e|[| |mh| | | | |]]; inversion Hs; subst; try exact Hkeep.
    exists hp0, hp, l2, model, mh, []. split; [exact Hb|]. split; [|split].
    + apply (second_model_snoc _ _ _ _ (ev_ml (c_model_hparams model) (inr (val_dict mh))))
        in H; [exact H | intros ? ?; discriminate].
    + intros ? ? [].
    + reflexivity.
  - (* forward *)
    destruct p; try discriminate.
    + keep_transform H Hs.
    + destruct H as (hp0 & hp & l2 & Hb & H).
      assert (Hkeep : exists hp0 hp l2, b = Some hp0 /\
                        second_model hp0 hp l2 (pre ++ [ev_ml (c_forward model x) r])).
      { exists hp0, hp, (l2 ++ [ev_ml (c_forward model x) r]).
        split; [exact Hb|]. apply second_model_snoc; [exact H | intros ? ?; discriminate]. }
      destruct r as [e|[]]; inversion Hs; subst; exact Hkeep.
  - (* inv_boxcox *)
    destruct p as [| | | |[l|]]; try discriminate.
    destruct (decide (lmbda = l)) as [->|]; [|discriminate].
    inversion Hs; subst.
    destruct H as (hp0 & hp & l2 & model & mh & l3 & Hb & H & H3 & Hlm).
    exists hp0, hp, ((l2 ++ ev_ml (c_model_hparams model) (inr (val_dict mh)) :: l3)
                     ++ [ev_ml (c_inv_boxcox y l) r]).
    split; [exact Hb|]. apply second_model_snoc; [exact H | intros ? ?; discriminate].
  - destruct p; try discriminate; keep_transform H Hs.
  - destruct p; try discriminate; keep_transform H Hs.
Qed.

Lemma accepts_transform_seen l :
  forall s, accepts transform_step (TS None ph_none) l = Some s -> transform_seen s l.
Proof.
  induction l as [|ev l IH] using rev_ind; intros s H.
  - inversion H; subst. intros ? ? [].
  - rewrite accepts_snoc in H.
    destruct (accepts transform_step (TS None ph_none) l) as [s1|] eqn:Hl; [|discriminate].
    eapply transform_step_seen; eauto.
Qed.

Lemma set_boxcox_lambda hp0 hp :
  hp = set_boxcox_4_10 hp0 \/ hp = set_boxcox_2_1 hp0 ->
  hp !! "boxcox" = Some (py_float lit_0_1182).
Proof.
  unfold set_boxcox_4_10, set_boxcox_2_1, setattr.
  intros [-> | ->]; (rewrite lookup_insert_ne by discriminate; apply lookup_insert_eq).
Qed.

Lemma triple_transform_by_position {Sys Rng A} (m : M Sys Rng A) :
  triple transform_step any_state (TS None ph_none) m (fun _ _ => True) ->
  transform_by_position m.
Proof.
  intros Hm g sy pre t lmbda r post Hlog.
  destruct (Hm (State g sy [])) as (new & s' & Hnew & Hacc & _).
  simpl in Hnew. rewrite Hnew in Hlog. subst new.
  rewrite accepts_app in Hacc.
  destruct (accepts transform_step (TS None ph_none) pre) as [s1|] eqn:Hpre; [|discriminate].
  apply accepts_transform_seen in Hpre.
  change (accepts transform_step s1 (ev_ml (c_inv_boxcox t lmbda) r :: post))
    with (match transform_step s1 (ev_ml (c_inv_boxcox t lmbda) r) with
          | Some s2 => accepts transform_step s2 post
          | None => None
          end) in Hacc.
  destruct (transform_step s1 (ev_ml (c_inv_boxcox t lmbda) r)) as [s2|] eqn:Hs2;
    [|discriminate].
  destruct s1 as [b p]. simpl in Hs2.
  destruct p as [| | | |[l|]]; try discriminate.
  destruct (decide (lmbda = l)) as [->|]; [|discriminate].
  destruct Hpre as (hp0 & hp & l2 & model & mh & l3 & Hb & H & H3 & Hlm).
  exists hp0, hp, l2, model, mh, l3. split; [exact H|]. split; [exact H3|]. split.
  - destruct H as (l0 & r0 & l1 & r1 & _ & _ & _ & _ & Hhp).
    exact (set_boxcox_lambda _ _ Hhp).
  - symmetry. exact Hlm.
Qed.

(** *** The transform as configured, where the outside is as C3 takes it *)

Lemma configured_lambda_eval d :
  configured_lambda (setattr d "eval" (py_bool true)) = configured_lambda d.
Proof.
  unfold configured_lambda, setattr. rewrite lookup_insert_ne by discriminate. reflexivity.
Qed.

Lemma configured_lambda_set_boxcox hp0 hp :
  hp = set_boxcox_4_10 hp0 \/ hp = set_boxcox_2_1 hp0 ->
  configured_lambda hp = Some (py_float lit_0_1182).
Proof.
  intros H. unfold configured_lambda. rewrite (set_boxcox_lambda _ _ H). reflexivity.
Qed.

Ltac paired_same :=
  eexists; split; [reflexivity | split; [assumption | simpl; auto]].

Lemma paired_step ts fs cs ev ts' fs' :
  paired ts fs cs ->
  transform_step ts ev = Some ts' ->
  faithful_step fs ev = Some fs' ->
  exists cs', configured_step cs ev = Some cs' /\ paired ts' fs' cs'.
Proof.
  intros [Hb Hp] Hts Hfs. destruct ts as [b p]. simpl in Hb, Hp.
  destruct ev as [c r|cmd z|c r|g z|bb|e];
    try (simpl in Hts, Hfs; inversion Hts; inversion Hfs; subst;
         exists cs; split; [reflexivity | split; assumption]).
  destruct c; simpl in Hts.
  - (* get_hparams *)
    destruct p; try discriminate. subst cs.
    destruct r as [e|[| |d| | | | |]]; simpl in Hfs; inversion Hts; subst;
      try (inversion Hfs; subst; exists (CS None None);
           split; [reflexivity | split; [assumption | reflexivity]]).
    destruct (decide (configured_lambda d = None)) as [Hd|]; [|discriminate].
    inversion Hfs; subst. exists (CS None None). split; [reflexivity|].
    split; [|reflexivity]. simpl. intros b' Hb'. inversion Hb'; subst.
    rewrite configured_lambda_eval. exact Hd.
  - (* get_model *)
    simpl in Hfs. inversion Hfs; subst fs'.
    destruct p; try discriminate; destruct b as [b|]; try discriminate.
    + destruct (decide (hparams = b)) as [->|]; [|discriminate].
      inversion Hts; subst. simpl.
      exists (CS (Some None) None). split; [rewrite (Hb b eq_refl); reflexivity|].
      split; [exact Hb | reflexivity].
    + destruct (decide (hparams = set_boxcox_4_10 b \/ hparams = set_boxcox_2_1 b))
        as [Hhp|]; [|discriminate].
      inversion Hts; subst. simpl.
      exists (CS (Some (Some (py_float lit_0_1182))) None).
      split; [rewrite (configured_lambda_set_boxcox _ _ Hhp); reflexivity|].
      split; [exact Hb|]. simpl. rewrite (set_boxcox_lambda _ _ Hhp). auto.
  - destruct p; try discriminate; inversion Hts; inversion Hfs; subst;
      try destruct Hp as [-> ->]; paired_same.
  - destruct p; try discriminate; inversion Hts; inversion Hfs; subst;
      try destruct Hp as [-> ->]; paired_same.
  - destruct p; try discriminate; inversion Hts; inversion Hfs; subst;
      try destruct Hp as [-> ->]; paired_same.
  - destruct p; try discriminate; inversion Hts; inversion Hfs; subst;
      try destruct Hp as [-> ->]; paired_same.
  - destruct p; try discriminate; inversion Hts; inversion Hfs; subst;
      try destruct Hp as [-> ->]; paired_same.
  - (* model.hparams *)
    destruct p; try discriminate. destruct Hp as [-> ->].
    assert (Hkeep :
              exists cs', configured_step
                            (CS (Some (Some (py_float lit_0_1182)))
                                (Some (py_float lit_0_1182)))
                            (ev_ml (c_model_hparams model) r) = Some cs' /\
                          paired (TS b ph_forwarded) (Some (Some (py_float lit_0_1182))) cs').
    { eexists. split; [reflexivity|]. split; [assumption | simpl; auto]. }
    destruct r as [e|v]; [inversion Hts; inversion Hfs; subst; exact Hkeep|].
    destruct v as [| |mh| | | | |];
      try (inversion Hts; inversion Hfs; subst; exact Hkeep).
    simpl in Hfs.
    destruct (decide (mh !! "boxcox" = Some (py_float lit_0_1182))) as [Hmh|];
      [|discriminate].
    inversion Hfs; inversion Hts; subst. eexists. split; [reflexivity|].
    split; [assumption | simpl; auto].
  - (* forward *)
    simpl in Hfs. inversion Hfs; subst fs'.
    destruct p; try discriminate.
    + inversion Hts; subst.
      destruct r as [e|[]]; eexists; (split; [reflexivity|]); split; simpl; auto.
    + destruct Hp as [-> ->].
      destruct r as [e|[]]; inversion Hts; subst;
        eexists; (split; [reflexivity|]); split; simpl; auto.
  - (* inv_boxcox *)
    simpl in Hfs. inversion Hfs; subst fs'.
    destruct p as [| | | |[l|]]; try discriminate.
    destruct (decide (lmbda = l)) as [->|]; [|discriminate].
    inversion Hts; subst. destruct Hp as (-> & -> & Hl). inversion Hl; subst l.
    exists (CS (Some (Some (py_float lit_0_1182))) None). split.
    { unfold configured_step. cbn [due in_force]. rewrite decide_True by reflexivity.
      reflexivity. }
    split; simpl; auto.
  - destruct p; try discriminate; inversion Hts; inversion Hfs; subst;
      try destruct Hp as [-> ->]; paired_same.
  - destruct p; try discriminate; inversion Hts; inversion Hfs; subst;
      try destruct Hp as [-> ->]; paired_same.
Qed.

Lemma paired_accepts l :
  forall ts fs cs,
    paired ts fs cs ->
    is_Some (accepts transform_step ts l) ->
    is_Some (accepts faithful_step fs l) ->
    is_Some (accepts configured_step cs l).
Proof.
  induction l as [|ev l IH]; intros ts fs cs Hp Hts Hfs; simpl in *; [eauto|].
  destruct (transform_step ts ev) as [ts'|] eqn:Ets; [|destruct Hts; discriminate].
  destruct (faithful_step fs ev) as [fs'|] eqn:Efs; [|destruct Hfs; discriminate].
  destruct (paired_step _ _ _ _ _ _ Hp Ets Efs) as (cs' & -> & Hp').
  eapply IH; eauto.
Qed.

Lemma triple_as_configured_where_faithful {Sys Rng A} (m : M Sys Rng A) :
  triple transform_step any_state (TS None ph_none) m (fun _ _ => True) ->
  as_configured_where_faithful m.
Proof.
  intros Hm g sy Hfs. destruct (Hm (State g sy [])) as (new & s' & Hnew & Hacc & _).
  simpl in Hnew. rewrite Hnew in Hfs |- *.
  apply (paired_accepts new (TS None ph_none) None (CS None None)).
  - split; [intros b Hb; discriminate | reflexivity].
  - rewrite Hacc. eauto.
  - exact Hfs.
Qed.

(** C3, as stated, fails.  In a run where [get_hparams] returns
    hyper-parameters with a lambda among them, the first model is built
    with a lambda configured, the cell "Manual inference" runs its forward
    pass under it, and no [inv_boxcox] is called before the second model
    is built: the prediction under the first model is the masked raw
    output. *)
Lemma transform_not_by_configuration :
  configured_lambda
    (hparams_of (first_model_call (log (fst (notebook_2_1 demo_world_lambda demo_start)))))
  = Some (py_float lit_0_1182) /\
  existsb is_forward
    (under_first_model (log (fst (notebook_2_1 demo_world_lambda demo_start)))) = true /\
  existsb is_inv_boxcox
    (under_first_model (log (fst (notebook_2_1 demo_world_lambda demo_start)))) = false /\
  ~ transform_as_configured (notebook_2_1 demo_world_lambda) /\
  ~ transform_as_configured (notebook_4_10 demo_world_lambda).
Proof.
  split; [vm_compute; reflexivity|].
  split; [vm_compute; reflexivity|].
  split; [vm_compute; reflexivity|].
  split; intros H; specialize (H demo_rngs demo_sys); destruct H as [s H];
    vm_compute in H; discriminate.
Qed.

(** C3, amended.  The notebooks have no branch on the configuration: the
    transform goes by the place in the notebook.  The cell "Manual
    inference" masks the raw output of the forward pass and calls no
    transform, whatever the hyper-parameters say.  The inference cell of
    the Box-Cox part calls [inv_boxcox] on the raw output of the forward
    pass with the [boxcox] attribute of [model.hparams], and masks the
    transformed tensor.  In every run [inv_boxcox] is called under the
    second model only, the one built after the notebook set
    [hparams.boxcox = 0.1182], and with the lambda that [model.hparams] has
    when read after the forward pass.  In the runs in which [get_hparams]
    returns hyper-parameters with no lambda configured and [model.hparams]
    has the [boxcox] attribute of the hyper-parameters the model was built
    from, this is the transform as configured: [inv_boxcox] with the
    configured lambda after the forward pass under hyper-parameters with a
    lambda, no [inv_boxcox] under hyper-parameters without one. *)
Theorem inverse_boxcox_by_position {Sys Rng} (w : World Sys Rng) (model : obj)
    (st : state Sys Rng) (x y y_hat : tensor float32) :
  (snd (manual_inference w model st) = inr (x, y, y_hat) ->
   exists raw,
     plain_prediction model st (fst (manual_inference w model st)) x y y_hat raw)
  /\
  (snd (boxcox_inference w model st) = inr (x, y, y_hat) ->
   exists raw transformed lmbda,
     boxcox_prediction model st (fst (boxcox_inference w model st))
                       x y y_hat raw transformed lmbda)
  /\ transform_by_position (notebook_4_10 w)
  /\ transform_by_position (notebook_2_1 w)
  /\ as_configured_where_faithful (notebook_4_10 w)
  /\ as_configured_where_faithful (notebook_2_1 w).
Proof.
  split; [intros H; apply run_of_snd, manual_inference_inv in H; exact H|].
  split; [intros H; apply run_of_snd, boxcox_inference_inv in H; exact H|].
  split; [apply triple_transform_by_position, triple_transform_4_10|].
  split; [apply triple_transform_by_position, triple_transform_2_1|].
  split; apply triple_as_configured_where_faithful.
  - apply triple_transform_4_10.
  - apply triple_transform_2_1.
Qed.

Lemma inverse_boxcox_by_position_witness :
  (exists raw,
     plain_prediction 1 demo_plain (fst demo_manual_run)
       (fst (fst (returned no_tensors demo_manual_run)))
       (snd (fst (returned no_tensors demo_manual_run)))
       (snd (returned no_tensors demo_manual_run)) raw)
  /\
  (exists raw transformed lmbda,
     boxcox_prediction 1 demo_boxcox (fst demo_boxcox_run)
       (fst (fst (returned no_tensors demo_boxcox_run)))
       (snd (fst (returned no_tensors demo_boxcox_run)))
       (snd (returned no_tensors demo_boxcox_run)) raw transformed lmbda)
  /\
  (exists hp0 hp l2 model mh l3,
     second_model hp0 hp (l2 ++ ev_ml (c_model_hparams model) (inr (val_dict mh)) :: l3)
                  (fst (cut_at is_inv_boxcox demo_log)) /\
     no_ml l3 /\
     hp !! "boxcox" = Some (py_float lit_0_1182) /\
     mh !! "boxcox" = Some (py_float lit_0_1182))
  /\
  is_Some (accepts configured_step (CS None None) demo_log).
Proof.
  split; [|split; [|split]].
  - apply (proj1 (inverse_boxcox_by_position demo_world 1 demo_plain
                    (fst (fst (returned no_tensors demo_manual_run)))
                    (snd (fst (returned no_tensors demo_manual_run)))
                    (snd (returned no_tensors demo_manual_run)))).
    vm_compute. reflexivity.
  - apply (proj1 (proj2 (inverse_boxcox_by_position demo_world 1 demo_boxcox
                    (fst (fst (returned no_tensors demo_boxcox_run)))
                    (snd (fst (returned no_tensors demo_boxcox_run)))
                    (snd (returned no_tensors demo_boxcox_run))))).
    vm_compute. reflexivity.
  - apply (proj1 (proj2 (proj2 (proj2
             (inverse_boxcox_by_position demo_world 1 demo_plain
                (Dim []) (Dim []) (Dim [])))))
             demo_rngs demo_sys
             (fst (cut_at is_inv_boxcox demo_log))
             (Dim [Dim [demo_pred_day]])
             (py_float lit_0_1182)
             (inr (val_tensor (tmap (fun v => f32_add v v) (Dim [Dim [demo_pred_day]]))))
             (tl (snd (cut_at is_inv_boxcox demo_log)))).
    apply (cut_at_hd is_inv_boxcox demo_log). vm_compute. reflexivity.
  - apply (proj2 (proj2 (proj2 (proj2 (proj2
             (inverse_boxcox_by_position demo_world 1 demo_plain
                (Dim []) (Dim []) (Dim []))))))
             demo_rngs demo_sys).
    vm_compute. eexists. reflexivity.
Defined.

(** The lambda passed to [inv_boxcox] is the one that [model.hparams]
    has: where the model keeps hyper-parameters of its own, with a lambda
    of 5.0, the transform is called with 5.0 although the notebook
    configured 0.1182. *)
Example transform_takes_the_lambda_of_the_model :
  lambda_of
    (hd (ev_op FileNotFoundError)
        (snd (cut_at is_inv_boxcox
                (log (fst (notebook_2_1 demo_world_other_lambda demo_start))))))
  = Some (py_float lit_5_0) /\
  accepts faithful_step None
    (log (fst (notebook_2_1 demo_world_other_lambda demo_start))) = None /\
  accepts configured_step (CS None None)
    (log (fst (notebook_2_1 demo_world_other_lambda demo_start))) = None.
Proof. repeat split; vm_compute; reflexivity. Qed.
